(** * d-project: manifest loading, content-addressed cache and execution engine

    A shallow embedding of [src/d_project/schema.py],
    [src/d_project/utils.py] and the commands [run] and [init] of
    [src/d_project/app.py], and what is proved of it.

    - Data read from YAML or JSON is a [value]; a Python [dict] is an
      association list in insertion order.
    - The disk, the working directory, the environment and what the
      process has printed and started are an explicit [world].  Code that
      only reads the world returns a [result]; code that changes it is a
      computation [M].  [sys.exit] and exceptions are outcomes that pass
      through [finally] blocks.
    - What the code takes from libraries and from the operating system
      (MD5, JSON, shell words, child processes, [confection], [rich])
      comes in through the classes [Digest], [Parsers], [Runtime] and
      [Console]; the properties hold for every instance.  [MD5], [Json]
      and [Demo] give instances to run the code on concrete projects. *)

From Stdlib Require Import ZArith String Ascii Strings.Byte List Bool Lia Permutation.
From Stdlib Require OrdersEx.
From stdpp Require Import base option list strings gmap sorting pretty.

Local Open Scope string_scope.
Local Open Scope Z_scope.
Local Open Scope list_scope.
#[local] Set Warnings "-register-all".

(** ** YAML / JSON data *)

(** What [srsly.read_yaml] and [srsly.json_loads] return.  A float is kept
    as the text Python prints for it. *)
Inductive value : Type :=
| VNull
| VBool (b : bool)
| VInt (z : Z)
| VFloat (repr : string)
| VStr (s : string)
| VList (l : list value)
| VDict (d : list (string * value)).

(** A Python [dict] with string keys, in insertion order. *)
Abbreviation dict := (list (string * value)).

(** [d.get(k)] / [k in d] / [d[k]]. *)
Fixpoint dict_get {V} (k : string) (d : list (string * V)) : option V :=
  match d with
  | [] => None
  | (k', v) :: d' => if String.eqb k k' then Some v else dict_get k d'
  end.

(** [d[k] = v]: an existing key keeps its place. *)
Fixpoint dict_set {V} (k : string) (v : V) (d : list (string * V)) : list (string * V) :=
  match d with
  | [] => [(k, v)]
  | (k', v') :: d' =>
      if String.eqb k k' then (k', v) :: d' else (k', v') :: dict_set k v d'
  end.

Definition dict_keys {V} (d : list (string * V)) : list string := map fst d.

(** [x in l] for a list of strings. *)
Definition str_in (x : string) (l : list string) : bool :=
  existsb (String.eqb x) l.

(** Python truthiness, as used by [if x:] and [not x]. *)
Definition truthy (v : value) : bool :=
  match v with
  | VNull => false
  | VBool b => b
  | VInt z => negb (z =? 0)
  | VFloat r => negb (String.eqb r "0.0" || String.eqb r "-0.0")
  | VStr s => negb (String.eqb s "")
  | VList l => match l with [] => false | _ => true end
  | VDict d => match d with [] => false | _ => true end
  end.

(** ** Outcomes of fallible code *)

(** [Exit n] is [sys.exit(n)] (also behind [msg.fail(..., exits=n)]);
    [Raise e] is any other exception, named by its class. *)
Inductive result (A : Type) : Type :=
| Ok (a : A)
| Exit (code : Z)
| Raise (exc : string).
Arguments Ok {A} a.
Arguments Exit {A} code.
Arguments Raise {A} exc.

Definition rbind {A B} (r : result A) (f : A -> result B) : result B :=
  match r with
  | Ok a => f a
  | Exit c => Exit c
  | Raise e => Raise e
  end.

Declare Scope result_scope.
Delimit Scope result_scope with result.
Notation "x <- c1 ;; c2" := (rbind c1 (fun x => c2))
  (at level 100, c1 at next level, right associativity) : result_scope.

(** A loop [for x in l: data.append(f x)] whose body may fail. *)
Fixpoint rmap {A B} (f : A -> result B) (l : list A) : result (list B) :=
  match l with
  | [] => Ok []
  | x :: l' => (y <- f x ;; ys <- rmap f l' ;; Ok (y :: ys))%result
  end.

(** ** Strings *)

(** [s.split(sep)] for a one-character separator. *)
Fixpoint split_on (sep : ascii) (s : string) : list string :=
  match s with
  | EmptyString => [EmptyString]
  | String c s' =>
      if Ascii.eqb c sep then EmptyString :: split_on sep s'
      else match split_on sep s' with
           | h :: t => String c h :: t
           | [] => [String c EmptyString]
           end
  end.

(** [sub in s]. *)
Fixpoint contains (sub s : string) : bool :=
  String.prefix sub s ||
  match s with
  | EmptyString => false
  | String _ s' => contains sub s'
  end.

(** [s.replace(old, new)] for a non-empty [old]: leftmost matches, not
    overlapping. *)
Fixpoint drop_chars (n : nat) (s : string) : string :=
  match n, s with
  | O, _ => s
  | S n', String _ s' => drop_chars n' s'
  | S _, EmptyString => EmptyString
  end.

Fixpoint replace_fuel (fuel : nat) (old new s : string) : string :=
  match fuel with
  | O => s
  | S fuel' =>
      match s with
      | EmptyString => EmptyString
      | String c s' =>
          if String.prefix old s
          then new +:+ replace_fuel fuel' old new (drop_chars (String.length old) s)
          else String c (replace_fuel fuel' old new s')
      end
  end.

Definition replace (old new s : string) : string :=
  replace_fuel (S (String.length s)) old new s.

(** Text is kept as its UTF-8 bytes; a character is a leading byte with
    the continuation bytes that follow it. *)
Definition is_continuation (c : ascii) : bool :=
  let n := nat_of_ascii c in ((128 <=? n) && (n <? 192))%nat.

(** [list(s)]: the characters of a text. *)
Fixpoint code_points (s : string) : list string :=
  match s with
  | EmptyString => []
  | String c s' =>
      match code_points s' with
      | String c' g :: rest =>
          if is_continuation c' then String c (String c' g) :: rest
          else String c EmptyString :: String c' g :: rest
      | rest => String c EmptyString :: rest
      end
  end.

(** ** Paths *)

(** A [pathlib] path as its parts; an absolute path starts with the part
    ["/"]. *)
Abbreviation Path := (list string).

Definition is_absolute (p : Path) : bool :=
  match p with
  | root :: _ => String.eqb root "/"
  | [] => false
  end.

(** [Path(s)]: empty and ["."] components are dropped. *)
Definition Path_of (s : string) : Path :=
  (if String.prefix "/" s then ["/"] else []) ++
  List.filter (fun part => negb (String.eqb part "" || String.eqb part ".")) (split_on "/" s).

(** [p / s]: an absolute right operand replaces the left one. *)
Definition joinpath (p : Path) (s : string) : Path :=
  if String.prefix "/" s then Path_of s else p ++ Path_of s.

(** Lexical resolution of [".."] against the parts collected so far. *)
Fixpoint collapse (acc : Path) (parts : Path) : Path :=
  match parts with
  | [] => acc
  | part :: rest =>
      if String.eqb part ".."
      then collapse (match acc with
                     | [] => []
                     | [root] => if String.eqb root "/" then [root] else []
                     | _ => removelast acc
                     end) rest
      else collapse (acc ++ [part]) rest
  end.

(** [Path(p).resolve()] relative to the working directory [cwd]; symbolic
    links are not modelled. *)
Definition resolve (cwd p : Path) : Path :=
  collapse [] (if is_absolute p then p else cwd ++ p).

(** [sorted] on paths compares them part by part, each part as a string
    of code units. *)
Fixpoint path_compare (p q : Path) : comparison :=
  match p, q with
  | [], [] => Eq
  | [], _ :: _ => Lt
  | _ :: _, [] => Gt
  | a :: p', b :: q' =>
      match OrdersEx.String_as_OT.compare a b with
      | Eq => path_compare p' q'
      | c => c
      end
  end.

Definition path_le (p q : Path) : Prop := path_compare p q <> Gt.

#[global] Instance path_le_dec : RelDecision path_le.
Proof. intros p q. unfold path_le. destruct (path_compare p q); [left | left | right]; congruence. Defined.

(** [q] lies strictly below the directory [root]. *)
Fixpoint below (root q : Path) : bool :=
  match root, q with
  | [], _ :: _ => true
  | a :: root', b :: q' => String.eqb a b && below root' q'
  | _, [] => false
  end.

(** ** The file system and the process state *)

(** A directory entry.  A regular file carries its bytes and what
    [srsly.read_yaml] decodes from them ([None] when they are not valid
    YAML); [Special] is anything that exists but is neither a regular
    file nor a directory. *)
Inductive node : Type :=
| File (data : list byte) (yaml : option value)
| Dir
| Special.

(** The entries of the disk under their resolved paths, in the order the
    operating system lists them. *)
Abbreviation filesystem := (list (Path * node)).

Fixpoint fs_find (p : Path) (fs : filesystem) : option node :=
  match fs with
  | [] => None
  | (q, n) :: fs' => if decide (p = q) then Some n else fs_find p fs'
  end.

(** Replace the entry at [p], or add it at the end. *)
Fixpoint fs_put (p : Path) (n : node) (fs : filesystem) : filesystem :=
  match fs with
  | [] => [(p, n)]
  | (q, m) :: fs' => if decide (p = q) then (q, n) :: fs' else (q, m) :: fs_put p n fs'
  end.

(** One text handed to a printer of the console, or one child process
    started.  The text is what the code passes on: [rich] reads markup
    in square brackets out of it before it reaches the terminal. *)
Inductive event : Type :=
| Print (text : string)
| Spawn (argv : list string).

Record world : Type := World {
  fs : filesystem;
  cwd : Path;                       (* os.getcwd() *)
  environ : gmap string string;     (* os.environ *)
  trace : list event                (* oldest first *)
}.

(** The directory above [acc]; the root is above itself. *)
Definition parent (acc : Path) : Path :=
  match acc with
  | [] => []
  | [root] => if String.eqb root "/" then [root] else []
  | _ => removelast acc
  end.

(** Whether the system can look a name up in [acc]: it has to be a
    directory.  The root always is one. *)
Definition searchable (disk : filesystem) (acc : Path) : result unit :=
  if bool_decide (acc = []) || bool_decide (acc = ["/"]) then Ok tt
  else match fs_find acc disk with
       | Some Dir => Ok tt
       | Some _ => Raise "NotADirectoryError"
       | None => Raise "FileNotFoundError"
       end.

(** The place on the disk a path leads to.  The system looks [".."] up
    in the directory reached so far, so that directory has to exist: a
    path through a missing directory, or through a file, leads nowhere
    even where [resolve], which only looks at the text, gives a path.
    The other parts lengthen the path; what the disk holds there is for
    the lookup in the table to say. *)
Fixpoint walk (disk : filesystem) (acc parts : Path) : result Path :=
  match parts with
  | [] => Ok acc
  | part :: rest =>
      if String.eqb part ".."
      then (_ <- searchable disk acc ;; walk disk (parent acc) rest)%result
      else walk disk (acc ++ [part]) rest
  end.

Definition locate (w : world) (p : Path) : result Path :=
  walk (fs w) [] (if is_absolute p then p else cwd w ++ p).

(** [os.stat(p)], [None] where it fails.  The disk has no permissions
    and no limit on the length of a name. *)
Definition stat (w : world) (p : Path) : option node :=
  match locate w p with
  | Ok q => fs_find q (fs w)
  | _ => None
  end.

Definition path_exists (w : world) (p : Path) : bool :=
  match stat w p with Some _ => true | None => false end.

Definition is_file (w : world) (p : Path) : bool :=
  match stat w p with Some (File _ _) => true | _ => false end.

Definition is_dir (w : world) (p : Path) : bool :=
  match stat w p with Some Dir => true | _ => false end.

Definition read_bytes (w : world) (p : Path) : result (list byte) :=
  match stat w p with
  | Some (File data _) => Ok data
  | Some Dir => Raise "IsADirectoryError"
  | Some Special => Raise "OSError"
  | None => Raise "FileNotFoundError"
  end.

(** [srsly.read_yaml(p)]: a missing file and invalid YAML both raise
    [ValueError]. *)
Definition read_yaml (w : world) (p : Path) : result value :=
  match stat w p with
  | Some (File _ (Some v)) => Ok v
  | Some (File _ None) => Raise "ValueError"
  | Some Dir => Raise "IsADirectoryError"
  | Some Special => Raise "OSError"
  | None => Raise "ValueError"
  end.

(** [p.rglob("*")]: every entry below [p], as resolved paths, in disk
    order. *)
Definition rglob (w : world) (p : Path) : list Path :=
  List.filter (fun q => below (resolve (cwd w) p) q) (map fst (fs w)).

(** ** Library functions of the cache *)

(** What the cache takes from [hashlib] and [srsly]. *)
Class Digest : Type := {
  (** [hashlib.md5(b).hexdigest()] *)
  md5_hexdigest : list byte -> string;
  (** [srsly.json_dumps(data, sort_keys=True)] *)
  json_dumps : value -> string
}.

Definition PROJECT_FILE : string := "project.yml".
Definition PROJECT_LOCK : string := "project.lock".

(** ** Commands *)

(** A command of the manifest at the types [ProjectConfigCommand]
    validates.  The code keeps the mapping read from YAML and never the
    validated model, so a key the manifest omits stays absent ([None])
    instead of taking the schema's default. *)
Record ProjectConfigCommand : Type := Command {
  name : string;
  help : option string;
  script : option (list string);
  deps : option (list string);
  outputs : option (list string);
  outputs_no_cache : option (list string);
  no_skip : option bool
}.

(** ** The content-addressed cache *)

Section Cache.
Context `{Digest}.

(** A [hashlib.md5()] object is the bytes fed to it so far. *)
Definition md5_update (h : list byte) (b : list byte) : list byte := h ++ b.

Definition get_checksum (w : world) (path : Path) : result string :=
  if negb (is_file w path || is_dir w path) then Exit 1
  else if is_file w path then
    (data <- read_bytes w path ;; Ok (md5_hexdigest data))%result
  else
    (contents <- rmap (read_bytes w)
                   (merge_sort path_le (List.filter (is_file w) (rglob w path))) ;;
     Ok (md5_hexdigest (fold_left md5_update contents [])))%result.

Definition get_fileinfo (w : world) (project_dir : Path) (paths : list string)
  : result (list value) :=
  rmap (fun path =>
          let file_path := joinpath project_dir path in
          (md5 <- (if path_exists w file_path
                   then (h <- get_checksum w file_path ;; Ok (VStr h))
                   else Ok VNull) ;;
           Ok (VDict [("path", VStr path); ("md5", md5)]))%result)
       paths.

Definition get_lock_entry (w : world) (project_dir : Path)
    (command : ProjectConfigCommand) : result value :=
  (deps_info <- get_fileinfo w project_dir (default [] (deps command)) ;;
   outs <- get_fileinfo w project_dir (default [] (outputs command)) ;;
   outs_nc <- get_fileinfo w project_dir (default [] (outputs_no_cache command)) ;;
   lines <- match script command with
            | Some lines => Ok lines
            | None => Raise "KeyError"
            end ;;
   Ok (VDict [("cmd", VStr ("project run " +:+ name command));
              ("script", VList (map VStr lines));
              ("deps", VList deps_info);
              ("outs", VList (outs ++ outs_nc))]))%result.

Definition get_hash (data : value) (exclude : list string) : string :=
  let data :=
    match data with
    | VDict d => VDict (List.filter (fun kv => negb (bool_decide (kv.1 ∈ exclude))) d)
    | _ => data
    end in
  md5_hexdigest (list_byte_of_string (json_dumps data)).

(** [name not in data] followed by [data[name]], for whatever the
    lockfile decodes to: [Ok None] when the test finds nothing. *)
Definition lock_lookup (data : value) (key : string) : result (option value) :=
  match data with
  | VDict d => Ok (dict_get key d)
  | VList l =>
      if existsb (fun v => match v with VStr s => String.eqb s key | _ => false end) l
      then Raise "TypeError" else Ok None
  | VStr s => if contains key s then Raise "TypeError" else Ok None
  | _ => Raise "TypeError"
  end.

(** [entry.get("outs", [])]. *)
Definition entry_outs (entry : value) : result value :=
  match entry with
  | VDict e => Ok (default (VList []) (dict_get "outs" e))
  | _ => Raise "AttributeError"
  end.

Definition check_rerun (w : world) (project_dir : Path)
    (command : ProjectConfigCommand) : result bool :=
  if default false (no_skip command) then Ok true
  else
    let lock_path := joinpath project_dir PROJECT_LOCK in
    if negb (path_exists w lock_path) then Ok true
    else
      (data <- read_yaml w lock_path ;;
       found <- lock_lookup data (name command) ;;
       match found with
       | None => Ok true
       | Some entry =>
           outs <- entry_outs entry ;;
           if negb (truthy outs) then Ok true
           else
             lock_entry <- get_lock_entry w project_dir command ;;
             Ok (negb (String.eqb (get_hash lock_entry []) (get_hash entry [])))
       end)%result.
End Cache.

(** ** Schema validation ([schema.py]) *)

(** A pydantic error: where ([loc]) and what ([msg]). *)
Abbreviation error := (list string * string)%type.

Definition str_le (a b : string) : Prop := OrdersEx.String_as_OT.compare a b <> Gt.

#[global] Instance str_le_dec : RelDecision str_le.
Proof.
  intros a b. unfold str_le.
  destruct (OrdersEx.String_as_OT.compare a b); [left | left | right]; congruence.
Defined.

Definition lower_ascii (c : ascii) : ascii :=
  let n := nat_of_ascii c in
  if ((65 <=? n) && (n <=? 90))%nat then ascii_of_nat (n + 32) else c.

Fixpoint lower (s : string) : string :=
  match s with
  | EmptyString => EmptyString
  | String c s' => String (lower_ascii c) (lower s')
  end.

(** *** Python's [dict(v)] *)

Definition decimal (s : string) : option Z :=
  match s with
  | EmptyString => None
  | _ =>
      fold_left (fun acc c =>
                   a ← acc;
                   let n := nat_of_ascii c in
                   if ((48 <=? n) && (n <=? 57))%nat
                   then Some (10 * a + Z.of_nat (n - 48)) else None)
                (list_ascii_of_string s) (Some 0)
  end.

Definition signed_decimal (s : string) : option Z :=
  match s with
  | String "+" d => decimal d
  | String "-" d => Z.opp <$> decimal d
  | _ => decimal s
  end.

(** The integer a float is equal to, from the text Python prints for
    it: [1.0], [-3.0], [1e+16]; none for [2.5], [inf] and [nan]. *)
Definition float_integer (repr : string) : option Z :=
  let (negative, body) :=
    match repr with
    | String "-" b => (true, b)
    | _ => (false, repr)
    end in
  match split_on "e" body with
  | mantissa :: rest =>
      exponent ← match rest with
                 | [] => Some 0
                 | [e] => signed_decimal e
                 | _ => None
                 end;
      digits ← match split_on "." mantissa with
               | [whole] => (fun d => (d, 0)) <$> decimal whole
               | [whole; fraction] =>
                   (fun d => (d, Z.of_nat (String.length fraction)))
                     <$> decimal (whole +:+ fraction)
               | _ => None
               end;
      let scale := exponent - digits.2 in
      magnitude ← (if 0 <=? scale then Some (digits.1 * 10 ^ scale)
                   else if digits.1 mod 10 ^ (- scale) =? 0
                        then Some (digits.1 / 10 ^ (- scale)) else None);
      Some (if negative then - magnitude else magnitude)
  | [] => None
  end.

(** The integer a number is equal to: [True == 1 == 1.0]. *)
Definition as_integer (v : value) : option Z :=
  match v with
  | VBool b => Some (if b then 1 else 0)
  | VInt z => Some z
  | VFloat repr => float_integer repr
  | _ => None
  end.

(** [a == b] for two keys of a [dict]. *)
Definition key_eqb (a b : value) : bool :=
  match as_integer a, as_integer b with
  | Some x, Some y => x =? y
  | None, None =>
      match a, b with
      | VNull, VNull => true
      | VStr s, VStr t => String.eqb s t
      | VFloat r, VFloat t => String.eqb r t && negb (String.eqb r "nan")
      | _, _ => false
      end
  | _, _ => false
  end.

(** [d[k] = v] for keys of any type: an equal key keeps its place and
    its first spelling. *)
Fixpoint pairs_set (k v : value) (items : list (value * value)) : list (value * value) :=
  match items with
  | [] => [(k, v)]
  | (k', v') :: rest =>
      if key_eqb k k' then (k', v) :: rest else (k', v') :: pairs_set k v rest
  end.

(** An element of the sequence given to [dict]: anything that iterates
    to two items, the first of which can be hashed. *)
Definition pair_of (item : value) : option (value * value) :=
  kv ← match item with
       | VList [k; v] => Some (k, v)
       | VStr s =>
           match code_points s with
           | [a; b] => Some (VStr a, VStr b)
           | _ => None
           end
       | VDict [(k1, _); (k2, _)] => Some (VStr k1, VStr k2)
       | _ => None
       end;
  match kv.1 with
  | VList _ | VDict _ => None
  | _ => Some kv
  end.

(** [dict(v)], [None] for a [TypeError] or [ValueError]: a mapping, or
    a sequence of pairs.  A text other than the empty one is a sequence
    of characters, none of which is a pair. *)
Definition py_dict (v : value) : option (list (value * value)) :=
  match v with
  | VDict d => Some (map (fun kv => (VStr kv.1, kv.2)) d)
  | VList items =>
      pairs ← mapM pair_of items;
      Some (fold_left (fun acc kv => pairs_set kv.1 kv.2 acc) pairs [])
  | VStr EmptyString => Some []
  | _ => None
  end.

Module Pydantic.
(** The field validators of pydantic 1.x on data that comes from YAML. *)
Definition validator : Type := list string -> value -> list error.

Definition none_not_allowed (loc : list string) : list error :=
  [(loc, "none is not an allowed value")].

Definition StrictStr : validator := fun loc v =>
  match v with
  | VStr _ => []
  | VNull => none_not_allowed loc
  | _ => [(loc, "str type expected")]
  end.

(** [str]: numbers are coerced to text. *)
Definition str : validator := fun loc v =>
  match v with
  | VStr _ | VInt _ | VFloat _ | VBool _ => []
  | VNull => none_not_allowed loc
  | _ => [(loc, "str type expected")]
  end.

(** [bool]: also 0, 1 and the usual spellings of yes and no. *)
Definition bool : validator := fun loc v =>
  let bad := [(loc, "value could not be parsed to a boolean")] in
  match v with
  | VBool _ => []
  | VInt z => if (z =? 0) || (z =? 1) then [] else bad
  | VFloat r => if str_in r ["0.0"; "-0.0"; "1.0"] then [] else bad
  | VStr s =>
      if str_in (lower s)
           ["1"; "on"; "t"; "true"; "y"; "yes"; "0"; "off"; "f"; "false"; "n"; "no"]
      then [] else bad
  | VNull => none_not_allowed loc
  | _ => bad
  end.

Definition Any : validator := fun _ _ => [].

Definition Optional (inner : validator) : validator := fun loc v =>
  match v with
  | VNull => []
  | _ => inner loc v
  end.

Definition List (inner : validator) : validator := fun loc v =>
  match v with
  | VList items =>
      concat (imap (fun i item => inner (loc ++ [pretty i])%list item) items)
  | VNull => none_not_allowed loc
  | _ => [(loc, "value is not a valid list")]
  end.

(** [Dict[StrictStr, T]]: a value that is no mapping is first given to
    [dict]; a key that is no text is an error of the key, and the value
    under it is not looked at. *)
Definition Dict (inner : validator) : validator := fun loc v =>
  match v with
  | VDict d => concat (map (fun kv => inner (loc ++ [kv.1])%list kv.2) d)
  | VNull => none_not_allowed loc
  | _ =>
      match py_dict v with
      | Some items =>
          concat (map (fun kv => match kv.1 with
                                 | VStr k => inner (loc ++ [k])%list kv.2
                                 | key => StrictStr (loc ++ ["__key__"])%list key
                                 end) items)
      | None => [(loc, "value is not a valid dict")]
      end
  end.

(** A declared field: its name, whether it is required ([Field(...)])
    and its validator. *)
Record field : Type := Field {
  field_name : string;
  required : Datatypes.bool;
  field_type : validator
}.

Inductive extra : Type := ignore | forbid.

(** [Model] called with the entries of [d] as its keyword arguments:
    the declared fields in order, then the keys that are not declared,
    when [Config.extra] forbids them. *)
Definition model_errors (fields : list field) (cfg_extra : extra) (loc : list string)
    (d : dict) : list error :=
  concat (map (fun f =>
                 match dict_get (field_name f) d with
                 | Some x => field_type f (loc ++ [field_name f])%list x
                 | None => if required f
                           then [((loc ++ [field_name f])%list, "field required")]
                           else []
                 end) fields)
  ++ match cfg_extra with
     | ignore => []
     | forbid =>
         map (fun k => ((loc ++ [k])%list, "extra fields not permitted"))
             (merge_sort str_le
                (remove_dups
                   (List.filter (fun k => negb (str_in k (map field_name fields)))
                           (dict_keys d))))
     end.

(** A field whose type is a [BaseModel]: [Model.validate(v)].  A value
    that is no mapping is first given to [dict]; its keys become keyword
    arguments, which have to be text. *)
Definition model (fields : list field) (cfg_extra : extra) : validator := fun loc v =>
  match v with
  | VDict d => model_errors fields cfg_extra loc d
  | VNull => none_not_allowed loc
  | _ =>
      match py_dict v with
      | Some items =>
          match mapM (fun kv => match kv.1 with
                                | VStr k => Some (k, kv.2)
                                | _ => None
                                end) items with
          | Some d => model_errors fields cfg_extra loc d
          | None => [(loc, "keywords must be strings")]
          end
      | None => [(loc, "value is not a valid dict")]
      end
  end.
End Pydantic.

Definition ProjectConfigCommand_fields : list Pydantic.field :=
  [ Pydantic.Field "name" true Pydantic.StrictStr;
    Pydantic.Field "help" false (Pydantic.Optional Pydantic.StrictStr);
    Pydantic.Field "script" false (Pydantic.List Pydantic.StrictStr);
    Pydantic.Field "deps" false (Pydantic.List Pydantic.StrictStr);
    Pydantic.Field "outputs" false (Pydantic.List Pydantic.StrictStr);
    Pydantic.Field "outputs_no_cache" false (Pydantic.List Pydantic.StrictStr);
    Pydantic.Field "no_skip" false Pydantic.bool ].

(** [class ProjectConfigCommand]: its [Config] sets [extra = "forbid"]. *)
Definition ProjectConfigCommand_schema : Pydantic.validator :=
  Pydantic.model ProjectConfigCommand_fields Pydantic.forbid.

Definition ProjectConfigSchema_fields : list Pydantic.field :=
  [ Pydantic.Field "vars" false (Pydantic.Dict Pydantic.Any);
    Pydantic.Field "env" false (Pydantic.Dict Pydantic.Any);
    Pydantic.Field "workflows" false (Pydantic.Dict (Pydantic.List Pydantic.StrictStr));
    Pydantic.Field "commands" false (Pydantic.List ProjectConfigCommand_schema);
    Pydantic.Field "title" false (Pydantic.Optional Pydantic.str);
    Pydantic.Field "description" false (Pydantic.Optional Pydantic.str) ].

(** [class ProjectConfigSchema]: its [Config] only sets a title, so
    [extra] keeps pydantic's default, which ignores undeclared keys. *)
Definition ProjectConfigSchema : Pydantic.validator :=
  Pydantic.model ProjectConfigSchema_fields Pydantic.ignore.

(** The [defaultdict(list)] of [validate]: messages grouped by location,
    locations in the order they first occur. *)
Fixpoint group_errors (errors : list error) (data : list (string * list string))
  : list (string * list string) :=
  match errors with
  | [] => data
  | (loc, msg) :: errors' =>
      let err_loc := String.concat " -> " loc in
      group_errors errors'
        (dict_set err_loc (default [] (dict_get err_loc data) ++ [msg]) data)
  end.

(** [validate(schema, obj)]: the error messages, none when [obj] is valid. *)
Definition validate (schema : Pydantic.validator) (obj : dict) : list string :=
  map (fun lm => "[" +:+ lm.1 +:+ "] " +:+ String.concat ", " lm.2)
      (group_errors (schema [] (VDict obj)) []).

(** ** Effects *)

(** A computation reads and changes the [world] and ends like a
    [result]; a failure keeps the world it was raised in. *)
Definition M (A : Type) : Type := world -> result A * world.

Definition mret {A} (a : A) : M A := fun w => (Ok a, w).

Definition mbind {A B} (m : M A) (f : A -> M B) : M B := fun w =>
  match m w with
  | (Ok a, w') => f a w'
  | (Exit c, w') => (Exit c, w')
  | (Raise e, w') => (Raise e, w')
  end.

Declare Scope M_scope.
Delimit Scope M_scope with M.
Notation "x <- c1 ;; c2" := (mbind c1 (fun x => c2))
  (at level 100, c1 at next level, right associativity) : M_scope.
Notation "c1 ;; c2" := (mbind c1 (fun _ => c2))
  (at level 100, right associativity) : M_scope.

(** A computation that only reads the world. *)
Definition lift {A} (f : world -> result A) : M A := fun w => (f w, w).

Definition sys_exit {A} (code : Z) : M A := fun w => (Exit code, w).
Definition raise {A} (exc : string) : M A := fun w => (Raise exc, w).

Definition emit (e : event) : M unit := fun w =>
  (Ok tt, World (fs w) (cwd w) (environ w) (trace w ++ [e])).

(** [console.print], [console.log], [print] and the [msg] printers. *)
Definition print (text : string) : M unit := emit (Print text).

(** [msg.fail(text, exits=1)]. *)
Definition fail_exit {A} (text : string) : M A := (print text ;; sys_exit 1)%M.

Definition when (b : bool) (m : M unit) : M unit := if b then m else mret tt.

(** [for x in l: body x]. *)
Fixpoint for_each {A} (l : list A) (body : A -> M unit) : M unit :=
  match l with
  | [] => mret tt
  | x :: l' => (body x ;; for_each l' body)%M
  end.

(** [try: body finally: cleanup]: the cleanup runs on every way out of
    the body, and a failure of the cleanup takes the place of the body's
    outcome. *)
Definition try_finally {A} (body : M A) (cleanup : M unit) : M A := fun w =>
  let (r, w1) := body w in
  match cleanup w1 with
  | (Ok _, w2) => (r, w2)
  | (Exit c, w2) => (Exit c, w2)
  | (Raise e, w2) => (Raise e, w2)
  end.

Definition set_fs (fs' : filesystem) : M unit := fun w =>
  (Ok tt, World fs' (cwd w) (environ w) (trace w)).

(** [Path.cwd()]. *)
Definition getcwd : M Path := fun w =>
  if is_dir w (cwd w) then (Ok (cwd w), w) else (Raise "FileNotFoundError", w).

(** [os.chdir(p)]. *)
Definition chdir (p : Path) : M unit := fun w =>
  match stat w p with
  | Some Dir => (Ok tt, World (fs w) (resolve (cwd w) p) (environ w) (trace w))
  | Some _ => (Raise "NotADirectoryError", w)
  | None => (Raise "FileNotFoundError", w)
  end.

(** [working_dir(path)] around the block [body]. *)
Definition working_dir {A} (path : Path) (body : Path -> M A) : M A :=
  (prev_cwd <- getcwd ;;
   current <- lift (fun w => Ok (resolve (cwd w) path)) ;;
   chdir current ;;
   try_finally (body current) (chdir prev_cwd))%M.

(** [os.mkdir(p)]: the directory above has to exist, and [p] must not. *)
Definition os_mkdir (p : Path) : M unit := fun w =>
  let full := if is_absolute p then p else cwd w ++ p in
  match last full with
  | None => (Raise "FileExistsError", w)
  | Some part =>
      if String.eqb part ".." || String.eqb part "/"
      then match walk (fs w) [] full with
           | Ok _ => (Raise "FileExistsError", w)
           | Exit c => (Exit c, w)
           | Raise e => (Raise e, w)
           end
      else match (above <- walk (fs w) [] (removelast full) ;;
                  _ <- searchable (fs w) above ;; Ok above)%result with
           | Ok above =>
               match fs_find (above ++ [part]) (fs w) with
               | Some _ => (Raise "FileExistsError", w)
               | None => set_fs (fs w ++ [(above ++ [part], Dir)]) w
               end
           | Exit c => (Exit c, w)
           | Raise e => (Raise e, w)
           end
  end.

(** [p.mkdir(parents=..., exist_ok=...)] of [pathlib]: when the
    directory above is missing and [parents] is set, it is made first,
    with the directories above it; any other failure counts only if the
    path is no directory or [exist_ok] is not set.  [room] bounds the
    climb by the number of parts of [p]. *)
Fixpoint mkdir (room : nat) (p : Path) (parents exist_ok : bool) : M unit := fun w =>
  match os_mkdir p w with
  | (Raise e, _) =>
      if String.eqb e "FileNotFoundError" then
        match room with
        | S room' =>
            if negb parents || bool_decide (parent p = p) then (Raise e, w)
            else (mkdir room' (parent p) true true ;; mkdir room' p false exist_ok)%M w
        | O => (Raise e, w)
        end
      else if negb exist_ok || negb (is_dir w p) then (Raise e, w)
      else (Ok tt, w)
  | done => done
  end.

(** [p.mkdir(parents=True)] *)
Definition mkdir_parents (p : Path) : M unit := mkdir (S (length p)) p true false.

(** ** Config overrides *)

(** What override parsing takes from [srsly] and [click]. *)
Class Parsers : Type := {
  (** [srsly.json_loads(s)], [None] for a [ValueError] *)
  json_loads : string -> option value;
  (** [click.parser.split_arg_string(s)] *)
  split_arg_string : string -> list string
}.

Definition CONFIG_OVERRIDES : string := "D_CONFIG_OVERRIDES".

(** [s.split("=", 1)] for an [s] that contains ["="]. *)
Fixpoint split_first (sep : ascii) (s : string) : string * string :=
  match s with
  | EmptyString => (EmptyString, EmptyString)
  | String c s' =>
      if Ascii.eqb c sep then (EmptyString, s')
      else let (a, b) := split_first sep s' in (String c a, b)
  end.

(** [str(l)] for a list of strings without quotes in them. *)
Definition repr_strs (l : list string) : string :=
  "[" +:+ String.concat ", " (map (fun k => "'" +:+ k +:+ "'") l) +:+ "]".

(** [d.update(other)]; [{**a, **b}] is [{}] updated with [a], then [b]. *)
Definition dict_update {V} (d other : list (string * V)) : list (string * V) :=
  fold_left (fun acc kv => dict_set kv.1 kv.2 acc) other d.

(** [os.environ.get(env_var, "") if env_var else ""] *)
Definition env_override_string (env_var : option string) (w : world) : string :=
  match env_var with
  | Some var => if String.eqb var "" then "" else default "" (environ w !! var)
  | None => ""
  end.

Section Overrides.
Context `{Parsers}.

Definition _parse_override (v : string) : value :=
  match json_loads v with
  | Some decoded => decoded
  | None => VStr v
  end.

Fixpoint _parse_overrides (args : list string) (is_cli : bool) (result : dict)
  : M dict :=
  match args with
  | [] => mret result
  | opt :: rest =>
      let err := "Invalid config override '" +:+ opt +:+ "'" in
      if String.prefix "--" opt then
        let orig_opt := opt in
        let opt := replace "--" "" opt in
        if negb (contains "." opt) then
          if is_cli then raise "NoSuchOption"
          else fail_exit (err +:+ ": can't override top-level sections")
        else if contains "=" opt then
          let (opt, v) := split_first "=" opt in
          let opt := replace "-" "_" opt in
          _parse_overrides rest is_cli (dict_set opt (_parse_override v) result)
        else
          match rest with
          | [] =>
              _parse_overrides rest is_cli (dict_set opt (_parse_override "true") result)
          | next :: rest' =>
              if String.prefix "--" next
              then _parse_overrides rest is_cli
                     (dict_set opt (_parse_override "true") result)
              else _parse_overrides rest' is_cli
                     (dict_set opt (_parse_override next) result)
          end
      else fail_exit (err +:+ ": name should start with --")
  end.

Definition parse_config_overrides (args : list string) (env_var : option string)
  : M dict :=
  (env_string <- lift (fun w => Ok (env_override_string env_var w)) ;;
   env_overrides <- _parse_overrides (split_arg_string env_string) false [] ;;
   cli_overrides <- _parse_overrides args true [] ;;
   when (match cli_overrides with [] => false | _ => true end)
     (let keys := List.filter (fun k => negb (str_in k (dict_keys env_overrides)))
                         (dict_keys cli_overrides) in
      print ("Config overrides from CLI: " +:+ repr_strs keys)) ;;
   when (match env_overrides with [] => false | _ => true end)
     (print ("Config overrides from env variables: "
             +:+ repr_strs (dict_keys env_overrides))) ;;
   mret (dict_update (dict_update [] cli_overrides) env_overrides))%M.
End Overrides.

(** ** Manifest loading *)

Definition nl : string := String (ascii_of_nat 10) EmptyString.

(** Iterating over a value, as [for x in v] does: [None] when [v] is not
    iterable.  A string yields its characters. *)
Definition py_iter (v : value) : option (list value) :=
  match v with
  | VList l => Some l
  | VDict d => Some (map (fun kv => VStr kv.1) d)
  | VStr s => Some (map VStr (code_points s))
  | _ => None
  end.

Definition as_str (v : value) : option string :=
  match v with VStr s => Some s | _ => None end.

Definition as_str_list (v : value) : option (list string) :=
  match v with VList l => mapM as_str l | _ => None end.

(** An optional key at the type [conv] recognises: [Some None] when the
    key is absent, [None] when its value has another type. *)
Definition opt_key {A} (conv : value -> option A) (k : string) (d : dict)
  : option (option A) :=
  match dict_get k d with
  | None => Some None
  | Some v => Some <$> conv v
  end.

(** A command mapping seen at its validated types; [no_skip] is only
    ever tested for truth. *)
Definition command_of (v : value) : option ProjectConfigCommand :=
  match v with
  | VDict d =>
      n ← dict_get "name" d ≫= as_str;
      h ← opt_key (fun x => match x with VNull => Some None | _ => Some <$> as_str x end)
            "help" d;
      s ← opt_key as_str_list "script" d;
      de ← opt_key as_str_list "deps" d;
      o ← opt_key as_str_list "outputs" d;
      onc ← opt_key as_str_list "outputs_no_cache" d;
      Some (Command n (mjoin h) s de o onc (truthy <$> dict_get "no_skip" d))
  | _ => None
  end.

(** [config.get("commands", [])] *)
Definition config_commands (config : dict) : option (list ProjectConfigCommand) :=
  match dict_get "commands" config with
  | None => Some []
  | Some (VList l) => mapM command_of l
  | Some _ => None
  end.

(** [config.get("workflows", {})] *)
Definition config_workflows (config : dict) : option (list (string * list string)) :=
  match dict_get "workflows" config with
  | None => Some []
  | Some (VDict d) => mapM (fun kv => pair kv.1 <$> as_str_list kv.2) d
  | Some _ => None
  end.

(** A mapping that is not at its validated types fails with a
    [TypeError] where the code first touches it. *)
Definition typed {A} (o : option A) : M A :=
  match o with
  | Some a => mret a
  | None => raise "TypeError"
  end.

(** [config.get("workflows", {})] where the code goes on to call
    [.items()] or [.keys()] on it: what is no mapping has no such
    method. *)
Definition workflows_of (config : dict) : M (list (string * list string)) :=
  match dict_get "workflows" config with
  | None | Some (VDict _) => typed (config_workflows config)
  | Some _ => raise "AttributeError"
  end.

(** [l.count(x)] *)
Definition count_str (x : string) (l : list string) : nat :=
  length (List.filter (String.eqb x) l).

(** What [confection] makes of a config: the interpolated project
    section, or one of the errors [show_validation_error] handles, or any
    other exception. *)
Inductive interpolation : Type :=
| Interpolated (project : dict)
| ConfigValidationError (text : string)
| InterpolationError
| InterpolationRaises (exc : string).

(** What [subprocess.run] reports: the exit status, the captured output
    and the file system the child leaves behind, or the exception raised
    when the child cannot be started. *)
Inductive completed : Type :=
| Completed (returncode : Z) (stdout : option string) (fs' : filesystem)
| NotStarted (exc : string).

(** What [pkg_resources.require] does with one requirement. *)
Inductive requirement : Type :=
| Satisfied
| DistributionNotFound (report : string)
| VersionConflict (report : string)
| RequireRaises (exc : string).

(** What the engine takes from the interpreter, the operating system and
    its libraries. *)
Class Runtime : Type := {
  (** [shlex.split(s, posix=not is_windows)], [None] for a [ValueError] *)
  shlex_split : string -> option (list string);
  (** [shlex.quote(s)] *)
  shlex_quote : string -> string;
  (** [sys.executable] *)
  sys_executable : string;
  (** the bytes [srsly.write_yaml] writes for a document *)
  yaml_dump : value -> list byte;
  (** [Config().from_str(cfg.to_str(), overrides=...).interpolate()["project"]] *)
  interpolate_config : dict -> dict -> interpolation;
  (** [subprocess.run(argv, env=os.environ.copy(), ...)], from the working
      directory, with the output captured or not *)
  subprocess_run : list string -> gmap string string -> Path -> bool -> filesystem -> completed;
  (** [pkg_resources.require(req)] *)
  pkg_require : string -> requirement;
  (** the order in which [set(l)] is iterated: its members are the
      distinct members of [l], in an order that changes from one run of
      the interpreter to the next *)
  set_order : list string -> list string;
  set_order_distinct : forall l, Permutation (set_order l) (remove_dups l)
}.

(** [d.setdefault(k, v)] *)
Definition dict_setdefault {V} (k : string) (v : V) (d : list (string * V))
  : list (string * V) :=
  match dict_get k d with
  | Some _ => d
  | None => dict_set k v d
  end.

(** The lines of a text file, without their line ends. *)
Definition file_lines (data : list byte) : list string :=
  match data with
  | [] => []
  | _ =>
      let parts := split_on (ascii_of_nat 10) (string_of_list_byte data) in
      match last parts with
      | Some EmptyString => removelast parts
      | _ => parts
      end
  end.

(** A command line of the engine: a string to split, or an argument list. *)
Inductive command_line : Type :=
| CmdStr (command : string)
| CmdList (command : list string).

Section Engine.
Context `{Digest} `{Parsers} `{Runtime}.

Definition validate_project_commands (config : dict) : M unit :=
  (commands <- typed (config_commands config) ;;
   let command_names := map name commands in
   workflows <- workflows_of config ;;
   let duplicates :=
     set_order (List.filter (fun cmd => (1 <? count_str cmd command_names)%nat) command_names) in
   when (match duplicates with [] => false | _ => true end)
     (print ("Duplicate commands defined in " +:+ PROJECT_FILE +:+ ": "
             +:+ String.concat ", " duplicates)) ;;
   for_each workflows (fun wf =>
     let workflow_name := wf.1 in
     let workflow_steps := wf.2 in
     when (str_in workflow_name command_names)
       (print ("Can't use workflow name '" +:+ workflow_name
               +:+ "': name already exists as a command")) ;;
     for_each workflow_steps (fun step =>
       when (negb (str_in step command_names))
         (print ("Unknown command specified in workflow '" +:+ workflow_name +:+ "': "
                 +:+ step +:+ " Workflows can only refer to commands defined in the "
                 +:+ "'commands' section of the " +:+ PROJECT_FILE +:+ ".")))))%M.

Definition substitute_project_variables (config : dict) (overrides : dict) : M dict :=
  (let config := dict_setdefault "vars" (VDict []) config in
   let config := dict_setdefault "env" (VDict []) config in
   env_section <- typed (match dict_get "env" config with
                         | Some (VDict e) => Some e
                         | _ => None
                         end) ;;
   resolved <- (fun w =>
      match mapM (fun kv => pair kv.1 <$> as_str kv.2) env_section with
      | Some pairs =>
          (Ok (map (fun kv => (kv.1, _parse_override (default "" (environ w !! kv.2))))
                   pairs), w)
      | None => (Raise "TypeError", w)
      end) ;;
   let config := dict_set "env" (VDict resolved) config in
   match interpolate_config config overrides with
   | Interpolated project => mret project
   | ConfigValidationError text =>
       (* show_validation_error: print the title and the error, exit *)
       print (PROJECT_FILE +:+ " validation error") ;; print text ;; sys_exit 1
   | InterpolationError =>
       (* console.print(..., exits=1): print takes no such keyword *)
       raise "TypeError"
   | InterpolationRaises exc => raise exc
   end)%M.

(** The statements of [load_project_config] after the manifest has been
    checked: the declared directories are created, and the variables are
    substituted unless the caller turns that off. *)
Definition load_after_checks (path : Path) (interpolate : bool) (overrides : dict)
    (config : dict) : M dict :=
  (subdirs <- typed (py_iter (default (VList []) (dict_get "directories" config))) ;;
   for_each subdirs (fun subdir =>
     subdir <- typed (as_str subdir) ;;
     let dir_path := joinpath path subdir in
     present <- lift (fun w => Ok (path_exists w dir_path)) ;;
     when (negb present) (mkdir_parents dir_path)) ;;
   if interpolate then substitute_project_variables config overrides
   else mret config)%M.

Definition load_project_config (path : Path) (interpolate : bool) (overrides : dict)
  : M dict :=
  (let config_path := joinpath path PROJECT_FILE in
   found <- lift (fun w => Ok (path_exists w config_path)) ;;
   when (negb found) (print ("Can't find " +:+ PROJECT_FILE)) ;;
   let invalid_err :=
     "Invalid " +:+ PROJECT_FILE +:+ ". Double-check that the YAML is correct." in
   read <- lift (fun w => Ok (read_yaml w config_path)) ;;
   config <- match read with
             | Ok v => mret v
             | Raise exc =>
                 if String.eqb exc "ValueError"
                 then (* the handler prints, and [config] stays unbound *)
                   print invalid_err ;; raise "UnboundLocalError"
                 else raise exc
             | Exit c => sys_exit c
             end ;;
   (* the schema is applied to the mapping: a [TypeError] when it is none *)
   config <- typed (match config with VDict d => Some d | _ => None end) ;;
   let errors := validate ProjectConfigSchema config in
   match errors with
   | _ :: _ => print invalid_err ;; print (String.concat nl errors) ;; sys_exit 1
   | [] =>
       validate_project_commands config ;;
       load_after_checks path interpolate overrides config
   end)%M.

Definition split_command (command : string) : M (list string) :=
  match shlex_split command with
  | Some parts => mret parts
  | None => raise "ValueError"
  end.

Definition join_command (command : list string) : string :=
  String.concat " " (map shlex_quote command).

Definition run_command (command : command_line) (capture : bool) : M (Z * option string) :=
  (cmd_list <- match command with
               | CmdStr c => split_command c
               | CmdList l => mret l
               end ;;
   emit (Spawn cmd_list) ;;
   ret <- lift (fun w => Ok (subprocess_run cmd_list (environ w) (cwd w) capture (fs w))) ;;
   match ret with
   | NotStarted exc => raise exc
   | Completed returncode stdout fs' =>
       set_fs fs' ;;
       if negb (returncode =? 0) && capture then raise "SubprocessError"
       else if negb (returncode =? 0) then sys_exit returncode
       else mret (returncode, stdout)
   end)%M.

Definition run_commands (commands : list string) (silent dry capture : bool) : M unit :=
  for_each commands (fun c =>
    (command <- split_command c ;;
     let command :=
       match command with
       | prog :: args =>
           if str_in prog ["python"; "python3"] then sys_executable :: args
           else if str_in prog ["pip"; "pip3"] then sys_executable :: "-m" :: "pip" :: args
           else command
       | [] => command
       end in
     when (negb silent) (print ("Running command: " +:+ join_command command)) ;;
     if negb dry then (run_command (CmdList command) capture ;; mret tt) else mret tt)%M).

(** [srsly.write_yaml(p, v)]: the file is opened for writing, for which
    the directory it is in has to exist. *)
Definition write_yaml (p : Path) (v : value) : M unit := fun w =>
  match (target <- locate w p ;;
         _ <- searchable (fs w) (parent target) ;; Ok target)%result with
  | Ok target =>
      match fs_find target (fs w) with
      | Some Dir => (Raise "IsADirectoryError", w)
      | _ => set_fs (fs_put target (File (yaml_dump v) (Some v)) (fs w)) w
      end
  | Exit c => (Exit c, w)
  | Raise e => (Raise e, w)
  end.

Definition update_lockfile (project_dir : Path) (command : ProjectConfigCommand) : M unit :=
  (let lock_path := joinpath project_dir PROJECT_LOCK in
   present <- lift (fun w => Ok (path_exists w lock_path)) ;;
   data <- (if negb present
            then write_yaml lock_path (VDict []) ;; mret (VDict [])
            else lift (fun w => read_yaml w lock_path)) ;;
   entry <- lift (fun w => get_lock_entry w project_dir command) ;;
   data <- typed (match data with
                  | VDict d => Some (VDict (dict_set (name command) entry d))
                  | _ => None
                  end) ;;
   write_yaml lock_path data)%M.

Definition validate_subcommand (commands workflows : list string) (subcommand : string)
  : M unit :=
  (when (match commands, workflows with [], [] => true | _, _ => false end)
     (fail_exit ("No commands or workflows defined in " +:+ PROJECT_FILE)) ;;
   when (negb (str_in subcommand commands) && negb (str_in subcommand workflows))
     (let help_msg :=
        (if str_in subcommand ["assets"; "asset"]
         then ["Did you mean to run: python -m spacy project assets?"] else [])
        ++ (match commands with
            | [] => []
            | _ => ["Available commands: " +:+ String.concat ", " commands]
            end)
        ++ (match workflows with
            | [] => []
            | _ => ["Available workflows: " +:+ String.concat ", " workflows]
            end) in
      print ("Can't find command or workflow '" +:+ subcommand +:+ "' in " +:+ PROJECT_FILE) ;;
      fail_exit (String.concat ". " help_msg)))%M.

(** The loop of [_check_requirements]: the reports of the missing and
    of the conflicting packages. *)
Fixpoint require_all (requirements : list string) (failed conflicting : list string)
  : M (list string * list string) :=
  match requirements with
  | [] => mret (failed, conflicting)
  | req :: rest =>
      match pkg_require req with
      | Satisfied => require_all rest failed conflicting
      | DistributionNotFound report => require_all rest (failed ++ [report]) conflicting
      | VersionConflict report => require_all rest failed (conflicting ++ [report])
      | RequireRaises exc => raise exc
      end
  end.

Definition _check_requirements (requirements : list string) : M (bool * bool) :=
  (msgs <- require_all requirements [] [] ;;
   let failed_pkgs_msgs := msgs.1 in
   let conflicting_pkgs_msgs := msgs.2 in
   when (match failed_pkgs_msgs ++ conflicting_pkgs_msgs with [] => false | _ => true end)
     (print ("Missing requirements or requirement conflicts detected. Make sure your "
             +:+ "Python environment is set up correctly and you installed all "
             +:+ "requirements specified in your project's requirements.txt: ") ;;
      for_each (failed_pkgs_msgs ++ conflicting_pkgs_msgs) print) ;;
   mret (match failed_pkgs_msgs with [] => false | _ => true end,
         match conflicting_pkgs_msgs with [] => false | _ => true end))%M.

(** The commands of a config under their names: a later command
    replaces an earlier one of the same name. *)
Definition commands_by_name (commands : list ProjectConfigCommand)
  : list (string * ProjectConfigCommand) :=
  dict_update [] (map (fun cmd => (name cmd, cmd)) commands).

(** The statements of [project_run] before it branches on the kind of
    [subcommand]: the manifest is loaded, the name is checked and the
    requirements are looked at.  Yields the commands by name and the
    workflows. *)
Definition project_run_setup (project_dir : Path) (subcommand : string) (overrides : dict)
  : M (list (string * ProjectConfigCommand) * list (string * list string)) :=
  (config <- load_project_config project_dir true overrides ;;
   command_list <- typed (config_commands config) ;;
   let commands := commands_by_name command_list in
   workflows <- workflows_of config ;;
   validate_subcommand (dict_keys commands) (dict_keys workflows) subcommand ;;
   let req_path := joinpath project_dir "requirements.txt" in
   req_found <- lift (fun w => Ok (path_exists w req_path)) ;;
   when (truthy (default (VBool true) (dict_get "check_requirements" config)) && req_found)
     (requirements_file <- lift (fun w => read_bytes w req_path) ;;
      _check_requirements (map (replace nl "") (file_lines requirements_file)) ;;
      mret tt) ;;
   mret (commands, workflows))%M.

(** The branch of [project_run] for a single command. *)
Definition run_single (project_dir : Path) (subcommand : string)
    (cmd : ProjectConfigCommand) (force dry capture : bool) : M unit :=
  (for_each (default [] (deps cmd)) (fun dep =>
     present <- lift (fun w => Ok (path_exists w (joinpath project_dir dep))) ;;
     when (negb present)
       (print ("Missing dependency specified by command '" +:+ subcommand +:+ "': "
               +:+ dep) ;;
        print "Maybe you forgot to run the 'project assets' command or a previous step?" ;;
        if negb dry then sys_exit 1 else mret tt)) ;;
   working_dir project_dir (fun current_dir =>
     print subcommand ;;
     rerun <- lift (fun w => check_rerun w current_dir cmd) ;;
     if negb rerun && negb force
     then print ("Skipping '" +:+ name cmd +:+ "': nothing changed")
     else
       script_lines <- (match script cmd with
                        | Some lines => mret lines
                        | None => raise "KeyError"
                        end) ;;
       run_commands script_lines false dry capture ;;
       if negb dry then update_lockfile current_dir cmd else mret tt))%M.

(** [load_project_config] when Python's stack runs out while the
    manifest is read: [srsly.read_yaml] reports every failure as a
    [ValueError], so the load prints that the manifest is invalid and
    goes on to use [config], which was never bound. *)
Definition load_out_of_stack (path : Path) : M dict :=
  (let config_path := joinpath path PROJECT_FILE in
   found <- lift (fun w => Ok (path_exists w config_path)) ;;
   when (negb found) (print ("Can't find " +:+ PROJECT_FILE)) ;;
   print ("Invalid " +:+ PROJECT_FILE +:+ ". Double-check that the YAML is correct.") ;;
   raise "UnboundLocalError")%M.

(** [project_run]; [depth] is the room left on Python's call stack for
    runs of [project_run] inside one another.  The deepest calls of a
    run are those of the YAML parser, so the run without room left is
    the one whose load runs out of stack. *)
Fixpoint project_run (depth : nat) (project_dir : Path) (subcommand : string)
    (overrides : dict) (force dry capture : bool) : M unit :=
  match depth with
  | O => (load_out_of_stack project_dir ;; mret tt)%M
  | S depth' =>
    (setup <- project_run_setup project_dir subcommand overrides ;;
     let commands := setup.1 in
     let workflows := setup.2 in
     match dict_get subcommand workflows with
     | Some steps =>
         print ("Running workflow '" +:+ subcommand +:+ "'") ;;
         for_each steps (fun cmd =>
           project_run depth' project_dir cmd overrides force dry capture)
     | None =>
         cmd <- (match dict_get subcommand commands with
                 | Some cmd => mret cmd
                 | None => raise "KeyError"
                 end) ;;
         run_single project_dir subcommand cmd force dry capture
     end)%M
  end.
End Engine.

(** ** Reference implementations of the library functions *)

(** MD5 as RFC 1321 defines it, on 32-bit words kept in [Z]. *)
Module MD5.
Definition w32 (x : Z) : Z := x mod 2 ^ 32.

Definition rotl (x c : Z) : Z :=
  w32 (Z.lor (Z.shiftl x c) (Z.shiftr x (32 - c))).

Definition shifts : list Z :=
  [7; 12; 17; 22; 7; 12; 17; 22; 7; 12; 17; 22; 7; 12; 17; 22;
   5; 9; 14; 20; 5; 9; 14; 20; 5; 9; 14; 20; 5; 9; 14; 20;
   4; 11; 16; 23; 4; 11; 16; 23; 4; 11; 16; 23; 4; 11; 16; 23;
   6; 10; 15; 21; 6; 10; 15; 21; 6; 10; 15; 21; 6; 10; 15; 21].

Definition sines : list Z :=
  [0xd76aa478; 0xe8c7b756; 0x242070db; 0xc1bdceee;
   0xf57c0faf; 0x4787c62a; 0xa8304613; 0xfd469501;
   0x698098d8; 0x8b44f7af; 0xffff5bb1; 0x895cd7be;
   0x6b901122; 0xfd987193; 0xa679438e; 0x49b40821;
   0xf61e2562; 0xc040b340; 0x265e5a51; 0xe9b6c7aa;
   0xd62f105d; 0x02441453; 0xd8a1e681; 0xe7d3fbc8;
   0x21e1cde6; 0xc33707d6; 0xf4d50d87; 0x455a14ed;
   0xa9e3e905; 0xfcefa3f8; 0x676f02d9; 0x8d2a4c8a;
   0xfffa3942; 0x8771f681; 0x6d9d6122; 0xfde5380c;
   0xa4beea44; 0x4bdecfa9; 0xf6bb4b60; 0xbebfbc70;
   0x289b7ec6; 0xeaa127fa; 0xd4ef3085; 0x04881d05;
   0xd9d4d039; 0xe6db99e5; 0x1fa27cf8; 0xc4ac5665;
   0xf4292244; 0x432aff97; 0xab9423a7; 0xfc93a039;
   0x655b59c3; 0x8f0ccc92; 0xffeff47d; 0x85845dd1;
   0x6fa87e4f; 0xfe2ce6e0; 0xa3014314; 0x4e0811a1;
   0xf7537e82; 0xbd3af235; 0x2ad7d2bb; 0xeb86d391].

(** [n] bytes of [x], least significant first. *)
Fixpoint le_bytes (n : nat) (x : Z) : list Z :=
  match n with
  | O => []
  | S n' => x mod 256 :: le_bytes n' (x / 256)
  end.

Fixpoint le_word (bs : list Z) : Z :=
  match bs with
  | [] => 0
  | b :: bs' => b + 256 * le_word bs'
  end.

Definition pad (msg : list byte) : list Z :=
  let len := Z.of_nat (length msg) in
  map (fun b => Z.of_N (Byte.to_N b)) msg ++ [0x80]
    ++ repeat 0 (Z.to_nat ((55 - len) mod 64))
    ++ le_bytes 8 ((8 * len) mod 2 ^ 64).

Fixpoint chunks (fuel size : nat) (l : list Z) : list (list Z) :=
  match fuel, l with
  | O, _ | _, [] => []
  | S fuel', _ => firstn size l :: chunks fuel' size (skipn size l)
  end.

Definition state : Type := Z * Z * Z * Z.

Definition round (M : list Z) (st : state) (i : nat) : state :=
  let '(a, b, c, d) := st in
  let iz := Z.of_nat i in
  let nb := Z.lxor b 0xffffffff in
  let nd := Z.lxor d 0xffffffff in
  let '(f, g) :=
    match (i / 16)%nat with
    | 0%nat => (Z.lor (Z.land b c) (Z.land nb d), iz)
    | 1%nat => (Z.lor (Z.land d b) (Z.land nd c), (5 * iz + 1) mod 16)
    | 2%nat => (Z.lxor (Z.lxor b c) d, (3 * iz + 5) mod 16)
    | _ => (Z.lxor c (Z.lor b nd), (7 * iz) mod 16)
    end in
  let F := w32 (f + a + nth i sines 0 + nth (Z.to_nat g) M 0) in
  (d, w32 (b + rotl F (nth i shifts 0)), b, c).

Definition block (st : state) (bytes : list Z) : state :=
  let M := map le_word (chunks 16 4 bytes) in
  let '(a0, b0, c0, d0) := st in
  let '(a, b, c, d) := fold_left (round M) (seq 0 64) st in
  (w32 (a0 + a), w32 (b0 + b), w32 (c0 + c), w32 (d0 + d)).

Definition init : state := (0x67452301, 0xefcdab89, 0x98badcfe, 0x10325476).

Definition digest (msg : list byte) : list Z :=
  let padded := pad msg in
  let '(a, b, c, d) := fold_left block (chunks (length padded) 64 padded) init in
  le_bytes 4 a ++ le_bytes 4 b ++ le_bytes 4 c ++ le_bytes 4 d.

Definition hex_digit (n : Z) : ascii :=
  if n <? 10 then ascii_of_nat (48 + Z.to_nat n) else ascii_of_nat (87 + Z.to_nat n).

Fixpoint hex (bs : list Z) : string :=
  match bs with
  | [] => EmptyString
  | b :: bs' => String (hex_digit (b / 16)) (String (hex_digit (b mod 16)) (hex bs'))
  end.

(** [hashlib.md5(msg).hexdigest()] *)
Definition hexdigest (msg : list byte) : string := hex (digest msg).
End MD5.

(** Python's compact JSON encoder with sorted keys, which
    [srsly.json_dumps] calls when [sort_keys] is set. *)
Module Json.
Fixpoint hex_digits (n : nat) (x : Z) : string :=
  match n with
  | O => EmptyString
  | S n' => hex_digits n' (x / 16) +:+ String (MD5.hex_digit (x mod 16)) EmptyString
  end.

Definition dquote : string := String (ascii_of_nat 34) EmptyString.
Definition backslash : string := String (ascii_of_nat 92) EmptyString.

Definition u_escape (cp : Z) : string := backslash +:+ "u" +:+ hex_digits 4 cp.

(** One code point inside a JSON string, with [ensure_ascii]. *)
Definition escape (cp : Z) : string :=
  if cp =? 34 then backslash +:+ dquote
  else if cp =? 92 then backslash +:+ backslash
  else if cp =? 10 then backslash +:+ "n"
  else if cp =? 13 then backslash +:+ "r"
  else if cp =? 9 then backslash +:+ "t"
  else if cp =? 8 then backslash +:+ "b"
  else if cp =? 12 then backslash +:+ "f"
  else if (32 <=? cp) && (cp <=? 126) then String (ascii_of_nat (Z.to_nat cp)) EmptyString
  else if cp <? 0x10000 then u_escape cp
  else u_escape (0xd800 + (cp - 0x10000) / 0x400)
       +:+ u_escape (0xdc00 + (cp - 0x10000) mod 0x400).

(** The code points of UTF-8 text. *)
Fixpoint code_points (fuel : nat) (bs : list Z) : list Z :=
  match fuel with
  | O => []
  | S fuel' =>
      match bs with
      | [] => []
      | b :: rest =>
          if b <? 0xc0 then b :: code_points fuel' rest
          else if b <? 0xe0 then
            match rest with
            | b1 :: rest' => ((b mod 32) * 64 + b1 mod 64) :: code_points fuel' rest'
            | _ => [b]
            end
          else if b <? 0xf0 then
            match rest with
            | b1 :: b2 :: rest' =>
                ((b mod 16) * 4096 + (b1 mod 64) * 64 + b2 mod 64) :: code_points fuel' rest'
            | _ => [b]
            end
          else
            match rest with
            | b1 :: b2 :: b3 :: rest' =>
                ((b mod 8) * 262144 + (b1 mod 64) * 4096 + (b2 mod 64) * 64 + b3 mod 64)
                  :: code_points fuel' rest'
            | _ => [b]
            end
      end
  end.

Definition quote (s : string) : string :=
  let bs := map (fun b => Z.of_N (Byte.to_N b)) (list_byte_of_string s) in
  dquote +:+ String.concat "" (map escape (code_points (length bs) bs)) +:+ dquote.

Definition key_le (a b : string * string) : Prop := str_le a.1 b.1.

#[global] Instance key_le_dec : RelDecision key_le.
Proof. intros a b. unfold key_le. apply _. Defined.

(** [json.dumps(v, separators=(",", ":"), sort_keys=True)] *)
Fixpoint dumps (v : value) : string :=
  match v with
  | VNull => "null"
  | VBool true => "true"
  | VBool false => "false"
  | VInt z => pretty z
  | VFloat r =>
      if String.eqb r "nan" then "NaN"
      else if String.eqb r "inf" then "Infinity"
      else if String.eqb r "-inf" then "-Infinity"
      else r
  | VStr s => quote s
  | VList l => "[" +:+ String.concat "," (map dumps l) +:+ "]"
  | VDict d =>
      "{" +:+ String.concat ","
                (map (fun kv => quote kv.1 +:+ ":" +:+ kv.2)
                     (merge_sort key_le (map (fun kv => (kv.1, dumps kv.2)) d)))
      +:+ "}"
  end.
End Json.

#[global] Instance reference_digest : Digest := {|
  md5_hexdigest := MD5.hexdigest;
  json_dumps := Json.dumps
|}.

(** A small stand-in for the interpreter and the operating system, to
    run the engine on concrete projects: words are split at blanks, the
    JSON decoder knows [true], [false], [null] and the digits, the manifest
    has no placeholders, and the shell knows [true], [false] and [touch]. *)
Module Demo.
Definition words (s : string) : list string :=
  List.filter (fun part => negb (String.eqb part "")) (split_on " " s).

Definition is_digit (c : ascii) : bool :=
  let n := nat_of_ascii c in ((48 <=? n) && (n <=? 57))%nat.

Definition digits_value (s : string) : Z :=
  fold_left (fun acc c => 10 * acc + Z.of_nat (nat_of_ascii c - 48))
            (list_ascii_of_string s) 0.

Definition scalar_loads (s : string) : option value :=
  if String.eqb s "true" then Some (VBool true)
  else if String.eqb s "false" then Some (VBool false)
  else if String.eqb s "null" then Some VNull
  else match s with
       | EmptyString => None
       | _ => if forallb is_digit (list_ascii_of_string s)
              then Some (VInt (digits_value s)) else None
       end.

Definition shell (argv : list string) (env : gmap string string) (dir : Path)
    (capture : bool) (disk : filesystem) : completed :=
  let out := if capture then Some "" else None in
  match argv with
  | ["true"] => Completed 0 out disk
  | ["false"] => Completed 1 out disk
  | ["touch"; file] =>
      let target := resolve dir (Path_of file) in
      match fs_find target disk with
      | Some _ => Completed 0 out disk
      | None => Completed 0 out (disk ++ [(target, File [] None)])
      end
  | _ => NotStarted "FileNotFoundError"
  end.

#[global] Instance parsers : Parsers := {|
  json_loads := scalar_loads;
  split_arg_string := words
|}.

#[global] Instance runtime : Runtime := {|
  shlex_split := fun s => Some (words s);
  shlex_quote := fun s => s;
  sys_executable := "/usr/bin/python3";
  yaml_dump := fun v => list_byte_of_string (Json.dumps v);
  interpolate_config := fun config _ => Interpolated config;
  subprocess_run := shell;
  pkg_require := fun _ => Satisfied;
  set_order := remove_dups;
  set_order_distinct := fun l => Permutation_refl (remove_dups l)
|}.
End Demo.

(** ** Notions the properties are stated with *)

(** The bytes of the regular file at [p]. *)
Definition file_data (w : world) (p : Path) : list byte :=
  match stat w p with
  | Some (File data _) => data
  | _ => []
  end.

(** The regular files below the directory [p], in the order
    [get_checksum] visits them. *)
Definition visited (w : world) (p : Path) : list Path :=
  merge_sort path_le (List.filter (is_file w) (rglob w p)).

(** The bytes [get_checksum] feeds to MD5 for the directory [p]. *)
Definition checksum_input (w : world) (p : Path) : list byte :=
  concat (map (file_data w) (visited w p)).

(** The same process state over another disk. *)
Definition with_fs (w : world) (disk : filesystem) : world :=
  World disk (cwd w) (environ w) (trace w).

Definition fs_remove (p : Path) (disk : filesystem) : filesystem :=
  List.filter (fun e => negb (bool_decide (e.1 = p))) disk.

Definition no_dotdot (p : Path) : Prop := Forall (fun part => part <> "..") p.

(** A disk lists every path once, absolute and without [".."] parts. *)
Definition normal (p : Path) : Prop := is_absolute p = true /\ collapse [] p = p.

Definition wf_fs (disk : filesystem) : Prop :=
  NoDup (map fst disk) /\ Forall (fun e => normal e.1) disk.

#[global] Instance normal_dec p : Decision (normal p).
Proof. unfold normal. apply _. Defined.

#[global] Instance wf_fs_dec disk : Decision (wf_fs disk).
Proof. unfold wf_fs. apply _. Defined.

(** [v[k]] for a value that is a mapping. *)
Definition field (k : string) (v : value) : option value :=
  match v with
  | VDict d => dict_get k d
  | _ => None
  end.

Section CacheNotions.
Context `{Digest}.

(** The digest recorded for [p]: [null] for a path that does not exist. *)
Definition checksum_of (w : world) (p : Path) : value :=
  if path_exists w p
  then VStr (md5_hexdigest (if is_file w p then file_data w p else checksum_input w p))
  else VNull.

(** The [{path, md5}] pair recorded for one declared path. *)
Definition fileinfo_of (w : world) (project_dir : Path) (path : string) : value :=
  VDict [("path", VStr path); ("md5", checksum_of w (joinpath project_dir path))].
End CacheNotions.

(** The digest of the canonical encoding of a value: its JSON text
    with the keys of every mapping in sorted order, hashed with MD5. *)
Definition canonical_digest `{Digest} (v : value) : string :=
  md5_hexdigest (list_byte_of_string (json_dumps v)).

(** A path [get_checksum] can digest or find absent: no socket, device
    or other special file. *)
Definition hashable (w : world) (project_dir : Path) (path : string) : Prop :=
  stat w (joinpath project_dir path) <> Some Special.

(** ** Example projects *)

Definition bytes (s : string) : list byte := list_byte_of_string s.

Definition proj : Path := ["/"; "proj"].

(** A project with a data directory of three files, one of them empty. *)
Definition data_world : world :=
  World [ (["/"], Dir);
          (["/"; "proj"], Dir);
          (["/"; "proj"; "data"], Dir);
          (["/"; "proj"; "data"; "b.txt"], File (bytes "world") None);
          (["/"; "proj"; "data"; "empty"], File [] None);
          (["/"; "proj"; "data"; "a.txt"], File (bytes "hello ") None) ]
        ["/"; "proj"] ∅ [].

(** The same disk listed in another order. *)
Definition data_world_reordered : world :=
  with_fs data_world (rev (fs data_world)).

(** The same project after [data/empty] is deleted. *)
Definition data_world_less : world :=
  with_fs data_world (fs_remove ["/"; "proj"; "data"; "empty"] (fs data_world)).

Definition build_cmd : ProjectConfigCommand :=
  Command "build" None (Some ["touch out.txt"]) (Some ["data"; "missing.txt"])
          (Some ["out.txt"]) None None.

(** A command that declares no [outputs] but one output that is not
    cached. *)
Definition report_cmd : ProjectConfigCommand :=
  Command "report" None (Some ["true"]) None (Some []) (Some ["log.txt"]) None.

(** A command without outputs of either kind. *)
Definition check_cmd : ProjectConfigCommand :=
  Command "check" None (Some ["true"]) (Some ["data"]) None None None.

(** A process whose override variable sets [vars.x]. *)
Definition override_world : world :=
  World [(["/"], Dir)] ["/"] {[ CONFIG_OVERRIDES := "--vars.x=2" ]} [].

(** The fields the two schemas declare. *)
Definition command_fields : list string := map Pydantic.field_name ProjectConfigCommand_fields.
Definition top_level_fields : list string := map Pydantic.field_name ProjectConfigSchema_fields.

(** [BASE_CONTENT] of [app.py], the manifest [init] writes. *)
Definition BASE_CONTENT : dict :=
  [ ("title", VStr "project-demo");
    ("description", VStr "describe project details");
    ("vars", VDict [("name", VStr "demo")]);
    ("check_requirements", VBool false);
    ("assets", VList [VDict [("dest", VStr "assets/demo.txt");
                             ("url", VStr "https://demo.com");
                             ("description", VStr "demo description")]]);
    ("directories", VList [VStr "assets"]);
    ("workflows", VDict [("all", VList [VStr "command1"; VStr "command2"])]);
    ("commands", VList [VDict [("name", VStr "command1");
                               ("help", VStr "command1 help");
                               ("script", VList [VStr "python **"])];
                        VDict [("name", VStr "command2");
                               ("help", VStr "command2 help");
                               ("script", VList [VStr "python **"])]]) ].

(** A YAML file holding the document [v]. *)
Definition yaml_file (v : value) : node :=
  File (list_byte_of_string (Json.dumps v)) (Some v).

(** A project directory that holds only the manifest [config]. *)
Definition project_world (config : dict) : world :=
  World [ (["/"], Dir);
          (["/"; "proj"], Dir);
          (["/"; "proj"; "project.yml"], yaml_file (VDict config)) ]
        ["/"; "proj"] ∅ [].

(** [BASE_CONTENT] with a field [timeout] added to its first command. *)
Definition timeout_manifest : dict :=
  dict_set "commands"
    (VList [VDict [("name", VStr "command1"); ("timeout", VInt 5)];
            VDict [("name", VStr "command2")]])
    BASE_CONTENT.

(** The world after the lines [messages] are printed. *)
Definition add_prints (messages : list string) (w : world) : world :=
  World (fs w) (cwd w) (environ w) (trace w ++ map Print messages).

(** A manifest has a semantic error when two commands share a name, a
    workflow is named like a command, or a step of a workflow names no
    command. *)
Definition semantic_error (commands : list ProjectConfigCommand)
    (workflows : list (string * list string)) : Prop :=
  ~ NoDup (map name commands)
  \/ exists wf, In wf workflows
       /\ (In wf.1 (map name commands)
           \/ exists step, In step wf.2 /\ ~ In step (map name commands)).

(** What [validate_project_commands] prints about a manifest. *)
Definition workflow_reports (command_names : list string) (wf : string * list string)
  : list string :=
  (if str_in wf.1 command_names
   then ["Can't use workflow name '" +:+ wf.1 +:+ "': name already exists as a command"]
   else [])
  ++ concat (map (fun step =>
                    if negb (str_in step command_names)
                    then ["Unknown command specified in workflow '" +:+ wf.1 +:+ "': "
                          +:+ step +:+ " Workflows can only refer to commands defined in the "
                          +:+ "'commands' section of the " +:+ PROJECT_FILE +:+ "."]
                    else [])
                 wf.2).

Definition semantic_reports `{Runtime} (commands : list ProjectConfigCommand)
    (workflows : list (string * list string)) : list string :=
  let command_names := map name commands in
  match set_order (List.filter (fun cmd => (1 <? count_str cmd command_names)%nat)
                               command_names) with
  | [] => []
  | duplicates =>
      ["Duplicate commands defined in " +:+ PROJECT_FILE +:+ ": "
       +:+ String.concat ", " duplicates]
  end
  ++ concat (map (workflow_reports command_names) workflows).

(** A manifest with two commands [build] and a workflow whose second
    step names no command. *)
Definition faulty_manifest : dict :=
  [ ("commands", VList [VDict [("name", VStr "build"); ("script", VList [VStr "false"])];
                        VDict [("name", VStr "build");
                               ("script", VList [VStr "touch out.txt"])]]);
    ("workflows", VDict [("all", VList [VStr "build"; VStr "deploy"])]);
    ("check_requirements", VBool false) ].

(** A manifest with commands [A], which fails, and [B], and the
    workflow [W] of the two. *)
Definition ab_manifest : dict :=
  [ ("commands", VList [VDict [("name", VStr "A"); ("script", VList [VStr "false"])];
                        VDict [("name", VStr "B");
                               ("script", VList [VStr "touch b.txt"])]]);
    ("workflows", VDict [("W", VList [VStr "A"; VStr "B"])]) ].

(** The child processes started so far, oldest first. *)
Definition spawned (w : world) : list (list string) :=
  omap (fun e => match e with Spawn argv => Some argv | Print _ => None end) (trace w).

(** A computation that never changes the working directory, and one
    that has put it back whenever it does not end in an exception, and
    also when it does, if the directory it started from is still there. *)
Definition keeps_cwd {A} (m : M A) : Prop :=
  forall w r w', m w = (r, w') -> cwd w' = cwd w.

Definition restores_cwd {A} (m : M A) : Prop :=
  forall w r w', normal (cwd w) -> m w = (r, w') ->
                 (forall e, r <> Raise e) \/ fs_find (cwd w) (fs w') = Some Dir ->
                 cwd w' = cwd w.

(** [data_world] seen from its data directory, and the disk once that
    directory is removed. *)
Definition inside_data_world : world :=
  World (fs data_world) ["/"; "proj"; "data"] ∅ [].

Definition disk_without_data : filesystem :=
  [ (["/"], Dir); (["/"; "proj"], Dir) ].

(** The example of the specification: [build] reads [src.txt] and
    writes [out.txt]. *)
Definition build_manifest : dict :=
  [ ("commands", VList [VDict [("name", VStr "build");
                               ("script", VList [VStr "touch out.txt"]);
                               ("deps", VList [VStr "src.txt"]);
                               ("outputs", VList [VStr "out.txt"])]]);
    ("check_requirements", VBool false) ].

Definition build_world : world :=
  with_fs (project_world build_manifest)
          (fs (project_world build_manifest)
           ++ [(["/"; "proj"; "src.txt"], File (bytes "v1") None)]).

(** [project run build] from the project directory. *)
Definition run_build (w : world) : world :=
  (project_run 2 proj "build" [] false false false w).2.

(** The world after [src.txt] is edited. *)
Definition edit_src (w : world) : world :=
  with_fs w (fs_put ["/"; "proj"; "src.txt"] (File (bytes "v2") None) (fs w)).

(** ** Notions for the effects of a run *)

(** [disk'] is [disk] with directories added at its end: no entry of
    [disk] is changed or removed, and no file is added. *)
Definition adds_directories (disk disk' : filesystem) : Prop :=
  exists dirs : list Path, disk' = disk ++ map (fun p => (p, Dir)) dirs.

(** Any change of the disk. *)
Definition any_change (disk disk' : filesystem) : Prop := True.

(** A computation that leaves the environment alone, changes the disk
    only along [D] and starts only child processes whose argument list
    satisfies [P]. *)
Definition confined {A} (D : relation filesystem) (P : list string -> Prop) (m : M A)
  : Prop :=
  forall w r w', m w = (r, w') ->
    environ w' = environ w
    /\ D (fs w) (fs w')
    /\ exists started, spawned w' = spawned w ++ started /\ Forall P started.

(** The program names [run_commands] replaces by the running
    interpreter. *)
Definition interpreter_aliases : list string := ["python"; "python3"; "pip"; "pip3"].

(** An argument list whose program is none of the aliases. *)
Definition no_alias (argv : list string) : Prop :=
  forall prog, head argv = Some prog -> ~ In prog interpreter_aliases.

(** No child process at all. *)
Definition no_child (argv : list string) : Prop := False.

(** The argument list [run_commands] starts for the split script line
    [command]: the running interpreter in the place of [python] and
    [pip]. *)
Definition aliased `{Runtime} (command : list string) : list string :=
  match command with
  | prog :: args =>
      if str_in prog ["python"; "python3"] then sys_executable :: args
      else if str_in prog ["pip"; "pip3"] then sys_executable :: "-m" :: "pip" :: args
      else command
  | [] => command
  end.

(** An argument list [run_commands] starts: what a script line splits
    into, with the running interpreter in the place of an alias. *)
Definition started_for_a_line `{Runtime} (argv : list string) : Prop :=
  exists line parts, shlex_split line = Some parts /\ argv = aliased parts.

(** The reports [_check_requirements] collects: of the packages that
    are not installed, and of those installed in a conflicting version. *)
Definition missing_reports `{Runtime} (requirements : list string) : list string :=
  omap (fun req => match pkg_require req with
                   | DistributionNotFound report => Some report
                   | _ => None
                   end) requirements.

Definition conflict_reports `{Runtime} (requirements : list string) : list string :=
  omap (fun req => match pkg_require req with
                   | VersionConflict report => Some report
                   | _ => None
                   end) requirements.

(** The title of the warning [_check_requirements] gives. *)
Definition requirements_warning : string :=
  "Missing requirements or requirement conflicts detected. Make sure your "
  +:+ "Python environment is set up correctly and you installed all "
  +:+ "requirements specified in your project's requirements.txt: ".

(** A manifest whose workflow [W] names itself as its only step. *)
Definition loop_manifest : dict :=
  [ ("commands", VList [VDict [("name", VStr "A"); ("script", VList [VStr "true"])]]);
    ("workflows", VDict [("W", VList [VStr "W"])]) ].

(** A command the schema accepts, with no [script]. *)
Definition bare_cmd : ProjectConfigCommand :=
  Command "bare" None None None (Some ["out.txt"]) None None.

(** [data_world] with a lockfile that holds the document [lock]. *)
Definition locked_world (lock : value) : world :=
  with_fs data_world
          (fs data_world ++ [(["/"; "proj"; "project.lock"], yaml_file lock)]).

(** The entry of a command [bare] with one output, as an earlier run
    stored it. *)
Definition bare_entry : value :=
  VDict [("cmd", VStr "project run bare");
         ("script", VList [VStr "true"]);
         ("deps", VList []);
         ("outs", VList [VDict [("path", VStr "out.txt"); ("md5", VNull)]])].

(** [data_world] with a socket in the project directory. *)
Definition socket_world : world :=
  with_fs data_world (fs data_world ++ [(["/"; "proj"; "run.sock"], Special)]).

(** A manifest whose second declared directory leads, through the
    first, to the manifest itself. *)
Definition through_manifest : dict :=
  [ ("directories", VList [VStr "made"; VStr "made/../project.yml"]) ].

(** A platform on which [spacy] is not installed and [numpy] is
    installed in a version the requirement excludes. *)
Definition partial_runtime : Runtime := {|
  shlex_split := fun s => Some (Demo.words s);
  shlex_quote := fun s => s;
  sys_executable := "/usr/bin/python3";
  yaml_dump := fun v => list_byte_of_string (Json.dumps v);
  interpolate_config := fun config _ => Interpolated config;
  subprocess_run := Demo.shell;
  pkg_require := fun req =>
    if String.eqb req "spacy" then DistributionNotFound "spacy is not installed"
    else if String.eqb req "numpy<2" then VersionConflict "numpy 2.1 is installed"
    else Satisfied;
  set_order := remove_dups;
  set_order_distinct := fun l => Permutation_refl (remove_dups l)
|}.

(** Every path a command declares: dependencies and outputs of both
    kinds. *)
Definition declared_paths (c : ProjectConfigCommand) : list string :=
  default [] (deps c) ++ default [] (outputs c) ++ default [] (outputs_no_cache c).

(** The path [p] is neither the file [other] nor a directory that
    contains it. *)
Definition apart_from (w : world) (other p : Path) : Prop :=
  resolve (cwd w) p <> resolve (cwd w) other
  /\ below (resolve (cwd w) p) (resolve (cwd w) other) = false.

#[global] Instance apart_from_dec w other p : Decision (apart_from w other p).
Proof. unfold apart_from. apply _. Defined.

(** A command whose dependency is the project directory itself. *)
Definition whole_cmd : ProjectConfigCommand :=
  Command "whole" None (Some ["touch out.txt"]) (Some ["."]) (Some ["out.txt"]) None None.

(** The messages of the errors reported at [location], in the order
    pydantic lists them. *)
Definition messages_at (location : string) (errors : list error) : list string :=
  map snd (List.filter (fun e => String.eqb (String.concat " -> " e.1) location) errors).

(** A manifest whose second command has no name. *)
Definition nameless_manifest : dict :=
  [ ("commands", VList [VDict [("name", VStr "build"); ("script", VList [VStr "true"])];
                        VDict [("script", VList [VStr "true"])]]) ].

(** What pydantic says of the name of a command that has none, or none
    that is text. *)
Definition name_error (cmd : dict) : string :=
  match dict_get "name" cmd with
  | None => "field required"
  | Some VNull => "none is not an allowed value"
  | Some _ => "str type expected"
  end.

(** A command mapping whose [no_skip] is the text [no]. *)
Definition no_skip_no : dict :=
  [ ("name", VStr "build"); ("script", VList [VStr "true"]);
    ("outputs", VList [VStr "out.txt"]); ("no_skip", VStr "no") ].

(** [init_project] of [app.py]: [srsly.write_yaml(path, BASE_CONTENT)]
    for a path given as text.  The text ["-"] stands for the standard
    output. *)
Definition init_project `{Runtime} (path : string) : M unit := fun w =>
  if String.eqb path "-"
  then print (string_of_list_byte (yaml_dump (VDict BASE_CONTENT))) w
  else write_yaml (Path_of path) (VDict BASE_CONTENT) w.

(** A project whose manifest declares the directories [assets] and
    [out/logs]. *)
Definition dirs_manifest : dict :=
  [ ("directories", VList [VStr "assets"; VStr "out/logs"]);
    ("commands", VList [VDict [("name", VStr "build"); ("script", VList [VStr "true"])]]) ].

(** The loop of [load_project_config] over the declared directories. *)
Definition make_directories (path : Path) (subdirs : list value) : M unit :=
  for_each subdirs (fun subdir =>
    (subdir <- typed (as_str subdir) ;;
     let dir_path := joinpath path subdir in
     present <- lift (fun w => Ok (path_exists w dir_path)) ;;
     when (negb present) (mkdir_parents dir_path))%M).

(** ** The help listing and the [run] command ([app.py]) *)

(** What the listing takes from [rich]. *)
Class Console : Type := {
  (** what [console.print(table)] writes for a table with this title,
      these column headers and these rows; a cell given as [None] is
      empty *)
  render_table : option string -> list string -> list (list (option string)) -> string
}.

(** [config.get("commands", [])] as the mappings the manifest gives. *)
Definition raw_commands (config : dict) : option (list dict) :=
  match dict_get "commands" config with
  | None => Some []
  | Some (VList l) => mapM (fun v => match v with VDict d => Some d | _ => None end) l
  | Some _ => None
  end.

(** [d[k]] *)
Definition item (k : string) (d : dict) : M value :=
  match dict_get k d with
  | Some v => mret v
  | None => raise "KeyError"
  end.

(** [cmd["name"]], at its validated type. *)
Definition command_name (cmd : dict) : M string :=
  (v <- item "name" cmd ;; typed (as_str v))%M.

(** A value given to [Table.add_row]: text, or nothing. *)
Definition cell (v : value) : M (option string) :=
  match v with
  | VStr s => mret (Some s)
  | VNull => mret None
  | _ => raise "NotRenderableError"
  end.

(** [[f x for x in l]] for an [f] that may fail. *)
Fixpoint collect {A B} (f : A -> M B) (l : list A) : M (list B) :=
  match l with
  | [] => mret []
  | x :: l' => (y <- f x ;; ys <- collect f l' ;; mret (y :: ys))%M
  end.

Section Help.
Context `{Digest} `{Parsers} `{Runtime} `{Console}.

(** The branch of [print_run_help] for a subcommand. *)
Definition help_on (commands : list (string * dict)) (workflows : list (string * list string))
    (subcommand : string) : M unit :=
  (validate_subcommand (dict_keys commands) (dict_keys workflows) subcommand ;;
   match dict_get subcommand commands with
   | Some cmd =>
       help_text <- cell (default VNull (dict_get "help" cmd)) ;;
       print (render_table None ["command"; "describe"] [[Some subcommand; help_text]])
   | None =>
       match dict_get subcommand workflows with
       | Some steps =>
           print (render_table None ["workflow"; "Usage"; "steps"]
                    [[Some subcommand; Some ("project run " +:+ subcommand);
                      Some (String.concat " -> " steps)]]) ;;
           rows <- collect (fun step =>
                      match dict_get step commands with
                      | Some cmd =>
                          help_text <- cell (default VNull (dict_get "help" cmd)) ;;
                          mret [Some step; help_text]
                      | None => raise "KeyError"
                      end) (set_order steps) ;;
           print (render_table None ["command"; "describe"] rows)
       | None => mret tt
       end
   end)%M.

(** The branch of [print_run_help] without a subcommand. *)
Definition help_listing (config_commands : list dict)
    (workflows : list (string * list string)) : M unit :=
  (print "" ;;
   match config_commands with
   | [] => mret tt
   | _ =>
       rows <- collect (fun cmd =>
                  name <- command_name cmd ;;
                  help_text <- item "help" cmd ;;
                  help_text <- cell help_text ;;
                  mret [Some name; Some ("project run " +:+ name); help_text])
                 config_commands ;;
       print (render_table (Some ("[bold red]commands in " +:+ PROJECT_FILE))
                ["command"; "Usage"; "describe"] rows)
   end ;;
   match workflows with
   | [] => mret tt
   | _ =>
       print (render_table (Some ("[bold red]workflows in " +:+ PROJECT_FILE))
                ["workflow"; "Usage"; "steps"]
                (map (fun wf => [Some wf.1; Some ("project run " +:+ wf.1);
                                 Some (String.concat " -> " wf.2)]) workflows))
   end)%M.

Definition print_run_help (project_dir : Path) (subcommand : option string) : M unit :=
  (config <- load_project_config project_dir true [] ;;
   config_commands <- typed (raw_commands config) ;;
   names <- collect command_name config_commands ;;
   let commands := dict_update [] (combine names config_commands) in
   workflows <- typed (config_workflows config) ;;
   match subcommand with
   | Some subcommand =>
       if String.eqb subcommand "" then help_listing config_commands workflows
       else help_on commands workflows subcommand
   | None => help_listing config_commands workflows
   end)%M.

(** [run] of [app.py]; [args] are the arguments the command line leaves
    over, [depth] the room on Python's stack. *)
Definition run (depth : nat) (args : list string) (subcommand : option string)
    (project_dir : Path) (dry show_help force : bool) : M unit :=
  match subcommand with
  | Some name =>
      if show_help || String.eqb name ""
      then print_run_help project_dir subcommand
      else
        (overrides <- parse_config_overrides args (Some CONFIG_OVERRIDES) ;;
         project_run depth project_dir name overrides force dry false)%M
  | None => print_run_help project_dir subcommand
  end.
End Help.

(** A console that writes a table as its rows, cell after cell. *)
#[global] Instance plain_console : Console := {|
  render_table := fun title headers rows =>
    String.concat nl
      (default "" title
       :: map (fun row => String.concat " | " (map (default "") row))
              (map Some headers :: rows))
|}.

(** A manifest whose second command has no help text. *)
Definition helpless_manifest : dict :=
  [ ("commands", VList [VDict [("name", VStr "build"); ("help", VStr "build it");
                               ("script", VList [VStr "true"])];
                        VDict [("name", VStr "test"); ("script", VList [VStr "true"])]]) ].

(** A manifest whose workflow [all] has a step that names no command. *)
Definition dangling_manifest : dict :=
  [ ("commands", VList [VDict [("name", VStr "build"); ("help", VStr "build it");
                               ("script", VList [VStr "true"])]]);
    ("workflows", VDict [("all", VList [VStr "build"; VStr "deploy"])]) ].

(** * Properties *)

(** ** The reference implementations *)

(** The test suite of RFC 1321. *)
Example md5_rfc1321 :
  map (fun s => MD5.hexdigest (bytes s)) [""; "a"; "abc"; "message digest"]
  = [ "d41d8cd98f00b204e9800998ecf8427e";
      "0cc175b9c0f1b6a831c399e269772661";
      "900150983cd24fb0d6963f7d28e17f72";
      "f96b697d7cb7938d525a2f31aaf161d0" ].
Proof. vm_compute. reflexivity. Qed.

(** Keys are sorted, nothing is padded, and what is not printable ASCII
    is escaped. *)
Example json_dumps_sorted :
  Json.dumps (VDict [("script", VList [VStr "echo hi"]);
                     ("cmd", VStr "project run build");
                     ("outs", VList []);
                     ("deps", VList [VDict [("path", VStr "src.txt"); ("md5", VNull)]])])
  = "{" +:+ String.concat ","
      [ Json.quote "cmd" +:+ ":" +:+ Json.quote "project run build";
        Json.quote "deps" +:+ ":[{" +:+ Json.quote "md5" +:+ ":null,"
          +:+ Json.quote "path" +:+ ":" +:+ Json.quote "src.txt" +:+ "}]";
        Json.quote "outs" +:+ ":[]";
        Json.quote "script" +:+ ":[" +:+ Json.quote "echo hi" +:+ "]" ] +:+ "}".
Proof. vm_compute. reflexivity. Qed.

Example json_quote_escapes :
  Json.quote ("caf" +:+ String (ascii_of_nat 195) (String (ascii_of_nat 169) nl))
  = Json.dquote +:+ "caf" +:+ Json.backslash +:+ "u00e9" +:+ Json.backslash +:+ "n"
    +:+ Json.dquote.
Proof. vm_compute. reflexivity. Qed.


(** ** The order of paths *)

Section PathOrder.
Import OrdersEx.

Lemma str_lt_irrefl a : ~ String_as_OT.lt a a.
Proof. exact (@StrictOrder_Irreflexive _ _ String_as_OT.lt_strorder a). Qed.

Lemma str_lt_lt a b c : String_as_OT.lt a b -> String_as_OT.lt b c -> String_as_OT.lt a c.
Proof. exact (@StrictOrder_Transitive _ _ String_as_OT.lt_strorder a b c). Qed.

Lemma str_compare_eq a b : String_as_OT.compare a b = Eq <-> a = b.
Proof.
  destruct (String_as_OT.compare_spec a b) as [E | L | L]; split; intros E';
    unfold String_as_OT.eq in *.
  - exact E.
  - reflexivity.
  - discriminate.
  - subst. exfalso. exact (str_lt_irrefl _ L).
  - discriminate.
  - subst. exfalso. exact (str_lt_irrefl _ L).
Qed.

Lemma str_compare_opp a b :
  String_as_OT.compare b a = CompOpp (String_as_OT.compare a b).
Proof.
  destruct (String_as_OT.compare_spec a b) as [E | L | L];
    destruct (String_as_OT.compare_spec b a) as [E' | L' | L']; simpl;
    try reflexivity; unfold String_as_OT.eq in *; subst; exfalso;
    first [ exact (str_lt_irrefl _ L) | exact (str_lt_irrefl _ L')
          | exact (str_lt_irrefl _ (str_lt_lt _ _ _ L L')) ].
Qed.

Lemma str_lt_trans a b c :
  String_as_OT.compare a b = Lt -> String_as_OT.compare b c = Lt ->
  String_as_OT.compare a c = Lt.
Proof. exact (str_lt_lt a b c). Qed.

Lemma path_compare_eq p q : path_compare p q = Eq <-> p = q.
Proof.
  revert q. induction p as [| a p IH]; intros [| b q]; simpl; try (split; congruence).
  destruct (String_as_OT.compare a b) eqn:E.
  - apply str_compare_eq in E. subst. rewrite IH. split; congruence.
  - split; [discriminate |]. intros [= -> _].
    assert (String_as_OT.compare b b = Eq) by (apply str_compare_eq; reflexivity).
    congruence.
  - split; [discriminate |]. intros [= -> _].
    assert (String_as_OT.compare b b = Eq) by (apply str_compare_eq; reflexivity).
    congruence.
Qed.

Lemma path_compare_opp p q : path_compare q p = CompOpp (path_compare p q).
Proof.
  revert q. induction p as [| a p IH]; intros [| b q]; simpl; try reflexivity.
  rewrite (str_compare_opp a b).
  destruct (String_as_OT.compare a b); simpl; auto.
Qed.

Lemma path_lt_trans p q r :
  path_compare p q = Lt -> path_compare q r = Lt -> path_compare p r = Lt.
Proof.
  revert q r. induction p as [| a p IH]; intros [| b q] [| c r]; simpl; try congruence.
  destruct (String_as_OT.compare a b) eqn:Eab; try discriminate;
    destruct (String_as_OT.compare b c) eqn:Ebc; try discriminate; intros H1 H2.
  - apply str_compare_eq in Eab, Ebc. subst.
    assert (String_as_OT.compare c c = Eq) as -> by (apply str_compare_eq; reflexivity).
    eauto.
  - apply str_compare_eq in Eab. subst. rewrite Ebc. reflexivity.
  - apply str_compare_eq in Ebc. subst. rewrite Eab. reflexivity.
  - rewrite (str_lt_trans _ _ _ Eab Ebc). reflexivity.
Qed.

#[global] Instance path_le_total : Total path_le.
Proof.
  intros p q. unfold path_le. rewrite (path_compare_opp p q).
  destruct (path_compare p q); simpl; [left | left | right]; congruence.
Qed.

#[global] Instance path_le_antisymm : AntiSymm (=) path_le.
Proof.
  intros p q. unfold path_le. rewrite (path_compare_opp p q).
  destruct (path_compare p q) eqn:E; simpl; intros H1 H2; try congruence.
  apply path_compare_eq. exact E.
Qed.

#[global] Instance path_le_trans : Transitive path_le.
Proof.
  intros p q r. unfold path_le.
  destruct (path_compare p q) eqn:E1; [| | congruence];
    destruct (path_compare q r) eqn:E2; try congruence; intros _ _.
  - apply path_compare_eq in E1, E2. subst.
    assert (path_compare r r = Eq) as -> by (apply path_compare_eq; reflexivity). congruence.
  - apply path_compare_eq in E1. subst. rewrite E2. congruence.
  - apply path_compare_eq in E2. subst. rewrite E1. congruence.
  - rewrite (path_lt_trans _ _ _ E1 E2). congruence.
Qed.
End PathOrder.

(** ** The file system *)

Lemma fs_find_In p n (disk : filesystem) :
  NoDup (map fst disk) -> fs_find p disk = Some n <-> In (p, n) disk.
Proof.
  induction disk as [| [q m] disk IH]; simpl; intros ND.
  - split; [discriminate | tauto].
  - apply NoDup_cons in ND as [Hq ND]. destruct (decide (p = q)) as [-> | Hne].
    + split.
      * intros [= ->]. left. reflexivity.
      * intros [[= ->] | Hin]; [reflexivity |].
        exfalso. apply Hq. apply list_elem_of_In. apply in_map_iff.
        exists (q, n). split; [reflexivity | exact Hin].
    + rewrite (IH ND). split; [tauto |]. intros [[= -> _] | Hin]; [congruence | exact Hin].
Qed.

Lemma fs_find_None p (disk : filesystem) :
  fs_find p disk = None <-> ~ In p (map fst disk).
Proof.
  induction disk as [| [q m] disk IH]; simpl.
  - tauto.
  - destruct (decide (p = q)) as [-> | Hne].
    + split; [discriminate | intros Hn; exfalso; apply Hn; left; reflexivity].
    + rewrite IH. split; [intros Hn [E | Hin]; [congruence | tauto] | tauto].
Qed.

Lemma fs_find_perm p (disk disk' : filesystem) :
  NoDup (map fst disk) -> Permutation disk disk' -> fs_find p disk = fs_find p disk'.
Proof.
  intros ND HP.
  assert (ND' : NoDup (map fst disk')).
  { pose proof (Permutation_map fst HP) as HP'. rewrite <- HP'. exact ND. }
  destruct (fs_find p disk) as [n |] eqn:E.
  - symmetry. apply (fs_find_In _ _ _ ND'). eapply Permutation_in; [exact HP |].
    apply (fs_find_In _ _ _ ND). exact E.
  - symmetry. apply fs_find_None. apply fs_find_None in E. intros Hin. apply E.
    eapply Permutation_in; [| exact Hin]. apply Permutation_map. symmetry. exact HP.
Qed.

Lemma rmap_ok {A B} (f : A -> result B) (g : A -> B) l :
  (forall x, In x l -> f x = Ok (g x)) -> rmap f l = Ok (map g l).
Proof.
  induction l as [| x l IH]; simpl; intros Hf; [reflexivity |].
  rewrite (Hf x (or_introl eq_refl)). simpl. rewrite IH; [reflexivity |].
  intros y Hy. apply Hf. right. exact Hy.
Qed.

Lemma rmap_ext {A B} (f g : A -> result B) l :
  (forall x, In x l -> f x = g x) -> rmap f l = rmap g l.
Proof.
  induction l as [| x l IH]; simpl; intros Hf; [reflexivity |].
  rewrite (Hf x (or_introl eq_refl)). rewrite IH; [reflexivity |].
  intros y Hy. apply Hf. right. exact Hy.
Qed.

Lemma rmap_app {A B} (f : A -> result B) l1 l2 :
  rmap f (l1 ++ l2) =
  (ys1 <- rmap f l1 ;; ys2 <- rmap f l2 ;; Ok (ys1 ++ ys2))%result.
Proof.
  induction l1 as [| x l1 IH]; simpl.
  - destruct (rmap f l2); reflexivity.
  - destruct (f x); simpl; [| reflexivity | reflexivity].
    rewrite IH. destruct (rmap f l1); simpl; [| reflexivity | reflexivity].
    destruct (rmap f l2); reflexivity.
Qed.

Lemma md5_update_fold contents acc :
  fold_left md5_update contents acc = acc ++ concat contents.
Proof.
  revert acc. induction contents as [| c contents IH]; intros acc; simpl.
  - rewrite app_nil_r. reflexivity.
  - rewrite IH. unfold md5_update. rewrite <- app_assoc. reflexivity.
Qed.

Lemma read_bytes_file w p : is_file w p = true -> read_bytes w p = Ok (file_data w p).
Proof.
  unfold is_file, read_bytes, file_data.
  destruct (stat w p) as [[d y | |] |]; try discriminate. reflexivity.
Qed.

Lemma visited_files w p q : In q (visited w p) -> is_file w q = true.
Proof.
  unfold visited. intros Hin.
  apply (Permutation_in _ (merge_sort_Permutation path_le _)) in Hin.
  apply filter_In in Hin. tauto.
Qed.

Lemma filter_perm {A} (f : A -> bool) l l' :
  Permutation l l' -> Permutation (List.filter f l) (List.filter f l').
Proof.
  induction 1 as [| x l l' _ IH | x y l | l l' l'' _ IH1 _ IH2]; simpl.
  - constructor.
  - destruct (f x); [constructor |]; exact IH.
  - destruct (f x), (f y); try reflexivity. constructor.
  - etransitivity; eassumption.
Qed.

Lemma filter_ext_in {A} (f g : A -> bool) l :
  (forall x, In x l -> f x = g x) -> List.filter f l = List.filter g l.
Proof.
  induction l as [| x l IH]; simpl; intros Hfg; [reflexivity |].
  rewrite (Hfg x (or_introl eq_refl)). rewrite IH; [reflexivity |].
  intros y Hy. apply Hfg. right. exact Hy.
Qed.

Lemma filter_NoDup {A} (f : A -> bool) (l : list A) : NoDup l -> NoDup (List.filter f l).
Proof.
  rewrite !NoDup_ListNoDup. apply List.NoDup_filter.
Qed.

Lemma fs_find_put r q n (disk : filesystem) :
  fs_find r (fs_put q n disk) = if decide (r = q) then Some n else fs_find r disk.
Proof.
  induction disk as [| [q0 m] disk IH]; simpl.
  - destruct (decide (r = q)); reflexivity.
  - destruct (decide (q = q0)) as [-> | Hq]; simpl.
    + destruct (decide (r = q0)); reflexivity.
    + destruct (decide (r = q0)) as [-> | Hr].
      * destruct (decide (q0 = q)); [congruence | reflexivity].
      * exact IH.
Qed.

Lemma fs_put_keys q n (disk : filesystem) :
  In q (map fst disk) -> map fst (fs_put q n disk) = map fst disk.
Proof.
  induction disk as [| [q0 m] disk IH]; simpl; [tauto |].
  destruct (decide (q = q0)) as [-> | Hq]; simpl; [reflexivity |].
  intros [E | Hin]; [congruence |]. rewrite (IH Hin). reflexivity.
Qed.

Lemma fs_find_remove r q (disk : filesystem) :
  fs_find r (fs_remove q disk) = if decide (r = q) then None else fs_find r disk.
Proof.
  unfold fs_remove. induction disk as [| [q0 m] disk IH]; simpl.
  - destruct (decide (r = q)); reflexivity.
  - destruct (bool_decide_reflect (q0 = q)) as [-> | Hq]; simpl.
    + rewrite IH. destruct (decide (r = q)); reflexivity.
    + rewrite IH. destruct (decide (r = q0)) as [-> | Hr]; [| reflexivity].
      destruct (decide (q0 = q)); [congruence | reflexivity].
Qed.

Lemma fs_remove_keys q (disk : filesystem) :
  map fst (fs_remove q disk) =
  List.filter (fun r => negb (bool_decide (r = q))) (map fst disk).
Proof.
  unfold fs_remove. induction disk as [| [q0 m] disk IH]; simpl; [reflexivity |].
  destruct (bool_decide (q0 = q)); simpl; rewrite IH; reflexivity.
Qed.

Lemma resolve_normal c p : normal p -> resolve c p = p.
Proof. intros [Ha Hc]. unfold resolve. rewrite Ha. exact Hc. Qed.

(** *** Looking a path up *)

Lemma collapse_plain acc p : no_dotdot p -> collapse acc p = acc ++ p.
Proof.
  revert acc. induction p as [| part p IH]; intros acc Hp; simpl.
  - rewrite app_nil_r. reflexivity.
  - apply Forall_cons in Hp as [Hpart Hp].
    destruct (String.eqb_spec part ".."); [congruence |].
    rewrite (IH _ Hp), <- app_assoc. reflexivity.
Qed.

Lemma no_dotdot_removelast (p : Path) : no_dotdot p -> no_dotdot (removelast p).
Proof.
  induction p as [| x p IH]; intros Hp; simpl; [constructor |].
  apply Forall_cons in Hp as [Hx Hp]. destruct p; [constructor |].
  constructor; [exact Hx | exact (IH Hp)].
Qed.

Lemma no_dotdot_parent (p : Path) : no_dotdot p -> no_dotdot (parent p).
Proof.
  intros Hp. destruct p as [| root [| next rest]].
  - constructor.
  - simpl. destruct (String.eqb root "/"); [exact Hp | constructor].
  - exact (no_dotdot_removelast _ Hp).
Qed.

Lemma collapse_parent acc part rest :
  part = ".." -> collapse acc (part :: rest) = collapse (parent acc) rest.
Proof. intros ->. reflexivity. Qed.

Lemma collapse_no_dotdot acc parts : no_dotdot acc -> no_dotdot (collapse acc parts).
Proof.
  revert acc. induction parts as [| part rest IH]; intros acc Hacc; [exact Hacc |].
  destruct (String.eqb_spec part "..") as [E | Hne].
  - rewrite (collapse_parent _ _ _ E). apply IH, no_dotdot_parent, Hacc.
  - simpl. destruct (String.eqb_spec part ".."); [congruence |].
    apply IH, Forall_app. split; [exact Hacc | constructor; [exact Hne | constructor]].
Qed.

Lemma normal_no_dotdot p : normal p -> no_dotdot p.
Proof. intros [_ Hc]. rewrite <- Hc. apply collapse_no_dotdot. constructor. Qed.

(** Where the lookup of a path ends, it ends at the resolved path. *)
Lemma walk_collapse disk acc parts q :
  walk disk acc parts = Ok q -> q = collapse acc parts.
Proof.
  revert acc. induction parts as [| part rest IH]; intros acc; simpl.
  - intros [= <-]. reflexivity.
  - destruct (String.eqb part "..").
    + destruct (searchable disk acc); simpl; try discriminate. apply IH.
    + apply IH.
Qed.

(** A path without [".."] is looked up as it is written. *)
Lemma walk_plain disk acc parts : no_dotdot parts -> walk disk acc parts = Ok (acc ++ parts).
Proof.
  revert acc. induction parts as [| part rest IH]; intros acc Hp; simpl.
  - rewrite app_nil_r. reflexivity.
  - apply Forall_cons in Hp as [Hpart Hp].
    destruct (String.eqb_spec part ".."); [congruence |].
    rewrite (IH _ Hp), <- app_assoc. reflexivity.
Qed.

Lemma walk_app disk acc l1 l2 :
  walk disk acc (l1 ++ l2) = (q <- walk disk acc l1 ;; walk disk q l2)%result.
Proof.
  revert acc. induction l1 as [| part rest IH]; intros acc; simpl; [reflexivity |].
  destruct (String.eqb part "..").
  - destruct (searchable disk acc); simpl; [apply IH | reflexivity | reflexivity].
  - apply IH.
Qed.

(** The lookup only asks the disk which paths are directories. *)
Lemma walk_ext disk disk' acc parts :
  (forall r, searchable disk' r = searchable disk r) ->
  walk disk' acc parts = walk disk acc parts.
Proof.
  intros Hs. revert acc. induction parts as [| part rest IH]; intros acc; simpl;
    [reflexivity |].
  destruct (String.eqb part ".."); [| apply IH].
  rewrite Hs. destruct (searchable disk acc); simpl; [apply IH | reflexivity | reflexivity].
Qed.

Lemma searchable_ext disk disk' :
  (forall r, fs_find r disk' = fs_find r disk) ->
  forall r, searchable disk' r = searchable disk r.
Proof. intros Hf r. unfold searchable. rewrite Hf. reflexivity. Qed.

Lemma locate_resolve w p q : locate w p = Ok q -> q = resolve (cwd w) p.
Proof. unfold locate, resolve. apply walk_collapse. Qed.

Lemma locate_normal w p : normal p -> locate w p = Ok p.
Proof.
  intros Hn. unfold locate. rewrite (proj1 Hn).
  rewrite (walk_plain _ _ _ (normal_no_dotdot _ Hn)). reflexivity.
Qed.

(** What is found at a path is found at the resolved path. *)
Lemma stat_found w p n :
  stat w p = Some n ->
  locate w p = Ok (resolve (cwd w) p) /\ fs_find (resolve (cwd w) p) (fs w) = Some n.
Proof.
  unfold stat. destruct (locate w p) as [q | |] eqn:Hq; try discriminate.
  rewrite (locate_resolve _ _ _ Hq) in *. intros Hn. split; [reflexivity | exact Hn].
Qed.

Lemma is_dir_found w p :
  is_dir w p = true -> fs_find (resolve (cwd w) p) (fs w) = Some Dir.
Proof.
  unfold is_dir. destruct (stat w p) as [[| |] |] eqn:Hs; try discriminate.
  intros _. exact (proj2 (stat_found _ _ _ Hs)).
Qed.

Lemma stat_located w p q : locate w p = Ok q -> stat w p = fs_find q (fs w).
Proof. intros Hq. unfold stat. rewrite Hq. reflexivity. Qed.

(** Two worlds with the same working directory whose disks agree on
    every path find the same at every path. *)
Lemma locate_ext w w' p :
  cwd w' = cwd w -> (forall r, fs_find r (fs w') = fs_find r (fs w)) ->
  locate w' p = locate w p.
Proof.
  intros Hc Hf. unfold locate. rewrite Hc. apply walk_ext, searchable_ext, Hf.
Qed.

Lemma stat_ext w w' p :
  cwd w' = cwd w -> (forall r, fs_find r (fs w') = fs_find r (fs w)) ->
  stat w' p = stat w p.
Proof.
  intros Hc Hf. unfold stat. rewrite (locate_ext w w' p Hc Hf).
  destruct (locate w p); [apply Hf | reflexivity | reflexivity].
Qed.

Lemma stat_normal w p : normal p -> stat w p = fs_find p (fs w).
Proof. intros Hn. unfold stat. rewrite (locate_normal _ _ Hn). reflexivity. Qed.

(** A lookup that succeeds still does when the disk keeps its
    directories. *)
Lemma searchable_mono disk disk' acc :
  (forall r, fs_find r disk = Some Dir -> fs_find r disk' = Some Dir) ->
  searchable disk acc = Ok tt -> searchable disk' acc = Ok tt.
Proof.
  intros Hd. unfold searchable.
  destruct (bool_decide (acc = []) || bool_decide (acc = ["/"])); [reflexivity |].
  destruct (fs_find acc disk) as [[| |] |] eqn:Hf; try discriminate.
  rewrite (Hd _ Hf). reflexivity.
Qed.

Lemma walk_mono disk disk' acc parts q :
  (forall r, fs_find r disk = Some Dir -> fs_find r disk' = Some Dir) ->
  walk disk acc parts = Ok q -> walk disk' acc parts = Ok q.
Proof.
  intros Hd. revert acc. induction parts as [| part rest IH]; intros acc; simpl;
    [exact id |].
  destruct (String.eqb part ".."); [| apply IH].
  destruct (searchable disk acc) as [[] | |] eqn:Hs; simpl; try discriminate.
  rewrite (searchable_mono _ _ _ Hd Hs). apply IH.
Qed.

Lemma locate_mono w w' p q :
  cwd w' = cwd w ->
  (forall r, fs_find r (fs w) = Some Dir -> fs_find r (fs w') = Some Dir) ->
  locate w p = Ok q -> locate w' p = Ok q.
Proof. intros Hc Hd. unfold locate. rewrite Hc. apply walk_mono, Hd. Qed.

Lemma is_dir_mono w w' p :
  cwd w' = cwd w ->
  (forall r, fs_find r (fs w) = Some Dir -> fs_find r (fs w') = Some Dir) ->
  is_dir w p = true -> is_dir w' p = true.
Proof.
  intros Hc Hd. unfold is_dir.
  destruct (stat w p) as [[| |] |] eqn:Hs; try discriminate. intros _.
  apply stat_found in Hs as [Hq Hf].
  rewrite (stat_located _ _ _ (locate_mono _ _ _ _ Hc Hd Hq)), (Hd _ Hf). reflexivity.
Qed.

(** Two disks with the same directories lead every path to the same
    place. *)
Lemma locate_same_dirs w w' p q :
  cwd w' = cwd w ->
  (forall r, fs_find r (fs w') = Some Dir <-> fs_find r (fs w) = Some Dir) ->
  locate w' p = Ok q <-> locate w p = Ok q.
Proof.
  intros Hc Hd. split.
  - apply locate_mono; [symmetry; exact Hc | intros r; apply Hd].
  - apply locate_mono; [exact Hc | intros r; apply Hd].
Qed.

(** What is found there is what the new disk holds at the place the
    path led to. *)
Lemma stat_same_dirs w w' p :
  cwd w' = cwd w ->
  (forall r, fs_find r (fs w') = Some Dir <-> fs_find r (fs w) = Some Dir) ->
  stat w' p = match locate w p with
              | Ok q => fs_find q (fs w')
              | _ => None
              end.
Proof.
  intros Hc Hd. unfold stat.
  destruct (locate w p) as [q | c | e] eqn:Hq.
  - rewrite (proj2 (locate_same_dirs w w' p q Hc Hd) Hq). reflexivity.
  - destruct (locate w' p) as [q' | |] eqn:Hq'; [| reflexivity | reflexivity].
    apply (locate_same_dirs w w' p q' Hc Hd) in Hq'. congruence.
  - destruct (locate w' p) as [q' | |] eqn:Hq'; [| reflexivity | reflexivity].
    apply (locate_same_dirs w w' p q' Hc Hd) in Hq'. congruence.
Qed.

Lemma wf_fs_key disk q : wf_fs disk -> In q (map fst disk) -> normal q.
Proof.
  intros [_ Hall] Hin. apply in_map_iff in Hin as [[q' n] [<- Hin]].
  rewrite Forall_forall in Hall. apply (Hall (q', n)). apply list_elem_of_In. exact Hin.
Qed.

Lemma rglob_keys w p q : In q (rglob w p) -> In q (map fst (fs w)).
Proof. unfold rglob. intros Hin. apply filter_In in Hin. tauto. Qed.

Lemma visited_rglob w p q :
  In q (visited w p) <-> In q (rglob w p) /\ is_file w q = true.
Proof.
  unfold visited. rewrite <- filter_In. split; intros Hin.
  - eapply Permutation_in; [apply (merge_sort_Permutation path_le) | exact Hin].
  - eapply Permutation_in; [symmetry; apply (merge_sort_Permutation path_le) | exact Hin].
Qed.

Lemma visited_sorted w p : Sorted path_le (visited w p).
Proof. unfold visited. apply (Sorted_merge_sort path_le). Qed.

Lemma visited_NoDup w p : NoDup (map fst (fs w)) -> NoDup (visited w p).
Proof.
  intros ND. unfold visited. rewrite (merge_sort_Permutation path_le).
  apply filter_NoDup. unfold rglob. apply filter_NoDup. exact ND.
Qed.

(** ** Reordering the disk *)

Lemma stat_perm w w' q :
  cwd w' = cwd w -> Permutation (fs w) (fs w') -> NoDup (map fst (fs w)) ->
  stat w' q = stat w q.
Proof.
  intros Hc HP ND. apply stat_ext; [exact Hc |].
  intros r. symmetry. apply fs_find_perm; assumption.
Qed.

Lemma visited_perm w w' p :
  cwd w' = cwd w -> Permutation (fs w) (fs w') -> NoDup (map fst (fs w)) ->
  visited w' p = visited w p.
Proof.
  intros Hc HP ND.
  assert (Hfile : forall q, is_file w' q = is_file w q).
  { intros q. unfold is_file. rewrite (stat_perm w w' q Hc HP ND). reflexivity. }
  unfold visited.
  apply (Sorted_unique path_le).
  - apply (Sorted_merge_sort path_le).
  - apply (Sorted_merge_sort path_le).
  - rewrite !(merge_sort_Permutation path_le).
    rewrite (filter_ext_in (is_file w') (is_file w)) by (intros; apply Hfile).
    apply filter_perm. unfold rglob. rewrite Hc. apply filter_perm.
    apply Permutation_map. symmetry. exact HP.
Qed.

(** ** Changing and removing one file *)

Lemma NoDup_split (q : Path) l :
  NoDup l -> In q l -> exists l1 l2, l = l1 ++ q :: l2 /\ ~ In q l1 /\ ~ In q l2.
Proof.
  intros ND Hin. apply in_split in Hin as (l1 & l2 & ->). exists l1, l2.
  split; [reflexivity |].
  apply NoDup_app in ND as (_ & Hdisj & ND2). apply NoDup_cons in ND2 as [Hq2 _].
  split.
  - intros Hq1. apply (Hdisj q); [apply list_elem_of_In; exact Hq1 | left].
  - intros Hq. apply Hq2. apply list_elem_of_In. exact Hq.
Qed.

Lemma checksum_input_content w p q d y d' y' :
  wf_fs (fs w) ->
  fs_find q (fs w) = Some (File d y) ->
  below (resolve (cwd w) p) q = true ->
  d' <> d ->
  checksum_input (with_fs w (fs_put q (File d' y') (fs w))) p <> checksum_input w p.
Proof.
  intros Hwf Hq Hbelow Hd.
  pose proof Hwf as [ND _].
  set (w' := with_fs w (fs_put q (File d' y') (fs w))).
  assert (Hkey : In q (map fst (fs w))).
  { apply in_map_iff. exists (q, File d y). split; [reflexivity |].
    apply (fs_find_In _ _ _ ND). exact Hq. }
  assert (Hkeys : map fst (fs w') = map fst (fs w)) by (apply fs_put_keys; exact Hkey).
  assert (Hglob : rglob w' p = rglob w p) by (unfold rglob; rewrite Hkeys; reflexivity).
  assert (Hstat : forall r, In r (map fst (fs w)) ->
            stat w' r = if decide (r = q) then Some (File d' y') else stat w r).
  { intros r Hr. pose proof (wf_fs_key _ _ Hwf Hr) as Hn.
    rewrite !stat_normal by exact Hn. apply fs_find_put. }
  assert (Hqn : stat w q = Some (File d y)).
  { rewrite stat_normal by (apply (wf_fs_key _ _ Hwf Hkey)). exact Hq. }
  assert (Hvis : visited w' p = visited w p).
  { unfold visited. rewrite Hglob. f_equal. apply filter_ext_in. intros r Hr.
    unfold is_file. rewrite (Hstat r (rglob_keys _ _ _ Hr)).
    destruct (decide (r = q)) as [-> | _]; [rewrite Hqn |]; reflexivity. }
  assert (Hin : In q (visited w p)).
  { apply visited_rglob. split.
    - unfold rglob. apply filter_In. split; assumption.
    - unfold is_file. rewrite Hqn. reflexivity. }
  destruct (NoDup_split q _ (visited_NoDup w p ND) Hin) as (l1 & l2 & HV & H1 & H2).
  assert (Hl : forall r, In r (l1 ++ q :: l2) -> In r (map fst (fs w))).
  { intros r Hr. rewrite <- HV in Hr. apply visited_rglob in Hr as [Hr _].
    exact (rglob_keys _ _ _ Hr). }
  unfold checksum_input. rewrite Hvis, HV.
  assert (E' : concat (map (file_data w') (l1 ++ q :: l2)) =
               concat (map (file_data w) l1) ++ d' ++ concat (map (file_data w) l2)).
  { rewrite map_app, concat_app. simpl.
    rewrite (map_ext_in (file_data w') (file_data w) l1),
            (map_ext_in (file_data w') (file_data w) l2).
    - unfold file_data at 2. rewrite (Hstat q Hkey).
      destruct (decide (q = q)); [reflexivity | congruence].
    - intros r Hr. unfold file_data. rewrite (Hstat r) by (apply Hl, in_app_iff; right; right; exact Hr).
      destruct (decide (r = q)) as [-> | _]; [tauto | reflexivity].
    - intros r Hr. unfold file_data. rewrite (Hstat r) by (apply Hl, in_app_iff; left; exact Hr).
      destruct (decide (r = q)) as [-> | _]; [tauto | reflexivity]. }
  rewrite E'. rewrite map_app, concat_app. simpl.
  unfold file_data at 4. rewrite Hqn.
  intros E. apply app_inv_head in E. apply app_inv_tail in E. exact (Hd E).
Qed.

Lemma filter_StronglySorted {A} (R : relation A) (f : A -> bool) l :
  StronglySorted R l -> StronglySorted R (List.filter f l).
Proof.
  induction 1 as [| a l _ IH Hall]; simpl; [constructor |].
  destruct (f a); [| exact IH]. constructor; [exact IH |].
  rewrite Forall_forall in Hall |- *. intros x Hx. apply Hall.
  apply list_elem_of_In in Hx. apply filter_In in Hx as [Hx _].
  apply list_elem_of_In. exact Hx.
Qed.

Lemma filter_filter_comm {A} (f g : A -> bool) l :
  List.filter f (List.filter g l) = List.filter g (List.filter f l).
Proof.
  induction l as [| x l IH]; simpl; [reflexivity |].
  destruct (f x) eqn:Ef, (g x) eqn:Eg; simpl; rewrite ?Ef, ?Eg, IH; reflexivity.
Qed.

Lemma filter_out_split (q : Path) l1 l2 :
  ~ In q l1 -> ~ In q l2 ->
  List.filter (fun r => negb (bool_decide (r = q))) (l1 ++ q :: l2) = l1 ++ l2.
Proof.
  intros H1 H2.
  assert (Hid : forall l, ~ In q l ->
            List.filter (fun r => negb (bool_decide (r = q))) l = l).
  { induction l as [| x l IH]; simpl; intros Hq; [reflexivity |].
    destruct (bool_decide_reflect (x = q)) as [-> | _]; simpl; [tauto |].
    rewrite IH; [reflexivity | tauto]. }
  rewrite List.filter_app. simpl.
  destruct (bool_decide_reflect (q = q)) as [_ | Hne]; [simpl | congruence].
  rewrite (Hid l1 H1), (Hid l2 H2). reflexivity.
Qed.

(** Without the regular file [q] the directory [p] is digested as before,
    less the bytes of [q]. *)
Lemma checksum_input_remove w p q d y :
  wf_fs (fs w) ->
  fs_find q (fs w) = Some (File d y) ->
  below (resolve (cwd w) p) q = true ->
  exists before after,
    checksum_input w p = before ++ d ++ after /\
    checksum_input (with_fs w (fs_remove q (fs w))) p = before ++ after.
Proof.
  intros Hwf Hq Hbelow.
  pose proof Hwf as [ND _].
  set (w' := with_fs w (fs_remove q (fs w))).
  set (keep := fun r : Path => negb (bool_decide (r = q))).
  assert (Hkey : In q (map fst (fs w))).
  { apply in_map_iff. exists (q, File d y). split; [reflexivity |].
    apply (fs_find_In _ _ _ ND). exact Hq. }
  assert (Hglob : rglob w' p = List.filter keep (rglob w p)).
  { unfold rglob. simpl. rewrite fs_remove_keys. apply filter_filter_comm. }
  assert (Hstat : forall r, In r (map fst (fs w)) ->
            stat w' r = if decide (r = q) then None else stat w r).
  { intros r Hr. pose proof (wf_fs_key _ _ Hwf Hr) as Hn.
    rewrite !stat_normal by exact Hn. apply fs_find_remove. }
  assert (Hqn : stat w q = Some (File d y)).
  { rewrite stat_normal by (apply (wf_fs_key _ _ Hwf Hkey)). exact Hq. }
  assert (Hvis : visited w' p = List.filter keep (visited w p)).
  { apply (StronglySorted_unique path_le).
    - apply (StronglySorted_merge_sort path_le).
    - apply filter_StronglySorted. apply (StronglySorted_merge_sort path_le).
    - unfold visited. rewrite (merge_sort_Permutation path_le), Hglob.
      rewrite (filter_ext_in (is_file w') (is_file w)).
      + rewrite filter_filter_comm. apply filter_perm. symmetry.
        apply (merge_sort_Permutation path_le).
      + intros r Hr. apply filter_In in Hr as [Hr Hk].
        unfold is_file. rewrite (Hstat r (rglob_keys _ _ _ Hr)).
        destruct (decide (r = q)) as [-> | _]; [| reflexivity].
        unfold keep in Hk. rewrite bool_decide_eq_true_2 in Hk by reflexivity. discriminate. }
  assert (Hin : In q (visited w p)).
  { apply visited_rglob. split.
    - unfold rglob. apply filter_In. split; assumption.
    - unfold is_file. rewrite Hqn. reflexivity. }
  destruct (NoDup_split q _ (visited_NoDup w p ND) Hin) as (l1 & l2 & HV & H1 & H2).
  assert (Hl : forall r, In r (l1 ++ l2) -> r <> q /\ In r (map fst (fs w))).
  { intros r Hr. split.
    - intros ->. apply in_app_iff in Hr. tauto.
    - assert (Hr' : In r (visited w p)).
      { rewrite HV. apply in_app_iff. apply in_app_iff in Hr as [Hr | Hr]; [left | right; right]; exact Hr. }
      apply visited_rglob in Hr' as [Hr' _]. exact (rglob_keys _ _ _ Hr'). }
  exists (concat (map (file_data w) l1)), (concat (map (file_data w) l2)).
  unfold checksum_input. rewrite Hvis, HV. split.
  - rewrite map_app, concat_app. simpl. unfold file_data at 2. rewrite Hqn. reflexivity.
  - unfold keep. rewrite (filter_out_split q l1 l2 H1 H2).
    rewrite (map_ext_in (file_data w') (file_data w) (l1 ++ l2)).
    + rewrite map_app, concat_app. reflexivity.
    + intros r Hr. destruct (Hl r Hr) as [Hne Hk]. unfold file_data.
      rewrite (Hstat r Hk). destruct (decide (r = q)); [congruence | reflexivity].
Qed.

(** ** Checksums *)

Section CacheFacts.
Context `{Digest}.

Lemma get_checksum_file w p :
  is_file w p = true -> get_checksum w p = Ok (md5_hexdigest (file_data w p)).
Proof.
  intros Hf. unfold get_checksum. rewrite Hf. simpl.
  rewrite (read_bytes_file _ _ Hf). reflexivity.
Qed.

Lemma is_dir_not_file w p : is_dir w p = true -> is_file w p = false.
Proof. unfold is_dir, is_file. destruct (stat w p) as [[| |] |]; congruence. Qed.

Lemma get_checksum_dir w p :
  is_dir w p = true -> get_checksum w p = Ok (md5_hexdigest (checksum_input w p)).
Proof.
  intros Hd. unfold get_checksum. rewrite Hd, (is_dir_not_file _ _ Hd). simpl.
  fold (visited w p).
  rewrite (rmap_ok (read_bytes w) (file_data w)).
  - simpl. rewrite md5_update_fold. reflexivity.
  - intros q Hq. apply read_bytes_file. exact (visited_files _ _ _ Hq).
Qed.

Lemma get_checksum_special w p :
  stat w p = Some Special -> get_checksum w p = Exit 1.
Proof. intros Hs. unfold get_checksum, is_file, is_dir. rewrite Hs. reflexivity. Qed.

Lemma get_checksum_perm w w' p :
  cwd w' = cwd w -> Permutation (fs w) (fs w') -> NoDup (map fst (fs w)) ->
  get_checksum w' p = get_checksum w p.
Proof.
  intros Hc HP ND.
  pose proof (fun q => stat_perm w w' q Hc HP ND) as Hstat.
  assert (Hfile : forall q, is_file w' q = is_file w q)
    by (intros q; unfold is_file; rewrite Hstat; reflexivity).
  assert (Hdir : forall q, is_dir w' q = is_dir w q)
    by (intros q; unfold is_dir; rewrite Hstat; reflexivity).
  assert (Hread : forall q, read_bytes w' q = read_bytes w q)
    by (intros q; unfold read_bytes; rewrite Hstat; reflexivity).
  unfold get_checksum. rewrite Hfile, Hdir, Hread.
  fold (visited w' p). fold (visited w p). rewrite (visited_perm w w' p Hc HP ND).
  rewrite (rmap_ext (read_bytes w') (read_bytes w)) by (intros; apply Hread).
  reflexivity.
Qed.

(** C7 (amended).  The checksum of a directory is the MD5 digest of the
    concatenated bytes of the regular files below it, visited in sorted
    path order (paths compared part by part); it does not depend on the
    order in which the disk lists its entries; the digested bytes change
    when the content of one contained file changes or when a contained
    file that is not empty is removed; removing an empty file leaves
    them, and the checksum, unchanged. *)
Theorem directory_checksum w p :
  is_dir w p = true ->
  get_checksum w p = Ok (md5_hexdigest (checksum_input w p))
  /\ Sorted path_le (visited w p)
  /\ (forall q, In q (visited w p) <-> In q (rglob w p) /\ is_file w q = true)
  /\ (forall w', cwd w' = cwd w -> Permutation (fs w) (fs w') ->
        NoDup (map fst (fs w)) -> get_checksum w' p = get_checksum w p)
  /\ (forall q d y d' y',
        wf_fs (fs w) -> fs_find q (fs w) = Some (File d y) ->
        below (resolve (cwd w) p) q = true -> d' <> d ->
        checksum_input (with_fs w (fs_put q (File d' y') (fs w))) p <> checksum_input w p)
  /\ (forall q d y,
        wf_fs (fs w) -> fs_find q (fs w) = Some (File d y) ->
        below (resolve (cwd w) p) q = true ->
        (d <> [] ->
         checksum_input (with_fs w (fs_remove q (fs w))) p <> checksum_input w p)
        /\ (d = [] ->
            get_checksum (with_fs w (fs_remove q (fs w))) p = get_checksum w p)).
Proof.
  intros Hd. split; [exact (get_checksum_dir w p Hd) |].
  split; [exact (visited_sorted w p) |].
  split; [exact (visited_rglob w p) |].
  split; [intros w'; exact (get_checksum_perm w w' p) |].
  split; [intros q d y d' y'; exact (checksum_input_content w p q d y d' y') |].
  intros q d y Hwf Hq Hb.
  destruct (checksum_input_remove w p q d y Hwf Hq Hb) as (before & after & E & E').
  split.
  - intros Hne. rewrite E, E'. intros Heq. apply app_inv_head in Heq.
    apply (f_equal (@length byte)) in Heq. rewrite length_app in Heq.
    destruct d; [congruence | simpl in Heq; lia].
  - intros ->. simpl in E.
    assert (Hd' : is_dir (with_fs w (fs_remove q (fs w))) p = true).
    { apply (is_dir_mono w); [reflexivity | | exact Hd].
      intros r Hr. simpl. rewrite fs_find_remove.
      destruct (decide (r = q)) as [-> | _]; [congruence | exact Hr]. }
    rewrite (get_checksum_dir _ _ Hd'), (get_checksum_dir _ _ Hd), E, E'. reflexivity.
Qed.
End CacheFacts.

(** The data directory of [data_world] is digested as ["hello world"],
    however the disk is listed. *)
Lemma directory_checksum_witness :
  get_checksum data_world ["data"] = Ok "5eb63bbbe01eeed093cb22bb8f5acdc3"
  /\ get_checksum data_world_reordered ["data"] = get_checksum data_world ["data"].
Proof.
  pose proof (directory_checksum (H := reference_digest) data_world ["data"] eq_refl)
    as (Hsum & _ & _ & Hperm & _).
  split.
  - rewrite Hsum. vm_compute. reflexivity.
  - apply Hperm.
    + reflexivity.
    + apply Permutation_rev.
    + apply (bool_decide_unpack _). vm_compute. exact I.
Defined.

(** C7 as stated fails: deleting the empty file [data/empty], which the
    checksum of [data] included, does not change that checksum. *)
Lemma directory_checksum_counterexample :
  is_file data_world ["data"; "empty"] = true
  /\ is_file data_world_less ["data"; "empty"] = false
  /\ get_checksum data_world ["data"] = Ok "5eb63bbbe01eeed093cb22bb8f5acdc3"
  /\ get_checksum data_world_less ["data"] = Ok "5eb63bbbe01eeed093cb22bb8f5acdc3".
Proof. vm_compute. repeat split; reflexivity. Qed.

(** ** Lock entries *)

Section LockEntryFacts.
Context `{Digest}.

Lemma get_fileinfo_cons w dir path paths :
  get_fileinfo w dir (path :: paths) =
  (info <- get_fileinfo w dir [path] ;; rest <- get_fileinfo w dir paths ;;
   Ok (info ++ rest))%result.
Proof.
  unfold get_fileinfo. simpl.
  destruct (path_exists w (joinpath dir path)); simpl; [| reflexivity].
  destruct (get_checksum w (joinpath dir path)); reflexivity.
Qed.

Lemma get_fileinfo_app w dir l1 l2 :
  get_fileinfo w dir (l1 ++ l2) =
  (b <- get_fileinfo w dir l1 ;; a <- get_fileinfo w dir l2 ;; Ok (b ++ a))%result.
Proof. unfold get_fileinfo. apply rmap_app. Qed.

Lemma get_fileinfo_missing w dir path :
  path_exists w (joinpath dir path) = false ->
  get_fileinfo w dir [path] = Ok [VDict [("path", VStr path); ("md5", VNull)]].
Proof. intros Hm. unfold get_fileinfo. simpl. rewrite Hm. reflexivity. Qed.

Lemma get_fileinfo_hashable w dir paths :
  Forall (hashable w dir) paths ->
  get_fileinfo w dir paths = Ok (map (fileinfo_of w dir) paths).
Proof.
  intros Hall. unfold get_fileinfo. apply rmap_ok. intros path Hin.
  rewrite Forall_forall in Hall. specialize (Hall path (proj2 (list_elem_of_In _ _) Hin)).
  unfold hashable in Hall. unfold fileinfo_of, checksum_of.
  destruct (path_exists w (joinpath dir path)) eqn:Hex; [| reflexivity].
  destruct (is_file w (joinpath dir path)) eqn:Hf.
  - rewrite (get_checksum_file _ _ Hf). reflexivity.
  - assert (Hd : is_dir w (joinpath dir path) = true).
    { unfold path_exists, is_file, is_dir in *.
      destruct (stat w (joinpath dir path)) as [[| |] |]; congruence. }
    rewrite (get_checksum_dir _ _ Hd). reflexivity.
Qed.

(** C6 (amended).  For a command that has a script, and whose declared
    paths are regular files, directories or absent, the lock entry has
    [cmd] = ["project run "] followed by the name, [script] = the
    command's script, [deps] = the [{path, md5}] pairs over [deps] in
    order, and [outs] = the pairs over [outputs] followed by
    [outputs_no_cache]. *)
Theorem lock_entry_fields w dir c lines :
  script c = Some lines ->
  Forall (hashable w dir)
         (default [] (deps c) ++ default [] (outputs c) ++ default [] (outputs_no_cache c)) ->
  get_lock_entry w dir c =
  Ok (VDict [("cmd", VStr ("project run " +:+ name c));
             ("script", VList (map VStr lines));
             ("deps", VList (map (fileinfo_of w dir) (default [] (deps c))));
             ("outs", VList (map (fileinfo_of w dir)
                               (default [] (outputs c) ++ default [] (outputs_no_cache c))))]).
Proof.
  intros Hs Hall. apply Forall_app in Hall as [Hd Hall]. apply Forall_app in Hall as [Ho Hn].
  unfold get_lock_entry.
  rewrite (get_fileinfo_hashable _ _ _ Hd), (get_fileinfo_hashable _ _ _ Ho),
          (get_fileinfo_hashable _ _ _ Hn), Hs.
  simpl. rewrite map_app. reflexivity.
Qed.
End LockEntryFacts.

(** In [data_world] the dependency [data] of [build_cmd] is a directory
    and [missing.txt] does not exist. *)
Lemma lock_entry_fields_witness :
  get_lock_entry data_world proj build_cmd =
  Ok (VDict [("cmd", VStr "project run build");
             ("script", VList [VStr "touch out.txt"]);
             ("deps", VList [VDict [("path", VStr "data");
                                    ("md5", VStr "5eb63bbbe01eeed093cb22bb8f5acdc3")];
                             VDict [("path", VStr "missing.txt"); ("md5", VNull)]]);
             ("outs", VList [VDict [("path", VStr "out.txt"); ("md5", VNull)]])]).
Proof.
  rewrite (lock_entry_fields (H := reference_digest) data_world proj build_cmd
             ["touch out.txt"] eq_refl).
  - vm_compute. reflexivity.
  - repeat constructor; vm_compute; discriminate.
Defined.

(** C6 as stated fails: the [cmd] of the entry starts with
    ["project run "], not with ["run "]. *)
Lemma lock_entry_cmd_counterexample :
  (entry <- get_lock_entry data_world proj build_cmd ;; Ok (field "cmd" entry))%result
  = Ok (Some (VStr "project run build"))
  /\ VStr "project run build" <> VStr ("run " +:+ name build_cmd).
Proof. split; [vm_compute; reflexivity | vm_compute; discriminate]. Qed.

(** A declared path is looked up as the system does it, [..] being
    taken from a directory that exists: [missing/../data/a.txt] names
    nothing, since [missing] does not exist, and neither does
    [data/a.txt/../a.txt], since [a.txt] is no directory. *)
Example fileinfo_through_parent :
  get_fileinfo data_world proj
    ["missing/../data/a.txt"; "data/../data/a.txt"; "data/a.txt/../a.txt"]
  = Ok [VDict [("path", VStr "missing/../data/a.txt"); ("md5", VNull)];
        VDict [("path", VStr "data/../data/a.txt");
               ("md5", VStr "f814893777bcc2295fff05f00e508da6")];
        VDict [("path", VStr "data/a.txt/../a.txt"); ("md5", VNull)]].
Proof. vm_compute. reflexivity. Qed.

(** ** The rerun decision *)

Lemma read_yaml_exists w p data : read_yaml w p = Ok data -> path_exists w p = true.
Proof.
  unfold read_yaml, path_exists. destruct (stat w p) as [[? [?|] | |] |]; congruence.
Qed.

(** Opens the alternatives and witnesses of a statement about the
    decision. *)
Ltac rerun_open :=
  repeat match goal with
    | H : _ \/ _ |- _ => destruct H
    | H : exists _, _ |- _ => destruct H
    | H : _ /\ _ |- _ => destruct H
    end.

(** No alternative is compatible with what is known of the lockfile. *)
Ltac rerun_back := let Hr := fresh "Hr" in intros Hr; rerun_open; congruence.

(** The alternative at hand holds by what is known of the lockfile. *)
Ltac rerun_here := repeat apply conj; first [assumption | reflexivity].

(** The decision neither returns true nor false. *)
Ltac rerun_stuck := split; split; [discriminate | rerun_back | discriminate | rerun_back].

Section RerunFacts.
Context `{Digest}.

(** The decision once [no_skip] is out of the way and the lockfile has
    been read. *)
Lemma check_rerun_stored w dir c data :
  default false (no_skip c) = false ->
  read_yaml w (joinpath dir PROJECT_LOCK) = Ok data ->
  check_rerun w dir c =
  (found <- lock_lookup data (name c) ;;
   match found with
   | None => Ok true
   | Some entry =>
       outs <- entry_outs entry ;;
       if negb (truthy outs) then Ok true
       else
         lock_entry <- get_lock_entry w dir c ;;
         Ok (negb (String.eqb (get_hash lock_entry []) (get_hash entry [])))
   end)%result.
Proof.
  intros Hns Hread. unfold check_rerun.
  rewrite Hns, (read_yaml_exists _ _ _ Hread), Hread. reflexivity.
Qed.

Lemma check_rerun_no_lock w dir c :
  path_exists w (joinpath dir PROJECT_LOCK) = false -> check_rerun w dir c = Ok true.
Proof.
  intros Hex. unfold check_rerun. rewrite Hex.
  destruct (default false (no_skip c)); reflexivity.
Qed.

Lemma check_rerun_no_skip w dir c :
  no_skip c = Some true -> check_rerun w dir c = Ok true.
Proof. intros Hns. unfold check_rerun. rewrite Hns. reflexivity. Qed.

Lemma get_hash_all data : get_hash data [] = canonical_digest data.
Proof.
  unfold get_hash, canonical_digest. destruct data as [| | | | | | d]; try reflexivity.
  assert (E : List.filter (fun kv : string * value => negb (bool_decide (kv.1 ∈ @nil string))) d
              = d).
  { induction d as [| kv d IH]; [reflexivity |].
    cbn [List.filter]. rewrite bool_decide_eq_false_2 by apply not_elem_of_nil.
    cbn [negb]. rewrite IH. reflexivity. }
  rewrite E. reflexivity.
Qed.

(** X28.  Whenever the rerun decision returns, it is true exactly when
    [no_skip] is set, or no lockfile exists, or the lockfile has no
    entry under the command's name, or the stored entry's [outs] is
    empty, or the digest of the canonical encoding of the freshly built
    entry -- MD5 of its JSON text with sorted keys -- differs from that
    of the stored entry; it is false exactly when none of the first four
    holds and the two digests are equal. *)
Theorem rerun_decision w dir c :
  (check_rerun w dir c = Ok true <->
     no_skip c = Some true
     \/ path_exists w (joinpath dir PROJECT_LOCK) = false
     \/ (exists data,
           read_yaml w (joinpath dir PROJECT_LOCK) = Ok data
           /\ lock_lookup data (name c) = Ok None)
     \/ (exists data entry outs,
           read_yaml w (joinpath dir PROJECT_LOCK) = Ok data
           /\ lock_lookup data (name c) = Ok (Some entry)
           /\ entry_outs entry = Ok outs /\ truthy outs = false)
     \/ (exists data entry outs fresh,
           read_yaml w (joinpath dir PROJECT_LOCK) = Ok data
           /\ lock_lookup data (name c) = Ok (Some entry)
           /\ entry_outs entry = Ok outs
           /\ get_lock_entry w dir c = Ok fresh
           /\ canonical_digest fresh <> canonical_digest entry))
  /\ (check_rerun w dir c = Ok false <->
        no_skip c <> Some true
        /\ exists data entry outs fresh,
             read_yaml w (joinpath dir PROJECT_LOCK) = Ok data
             /\ lock_lookup data (name c) = Ok (Some entry)
             /\ entry_outs entry = Ok outs /\ truthy outs = true
             /\ get_lock_entry w dir c = Ok fresh
             /\ canonical_digest fresh = canonical_digest entry).
Proof.
  destruct (default false (no_skip c)) eqn:Hdef.
  { (* no_skip is set *)
    assert (Hns : no_skip c = Some true)
      by (destruct (no_skip c) as [[|] |]; simpl in Hdef; congruence).
    rewrite (check_rerun_no_skip w dir c Hns). split.
    - split; [intros _; left; exact Hns | reflexivity].
    - split; [discriminate | intros [Hn _]; congruence]. }
  assert (Hns : no_skip c <> Some true) by (intros E; rewrite E in Hdef; discriminate).
  destruct (path_exists w (joinpath dir PROJECT_LOCK)) eqn:Hex.
  2: { (* no lockfile *)
    rewrite (check_rerun_no_lock w dir c Hex). split.
    - split; [intros _; right; left; reflexivity | reflexivity].
    - split; [discriminate |]. intros [_ (data & ? & ? & ? & Hr & _)].
      apply read_yaml_exists in Hr. congruence. }
  destruct (read_yaml w (joinpath dir PROJECT_LOCK)) as [data | code | exc] eqn:Hread.
  2, 3: unfold check_rerun; rewrite Hdef, Hex, Hread; simpl; rerun_stuck.
  rewrite (check_rerun_stored w dir c data Hdef Hread).
  destruct (lock_lookup data (name c)) as [[entry |] | |] eqn:Hlook; simpl;
    [| | rerun_stuck | rerun_stuck].
  2: { (* no entry under the name *)
    split; split; [| reflexivity | discriminate | rerun_back].
    intros _. right; right; left. exists data. rerun_here. }
  destruct (entry_outs entry) as [outs | |] eqn:Houts; simpl;
    [| rerun_stuck | rerun_stuck].
  destruct (truthy outs) eqn:Htruthy; simpl.
  2: { (* the stored outs is empty *)
    split; split; [| reflexivity | discriminate | rerun_back].
    intros _. right; right; right; left. exists data, entry, outs. rerun_here. }
  destruct (get_lock_entry w dir c) as [fresh | |] eqn:Hfresh; simpl;
    [| rerun_stuck | rerun_stuck].
  rewrite !get_hash_all.
  destruct (String.eqb_spec (canonical_digest fresh) (canonical_digest entry))
    as [Heq | Hne]; simpl.
  - (* equal digests *)
    split; split; [discriminate | rerun_back | | reflexivity].
    intros _. split; [exact Hns |]. exists data, entry, outs, fresh. rerun_here.
  - (* different digests *)
    split; split; [| reflexivity | discriminate | rerun_back].
    intros _. right; right; right; right. exists data, entry, outs, fresh. rerun_here.
Qed.

Lemma truthy_list outs : truthy (VList outs) = false <-> outs = [].
Proof. destruct outs; simpl; split; congruence. Qed.
End RerunFacts.

(** C1.  The code does not always return: for a command the schema
    accepts that has no [script], and whose stored entry has outputs, the
    decision raises a [KeyError] where the fresh entry reads the script;
    on a lockfile that is empty it raises a [TypeError], and on a stored
    entry that is no mapping an [AttributeError]. *)
Lemma rerun_decision_raises :
  ProjectConfigCommand_schema []
    (VDict [("name", VStr "bare"); ("outputs", VList [VStr "out.txt"])]) = []
  /\ command_of (VDict [("name", VStr "bare"); ("outputs", VList [VStr "out.txt"])])
     = Some bare_cmd
  /\ check_rerun (locked_world (VDict [("bare", bare_entry)])) proj bare_cmd
     = Raise "KeyError"
  /\ check_rerun (locked_world VNull) proj build_cmd = Raise "TypeError"
  /\ check_rerun (locked_world (VDict [("build", VStr "done")])) proj build_cmd
     = Raise "AttributeError".
Proof. vm_compute. repeat split; reflexivity. Qed.

(** ** Reasoning about computations *)

Lemma mbind_ok {A B} (m : M A) (f : A -> M B) w b w' :
  mbind m f w = (Ok b, w') ->
  exists a w1, m w = (Ok a, w1) /\ f a w1 = (Ok b, w').
Proof.
  unfold mbind. destruct (m w) as [[a | c | e] w1]; intros E; try discriminate.
  exists a, w1. split; [reflexivity | exact E].
Qed.

Lemma mbind_step {A B} (m : M A) (f : A -> M B) w a w1 :
  m w = (Ok a, w1) -> mbind m f w = f a w1.
Proof. intros E. unfold mbind. rewrite E. reflexivity. Qed.

Lemma dict_get_set_eq {V} k (v : V) d : dict_get k (dict_set k v d) = Some v.
Proof.
  induction d as [| [k' v'] d IH]; simpl.
  - rewrite String.eqb_refl. reflexivity.
  - destruct (String.eqb k k') eqn:E; simpl; rewrite E; [reflexivity | exact IH].
Qed.

Lemma dict_get_set_ne {V} k k' (v : V) d :
  k <> k' -> dict_get k (dict_set k' v d) = dict_get k d.
Proof.
  intros Hne. induction d as [| [k0 v0] d IH]; simpl.
  - destruct (String.eqb_spec k k'); [congruence | reflexivity].
  - destruct (String.eqb_spec k' k0) as [-> | Hk]; simpl.
    + destruct (String.eqb_spec k k0); [congruence | reflexivity].
    + destruct (String.eqb k k0); [reflexivity | exact IH].
Qed.

(** ** Commands without outputs *)

Section NoOutputs.
Context `{Digest} `{Runtime}.

Lemma fresh_outs_empty w dir c fresh :
  default [] (outputs c) = [] -> default [] (outputs_no_cache c) = [] ->
  get_lock_entry w dir c = Ok fresh -> entry_outs fresh = Ok (VList []).
Proof.
  intros Ho Hn. unfold get_lock_entry. rewrite Ho, Hn. simpl.
  destruct (get_fileinfo w dir (default [] (deps c))); simpl; try discriminate.
  destruct (script c); simpl; try discriminate.
  intros [= <-]. reflexivity.
Qed.

Lemma check_rerun_empty_outs w dir c data entry :
  read_yaml w (joinpath dir PROJECT_LOCK) = Ok data ->
  lock_lookup data (name c) = Ok (Some entry) ->
  entry_outs entry = Ok (VList []) ->
  check_rerun w dir c = Ok true.
Proof.
  intros Hread Hlook Houts.
  destruct (default false (no_skip c)) eqn:Hdef.
  - unfold check_rerun. rewrite Hdef. reflexivity.
  - rewrite (check_rerun_stored w dir c data Hdef Hread), Hlook. simpl.
    rewrite Houts. reflexivity.
Qed.

(** Writing a file where no directory is keeps the directories. *)
Lemma put_file_dirs q data yaml (disk : filesystem) r :
  fs_find q disk <> Some Dir ->
  fs_find r (fs_put q (File data yaml) disk) = Some Dir <-> fs_find r disk = Some Dir.
Proof.
  intros Hq. rewrite fs_find_put. destruct (decide (r = q)) as [-> | _]; [| tauto].
  split; [discriminate | intros E; congruence].
Qed.

(** A write that ends normally has put the document at the place the
    path leads to, which was no directory. *)
Lemma write_yaml_inv p v w w' :
  write_yaml p v w = (Ok tt, w') ->
  locate w p = Ok (resolve (cwd w) p)
  /\ fs_find (resolve (cwd w) p) (fs w) <> Some Dir
  /\ w' = with_fs w (fs_put (resolve (cwd w) p) (File (yaml_dump v) (Some v)) (fs w)).
Proof.
  unfold write_yaml, set_fs.
  destruct (locate w p) as [target | |] eqn:Ht; try discriminate. simpl.
  destruct (searchable (fs w) (parent target)) as [[] | |]; try discriminate. simpl.
  rewrite <- (locate_resolve _ _ _ Ht).
  destruct (fs_find target (fs w)) as [[| |] |] eqn:Hf; intros [= <-];
    (split; [reflexivity |]); (split; [congruence | reflexivity]).
Qed.

Lemma write_yaml_ok p v w w' :
  write_yaml p v w = (Ok tt, w') ->
  cwd w' = cwd w /\ read_yaml w' p = Ok v.
Proof.
  intros E. destruct (write_yaml_inv p v w w' E) as (Ht & Hnd & ->).
  split; [reflexivity |]. unfold read_yaml.
  rewrite (stat_same_dirs w)
    by (reflexivity || (intros r; apply (put_file_dirs _ _ _ _ _ Hnd))).
  rewrite Ht. simpl. rewrite fs_find_put.
  destruct (decide (resolve (cwd w) p = resolve (cwd w) p)); [reflexivity | congruence].
Qed.

Lemma update_lockfile_stores dir c w w' :
  update_lockfile dir c w = (Ok tt, w') ->
  exists w0 d entry,
    get_lock_entry w0 dir c = Ok entry
    /\ read_yaml w' (joinpath dir PROJECT_LOCK) = Ok (VDict (dict_set (name c) entry d)).
Proof.
  unfold update_lockfile. intros E.
  apply mbind_ok in E as (present & w1 & _ & E).
  apply mbind_ok in E as (data & w2 & _ & E).
  apply mbind_ok in E as (entry & w3 & Hentry & E).
  apply mbind_ok in E as (data' & w4 & Hdata & E).
  unfold lift in Hentry.
  destruct (get_lock_entry w2 dir c) as [e | |] eqn:He; try discriminate.
  injection Hentry as <- <-.
  destruct data as [| | | | | | d]; try discriminate.
  injection Hdata as <- <-.
  apply write_yaml_ok in E as [_ E].
  exists w2, d, e. split; assumption.
Qed.

(** C5 (amended).  For a command whose [outputs] and [outputs_no_cache]
    are both empty, every lock entry built for it has an empty [outs]
    list, and the rerun decision is true whenever the entry stored under
    its name is such an entry -- in particular right after
    [update_lockfile] has stored one -- whatever else the lockfile
    holds. *)
Theorem no_outputs_always_rerun w dir c :
  default [] (outputs c) = [] -> default [] (outputs_no_cache c) = [] ->
  (forall w0 fresh, get_lock_entry w0 dir c = Ok fresh -> entry_outs fresh = Ok (VList []))
  /\ (forall w0 data entry,
        read_yaml w (joinpath dir PROJECT_LOCK) = Ok data ->
        lock_lookup data (name c) = Ok (Some entry) ->
        get_lock_entry w0 dir c = Ok entry ->
        check_rerun w dir c = Ok true)
  /\ (forall w', update_lockfile dir c w = (Ok tt, w') -> check_rerun w' dir c = Ok true).
Proof.
  intros Ho Hn. split; [| split].
  - intros w0 fresh. apply fresh_outs_empty; assumption.
  - intros w0 data entry Hread Hlook Hentry.
    apply (check_rerun_empty_outs w dir c data entry Hread Hlook).
    exact (fresh_outs_empty w0 dir c entry Ho Hn Hentry).
  - intros w' Hup. apply update_lockfile_stores in Hup as (w0 & d & entry & Hentry & Hread).
    apply (check_rerun_empty_outs w' dir c _ entry Hread).
    + simpl. rewrite dict_get_set_eq. reflexivity.
    + exact (fresh_outs_empty w0 dir c entry Ho Hn Hentry).
Qed.
End NoOutputs.

(** [check_cmd] declares no outputs: once its entry is stored, the
    decision is to run it again. *)
Lemma no_outputs_always_rerun_witness :
  check_rerun (update_lockfile proj check_cmd data_world).2 proj check_cmd = Ok true.
Proof.
  pose proof (no_outputs_always_rerun (H := reference_digest) (H0 := Demo.runtime)
                data_world proj check_cmd eq_refl eq_refl) as (_ & _ & Hup).
  apply Hup. vm_compute. reflexivity.
Defined.

(** C5 as stated fails: [report_cmd] has an empty [outputs] list, and is
    skipped once its entry is stored, by its [outputs_no_cache]. *)
Lemma no_outputs_counterexample :
  outputs report_cmd = Some []
  /\ (update_lockfile proj report_cmd data_world).1 = Ok tt
  /\ check_rerun (update_lockfile proj report_cmd data_world).2 proj report_cmd = Ok false.
Proof. vm_compute. repeat split; reflexivity. Qed.

(** ** Config overrides *)

Lemma dict_get_absent {V} k (d : list (string * V)) :
  ~ In k (dict_keys d) -> dict_get k d = None.
Proof.
  induction d as [| [k' v'] d IH]; simpl; intros Hk; [reflexivity |].
  destruct (String.eqb_spec k k') as [-> | _]; [tauto |]. apply IH. tauto.
Qed.

Lemma dict_set_keys {V} k (v : V) d :
  forall k', In k' (dict_keys (dict_set k v d)) <-> k' = k \/ In k' (dict_keys d).
Proof.
  intros k'. induction d as [| [k0 v0] d IH]; simpl.
  - split; [intros [E | []]; left; congruence | intros [E | []]; left; congruence].
  - destruct (String.eqb_spec k k0) as [-> | Hne]; simpl.
    + intuition congruence.
    + rewrite IH. intuition congruence.
Qed.

Lemma dict_set_NoDup {V} k (v : V) d :
  NoDup (dict_keys d) -> NoDup (dict_keys (dict_set k v d)).
Proof.
  induction d as [| [k0 v0] d IH]; simpl; intros ND.
  - apply NoDup_singleton.
  - apply NoDup_cons in ND as [Hk0 ND].
    destruct (String.eqb_spec k k0) as [-> | Hne]; simpl.
    + apply NoDup_cons. split; assumption.
    + apply NoDup_cons. split; [| exact (IH ND)].
      rewrite list_elem_of_In, dict_set_keys. rewrite list_elem_of_In in Hk0.
      intros [E | Hin]; [congruence | tauto].
Qed.

Lemma dict_get_update {V} k (d other : list (string * V)) :
  NoDup (dict_keys other) ->
  dict_get k (dict_update d other) =
  match dict_get k other with
  | Some v => Some v
  | None => dict_get k d
  end.
Proof.
  unfold dict_update. revert d. induction other as [| [k0 v0] other IH]; simpl; intros d ND.
  - reflexivity.
  - apply NoDup_cons in ND as [Hk0 ND]. rewrite (IH _ ND).
    destruct (String.eqb_spec k k0) as [-> | Hne].
    + rewrite dict_get_absent by (rewrite <- list_elem_of_In; exact Hk0).
      apply dict_get_set_eq.
    + rewrite dict_get_set_ne by exact Hne. reflexivity.
Qed.

Section OverrideFacts.
Context `{Parsers}.

Lemma _parse_overrides_NoDup args is_cli result w parsed w' :
  NoDup (dict_keys result) ->
  _parse_overrides args is_cli result w = (Ok parsed, w') ->
  NoDup (dict_keys parsed).
Proof.
  assert (Hlen : forall n args, (length args <= n)%nat -> forall result w,
            NoDup (dict_keys result) ->
            _parse_overrides args is_cli result w = (Ok parsed, w') ->
            NoDup (dict_keys parsed)).
  { induction n as [| n IH]; intros [| opt rest] Hn result0 w0 ND; simpl in *;
      try (intros [= <- _]; exact ND); try lia.
    destruct (String.prefix "--" opt); [| discriminate].
    destruct (contains "." (replace "--" "" opt)); simpl.
    2: { destruct is_cli; discriminate. }
    destruct (contains "=" (replace "--" "" opt)).
    - destruct (split_first "=" (replace "--" "" opt)) as [k v].
      apply IH; [lia | apply dict_set_NoDup; exact ND].
    - destruct rest as [| next rest'].
      + apply IH; [simpl; lia | apply dict_set_NoDup; exact ND].
      + destruct (String.prefix "--" next).
        * apply IH; [simpl in *; lia | apply dict_set_NoDup; exact ND].
        * apply IH; [simpl in *; lia | apply dict_set_NoDup; exact ND]. }
  exact (Hlen (length args) args (Nat.le_refl _) result w).
Qed.

Lemma when_print_ok b text w :
  exists w', when b (print text) w = (Ok tt, w').
Proof. destruct b; simpl; eexists; reflexivity. Qed.

(** C2 (amended).  When the tokens of the override variable and the
    tokens of the command line both parse, the merged mapping gives
    every key of the environment its environment value, also when the
    command line sets the key too, and gives the other keys their
    command-line value: on a collision the environment wins. *)
Theorem env_overrides_win args env_var w env_overrides w1 cli_overrides w2 :
  _parse_overrides (split_arg_string (env_override_string env_var w)) false [] w
    = (Ok env_overrides, w1) ->
  _parse_overrides args true [] w1 = (Ok cli_overrides, w2) ->
  exists merged w3,
    parse_config_overrides args env_var w = (Ok merged, w3)
    /\ (forall k v_env,
          dict_get k env_overrides = Some v_env -> dict_get k merged = Some v_env)
    /\ (forall k,
          dict_get k env_overrides = None -> dict_get k merged = dict_get k cli_overrides).
Proof.
  intros Henv Hcli.
  pose proof (_parse_overrides_NoDup _ _ [] _ _ _ (NoDup_nil_2 (A := string)) Henv) as NDenv.
  pose proof (_parse_overrides_NoDup _ _ [] _ _ _ (NoDup_nil_2 (A := string)) Hcli) as NDcli.
  unfold parse_config_overrides.
  rewrite (mbind_step _ _ w (env_override_string env_var w) w) by reflexivity.
  rewrite (mbind_step _ _ _ _ _ Henv), (mbind_step _ _ _ _ _ Hcli).
  match goal with |- context [mbind (when ?b (print ?t)) _ w2] =>
    destruct (when_print_ok b t w2) as [w3 E3] end.
  rewrite (mbind_step _ _ _ _ _ E3).
  match goal with |- context [mbind (when ?b (print ?t)) _ w3] =>
    destruct (when_print_ok b t w3) as [w4 E4] end.
  rewrite (mbind_step _ _ _ _ _ E4).
  eexists _, w4. split; [reflexivity |].
  split.
  - intros k v Hk. rewrite (dict_get_update _ _ _ NDenv), Hk. reflexivity.
  - intros k Hk. rewrite (dict_get_update _ _ _ NDenv), Hk.
    rewrite (dict_get_update _ _ _ NDcli). destruct (dict_get k cli_overrides); reflexivity.
Qed.
End OverrideFacts.

(** With [--vars.x=2] in the override variable and [--vars.x=1] on the
    command line, the merged mapping holds the value of the variable. *)
Lemma env_overrides_win_witness :
  exists w3,
    parse_config_overrides ["--vars.x=1"] (Some CONFIG_OVERRIDES) override_world
    = (Ok [("vars.x", VInt 2)], w3).
Proof.
  destruct (env_overrides_win (H := Demo.parsers)
              ["--vars.x=1"] (Some CONFIG_OVERRIDES) override_world
              [("vars.x", VInt 2)] override_world
              [("vars.x", VInt 1)] override_world eq_refl eq_refl)
    as (merged & w3 & E & Henv & _).
  exists w3. rewrite E. f_equal. f_equal.
  vm_compute in E. injection E as <- _. reflexivity.
Defined.

(** C2 as stated fails: the key [vars.x] is set by both sources, and the
    merged mapping does not hold the command-line value [1]. *)
Lemma cli_overrides_counterexample :
  (_parse_overrides ["--vars.x=1"] true [] override_world).1 = Ok [("vars.x", VInt 1)]
  /\ (_parse_overrides
        (split_arg_string (env_override_string (Some CONFIG_OVERRIDES) override_world))
        false [] override_world).1 = Ok [("vars.x", VInt 2)]
  /\ (parse_config_overrides ["--vars.x=1"] (Some CONFIG_OVERRIDES) override_world).1
     = Ok [("vars.x", VInt 2)].
Proof. vm_compute. repeat split; reflexivity. Qed.

(** ** Schema validation *)

Lemma group_errors_nonempty errors data :
  errors <> [] \/ data <> [] -> group_errors errors data <> [].
Proof.
  revert data. induction errors as [| [loc msg] errors IH]; simpl; intros data Hne.
  - destruct Hne as [Hne | Hne]; [congruence | exact Hne].
  - apply IH. right. destruct data as [| [k v] data]; simpl; [discriminate |].
    destruct (String.eqb _ k); discriminate.
Qed.

Lemma group_errors_get errors data location :
  dict_get location (group_errors errors data) =
  match dict_get location data, messages_at location errors with
  | None, [] => None
  | old, ms => Some (default [] old ++ ms)
  end.
Proof.
  revert data. induction errors as [| [loc msg] errors IH]; intros data; simpl.
  - unfold messages_at. simpl. destruct (dict_get location data); simpl;
      [rewrite app_nil_r |]; reflexivity.
  - rewrite IH. unfold messages_at. simpl.
    destruct (String.eqb_spec (String.concat " -> " loc) location) as [<- | Hne].
    + rewrite dict_get_set_eq. simpl.
      destruct (dict_get (String.concat " -> " loc) data); simpl;
        rewrite <- ?app_assoc; reflexivity.
    + rewrite dict_get_set_ne by congruence. reflexivity.
Qed.

Lemma dict_get_In {V} k (v : V) d : dict_get k d = Some v -> In (k, v) d.
Proof.
  induction d as [| [k' v'] d IH]; simpl; [discriminate |].
  destruct (String.eqb_spec k k') as [-> | _].
  - intros [= ->]. left. reflexivity.
  - intros E. right. exact (IH E).
Qed.

(** An error pydantic reports is in the line [validate] returns for its
    location. *)
Lemma validate_reports schema obj loc msg :
  In (loc, msg) (schema [] (VDict obj)) ->
  exists reported,
    In ("[" +:+ String.concat " -> " loc +:+ "] " +:+ String.concat ", " reported)
       (validate schema obj)
    /\ In msg reported.
Proof.
  intros Hin. set (location := String.concat " -> " loc).
  set (errors := schema [] (VDict obj)) in *.
  assert (Hmsg : In msg (messages_at location errors)).
  { unfold messages_at. apply in_map_iff. exists (loc, msg). split; [reflexivity |].
    apply filter_In. split; [exact Hin | apply String.eqb_refl]. }
  exists (messages_at location errors). split; [| exact Hmsg].
  unfold validate. fold errors. apply in_map_iff.
  exists (location, messages_at location errors). split; [reflexivity |].
  apply dict_get_In. rewrite group_errors_get. simpl.
  destruct (messages_at location errors); [destruct Hmsg | reflexivity].
Qed.

Lemma validate_rejects schema obj e :
  In e (schema [] (VDict obj)) -> validate schema obj <> [].
Proof.
  intros Hin. unfold validate.
  assert (Hg : group_errors (schema [] (VDict obj)) [] <> []).
  { apply group_errors_nonempty. left. intros E. rewrite E in Hin. exact Hin. }
  destruct (group_errors (schema [] (VDict obj)) []); [congruence | discriminate].
Qed.

Lemma command_extra_error loc cmd k :
  In k (dict_keys cmd) -> ~ In k command_fields ->
  In ((loc ++ [k])%list, "extra fields not permitted")
     (ProjectConfigCommand_schema loc (VDict cmd)).
Proof.
  intros Hk Hnot. unfold ProjectConfigCommand_schema, Pydantic.model, Pydantic.model_errors.
  apply in_app_iff. right. apply in_map_iff. exists k. split; [reflexivity |].
  eapply Permutation_in; [symmetry; apply (merge_sort_Permutation str_le) |].
  apply list_elem_of_In, elem_of_remove_dups, list_elem_of_In, filter_In.
  split; [exact Hk |].
  apply negb_true_iff. apply not_true_is_false. intros Hin. apply Hnot.
  unfold str_in in Hin. apply existsb_exists in Hin as (x & Hx & E).
  apply String.eqb_eq in E. subst x. exact Hx.
Qed.

Lemma schema_command_error config cmds i cmd e :
  dict_get "commands" config = Some (VList cmds) ->
  cmds !! i = Some (VDict cmd) ->
  In e (ProjectConfigCommand_schema ["commands"; pretty i] (VDict cmd)) ->
  In e (ProjectConfigSchema [] (VDict config)).
Proof.
  intros Hc Hi He. unfold ProjectConfigSchema, Pydantic.model, Pydantic.model_errors.
  apply in_app_iff. left. apply in_concat.
  eexists. split.
  - apply in_map_iff. exists (Pydantic.Field "commands" false
                                (Pydantic.List ProjectConfigCommand_schema)).
    split; [reflexivity |]. do 3 right. left. reflexivity.
  - simpl. rewrite Hc. unfold Pydantic.List. apply in_concat.
    exists (ProjectConfigCommand_schema ["commands"; pretty i] (VDict cmd)).
    split; [| exact He].
    apply list_elem_of_In.
    apply (elem_of_lookup_imap_2
             (fun i item => ProjectConfigCommand_schema ([] ++ ["commands"] ++ [pretty i]) item)
             cmds (VDict cmd) i Hi).
Qed.

Lemma model_ignores_extra fields loc k v d :
  ~ In k (map Pydantic.field_name fields) ->
  Pydantic.model fields Pydantic.ignore loc (VDict (dict_set k v d)) =
  Pydantic.model fields Pydantic.ignore loc (VDict d).
Proof.
  intros Hk. unfold Pydantic.model, Pydantic.model_errors. f_equal. f_equal.
  apply map_ext_in.
  intros f Hf. rewrite dict_get_set_ne; [reflexivity |].
  intros E. apply Hk. rewrite <- E. apply in_map. exact Hf.
Qed.

Section SchemaFacts.
Context `{Parsers} `{Runtime}.

(** What the load does with a manifest the schema rejects. *)
Lemma load_schema_error path interpolate overrides w config :
  read_yaml w (joinpath path PROJECT_FILE) = Ok (VDict config) ->
  validate ProjectConfigSchema config <> [] ->
  load_project_config path interpolate overrides w
  = (Exit 1,
     add_prints ["Invalid " +:+ PROJECT_FILE +:+ ". Double-check that the YAML is correct.";
                 String.concat nl (validate ProjectConfigSchema config)] w).
Proof.
  intros Hread Hval. unfold load_project_config.
  rewrite (mbind_step _ _ w true w)
    by (unfold lift; rewrite (read_yaml_exists _ _ _ Hread); reflexivity).
  rewrite (mbind_step _ _ w tt w) by reflexivity.
  rewrite (mbind_step _ _ w (Ok (VDict config)) w) by (unfold lift; rewrite Hread; reflexivity).
  rewrite (mbind_step _ _ w (VDict config) w) by reflexivity.
  rewrite (mbind_step _ _ w config w) by reflexivity.
  destruct (validate ProjectConfigSchema config) as [| e errors]; [congruence |].
  unfold mbind, print, emit, sys_exit, add_prints. simpl.
  rewrite <- app_assoc. reflexivity.
Qed.

(** C3 (amended).  A field outside the declared ones inside a command is
    rejected: the line validation returns for the location of the field
    holds the message that extra fields are not permitted, and loading
    hands the line that the manifest is invalid and the lines of
    validation to the printer and exits with status 1, the disk
    untouched.  A key outside the declared ones at the top level is
    ignored: validation gives what it gives without the key. *)
Theorem unknown_fields :
  (forall config cmds i cmd k,
     dict_get "commands" config = Some (VList cmds) ->
     cmds !! i = Some (VDict cmd) ->
     In k (dict_keys cmd) -> ~ In k command_fields ->
     (exists reported,
        In ("[" +:+ String.concat " -> " ["commands"; pretty i; k] +:+ "] "
            +:+ String.concat ", " reported)
           (validate ProjectConfigSchema config)
        /\ In "extra fields not permitted" reported)
     /\ forall path interpolate overrides w,
          read_yaml w (joinpath path PROJECT_FILE) = Ok (VDict config) ->
          load_project_config path interpolate overrides w
          = (Exit 1,
             add_prints
               ["Invalid " +:+ PROJECT_FILE +:+ ". Double-check that the YAML is correct.";
                String.concat nl (validate ProjectConfigSchema config)] w))
  /\ (forall config k v,
        ~ In k top_level_fields ->
        validate ProjectConfigSchema (dict_set k v config)
        = validate ProjectConfigSchema config).
Proof.
  split.
  - intros config cmds i cmd k Hc Hi Hk Hnot.
    assert (Herr : In (["commands"; pretty i; k], "extra fields not permitted")
                      (ProjectConfigSchema [] (VDict config))).
    { eapply schema_command_error; [exact Hc | exact Hi |].
      apply (command_extra_error ["commands"; pretty i] cmd k); assumption. }
    split; [exact (validate_reports _ _ _ _ Herr) |].
    intros path interpolate overrides w Hread.
    apply (load_schema_error path interpolate overrides w config Hread).
    exact (validate_rejects _ _ _ Herr).
  - intros config k v Hk. unfold validate, ProjectConfigSchema.
    rewrite (model_ignores_extra _ _ _ _ _ Hk). reflexivity.
Qed.
End SchemaFacts.

(** The field [timeout] of a command is reported, and the manifest is
    not loaded; the top-level key [assets] changes nothing. *)
Lemma unknown_fields_witness :
  load_project_config proj true [] (project_world timeout_manifest)
  = (Exit 1,
     add_prints ["Invalid project.yml. Double-check that the YAML is correct.";
                 "[commands -> 0 -> timeout] extra fields not permitted"]
                (project_world timeout_manifest))
  /\ validate ProjectConfigSchema (dict_set "assets" (VList []) timeout_manifest)
     = validate ProjectConfigSchema timeout_manifest.
Proof.
  pose proof (unknown_fields (H := Demo.parsers) (H0 := Demo.runtime)) as [Hcmd Htop].
  destruct (Hcmd timeout_manifest
              [VDict [("name", VStr "command1"); ("timeout", VInt 5)];
               VDict [("name", VStr "command2")]]
              0%nat [("name", VStr "command1"); ("timeout", VInt 5)] "timeout"
              eq_refl eq_refl)
    as [_ Hload].
  { simpl. tauto. }
  { vm_compute. intuition discriminate. }
  split.
  - rewrite (Hload proj true [] (project_world timeout_manifest) eq_refl).
    vm_compute. reflexivity.
  - apply Htop. vm_compute. intuition discriminate.
Defined.

(** C3 as stated fails at the top level: the manifest that [init] writes
    has the keys [check_requirements], [assets] and [directories], which
    the schema does not declare, and it validates and loads. *)
Lemma top_level_counterexample :
  List.filter (fun k => negb (str_in k top_level_fields)) (dict_keys BASE_CONTENT)
  = ["check_requirements"; "assets"; "directories"]
  /\ validate ProjectConfigSchema BASE_CONTENT = []
  /\ (load_project_config proj true [] (project_world BASE_CONTENT)).1
     = Ok (BASE_CONTENT ++ [("env", VDict [])])
  /\ is_dir (load_project_config proj true [] (project_world BASE_CONTENT)).2 ["assets"]
     = true.
Proof. vm_compute. repeat split; reflexivity. Qed.

(** ** The working directory *)

Lemma removelast_rooted a b (rest : Path) :
  exists rest', removelast ("/" :: a :: b :: rest) = "/" :: rest'
                /\ (no_dotdot (a :: b :: rest) -> no_dotdot rest').
Proof.
  exists (removelast (a :: b :: rest)). split; [reflexivity |].
  generalize (a :: b :: rest). intros l Hl.
  induction l as [| x l IH]; simpl; [constructor |].
  apply Forall_cons in Hl as [Hx Hl]. destruct l; [constructor |].
  constructor; [exact Hx | exact (IH Hl)].
Qed.

Lemma collapse_rooted acc p :
  no_dotdot acc ->
  exists rest, collapse ("/" :: acc) p = "/" :: rest /\ no_dotdot rest.
Proof.
  revert acc. induction p as [| part p IH]; intros acc Hacc; simpl.
  - exists acc. split; [reflexivity | exact Hacc].
  - destruct (String.eqb_spec part "..") as [-> | Hne].
    + destruct acc as [| a [| b rest]].
      * simpl. apply IH. constructor.
      * simpl. apply (IH []). constructor.
      * destruct (removelast_rooted a b rest) as (rest' & E & Hrest').
        change (removelast ("/" :: a :: b :: rest)) with
          (match "/" :: a :: b :: rest with
           | [] => [] | [root] => if String.eqb root "/" then [root] else []
           | _ => removelast ("/" :: a :: b :: rest) end).
        simpl. simpl in E. rewrite E. apply IH. exact (Hrest' Hacc).
    + change (("/" :: acc) ++ [part]) with ("/" :: (acc ++ [part])). apply IH.
      apply Forall_app. split; [exact Hacc |]. constructor; [exact Hne | constructor].
Qed.

Lemma rooted_normal rest : no_dotdot rest -> normal ("/" :: rest).
Proof.
  intros Hrest. split; [reflexivity |].
  apply collapse_plain. constructor; [discriminate | exact Hrest].
Qed.

Lemma normal_rooted p : normal p -> exists rest, p = "/" :: rest.
Proof.
  intros [Ha _]. destruct p as [| root rest]; [discriminate |].
  simpl in Ha. apply String.eqb_eq in Ha. subst. exists rest. reflexivity.
Qed.

(** Resolving against an absolute working directory gives an absolute
    path without [".."]. *)
Lemma resolve_is_normal c p : normal c -> normal (resolve c p).
Proof.
  intros Hc. unfold resolve.
  assert (Hroot : forall l, collapse [] ("/" :: l) = collapse ["/"] l) by reflexivity.
  destruct (is_absolute p) eqn:Hp.
  - destruct p as [| root rest]; [discriminate |].
    simpl in Hp. apply String.eqb_eq in Hp. subst. rewrite Hroot.
    destruct (collapse_rooted [] rest) as (r & -> & Hr); [constructor |].
    apply rooted_normal. exact Hr.
  - destruct (normal_rooted c Hc) as [rest ->].
    change (("/" :: rest) ++ p) with ("/" :: (rest ++ p)). rewrite Hroot.
    destruct (collapse_rooted [] (rest ++ p)) as (r & -> & Hr); [constructor |].
    apply rooted_normal. exact Hr.
Qed.

Lemma chdir_normal p w :
  normal p -> fs_find p (fs w) = Some Dir ->
  chdir p w = (Ok tt, World (fs w) p (environ w) (trace w)).
Proof.
  intros Hp Hd. unfold chdir. rewrite (stat_normal _ _ Hp), Hd.
  rewrite (resolve_normal _ _ Hp). reflexivity.
Qed.

Lemma chdir_fails p w r w' :
  normal p -> chdir p w = (r, w') -> fs_find p (fs w) <> Some Dir ->
  w' = w /\ exists e, r = Raise e.
Proof.
  intros Hp. unfold chdir. rewrite (stat_normal _ _ Hp).
  destruct (fs_find p (fs w)) as [[| |] |]; intros [= <- <-] Hd;
    try congruence; (split; [reflexivity | eexists; reflexivity]).
Qed.

(** How a [finally] that changes back to [prev] ends. *)
Lemma finally_chdir {A} (body : M A) prev w r w' :
  normal prev ->
  try_finally body (chdir prev) w = (r, w') ->
  exists rb w1,
    body w = (rb, w1)
    /\ ((fs_find prev (fs w1) = Some Dir
         /\ r = rb /\ w' = World (fs w1) prev (environ w1) (trace w1))
        \/ (fs_find prev (fs w1) <> Some Dir /\ w' = w1 /\ exists e, r = Raise e)).
Proof.
  intros Hp. unfold try_finally. destruct (body w) as [rb w1] eqn:Hb.
  intros E. exists rb, w1. split; [reflexivity |].
  destruct (fs_find prev (fs w1)) as [[| |] |] eqn:Hd.
  2: { left. rewrite (chdir_normal prev w1 Hp Hd) in E. injection E as <- <-.
       repeat split; reflexivity. }
  all: right; split; [discriminate |];
    destruct (chdir prev w1) as [rc wc] eqn:Hc;
    destruct (chdir_fails prev w1 rc wc Hp Hc) as [-> [e ->]]; [congruence |];
    injection E as <- <-; split; [reflexivity | eexists; reflexivity].
Qed.

(** The working directory in effect at entry is in effect again after
    [working_dir], provided it is still a directory; and then the outcome
    of the block is the outcome of [working_dir], which changes nothing
    else. *)
Lemma working_dir_scoped {A} (path : Path) (body : Path -> M A) w :
  normal (cwd w) ->
  (forall r w',
     working_dir path body w = (r, w') ->
     fs_find (cwd w) (fs w') = Some Dir ->
     cwd w' = cwd w)
  /\ (forall r w1,
        is_dir w (cwd w) = true ->
        is_dir w path = true ->
        body (resolve (cwd w) path)
             (World (fs w) (resolve (cwd w) path) (environ w) (trace w)) = (r, w1) ->
        fs_find (cwd w) (fs w1) = Some Dir ->
        working_dir path body w = (r, World (fs w1) (cwd w) (environ w1) (trace w1))).
Proof.
  intros Hn.
  pose proof (resolve_is_normal (cwd w) path Hn) as Hcur.
  split.
  - intros r w' E Hdir. unfold working_dir in E.
    unfold mbind at 1 in E. unfold getcwd in E.
    destruct (is_dir w (cwd w)); [| injection E as _ <-; reflexivity].
    unfold mbind at 1 in E. unfold lift at 1 in E.
    unfold mbind at 1 in E.
    destruct (chdir (resolve (cwd w) path) w) as [[[] | c | e] w0] eqn:Hch.
    + apply finally_chdir in E as (rb & w1 & _ & [(_ & _ & ->) | (Hnd & -> & _)]);
        [reflexivity | congruence | exact Hn].
    + unfold chdir in Hch. destruct (stat w (resolve (cwd w) path)) as [[| |] |];
        discriminate.
    + injection E as _ <-. unfold chdir in Hch.
      destruct (stat w (resolve (cwd w) path)) as [[| |] |];
        try discriminate Hch; injection Hch as _ <-; reflexivity.
  - intros r w1 Hprev Hpath Hbody Hdir. unfold working_dir.
    rewrite (mbind_step _ _ w (cwd w) w) by (unfold getcwd; rewrite Hprev; reflexivity).
    rewrite (mbind_step _ _ w (resolve (cwd w) path) w) by reflexivity.
    assert (Hch : chdir (resolve (cwd w) path) w
                  = (Ok tt, World (fs w) (resolve (cwd w) path) (environ w) (trace w))).
    { apply chdir_normal; [exact Hcur | exact (is_dir_found _ _ Hpath)]. }
    rewrite (mbind_step _ _ _ _ _ Hch).
    unfold try_finally. rewrite Hbody, (chdir_normal (cwd w) w1 Hn Hdir). reflexivity.
Qed.

(** ** Semantic checks of the manifest *)

Lemma add_prints_nil w : add_prints [] w = w.
Proof. destruct w. unfold add_prints. simpl. rewrite app_nil_r. reflexivity. Qed.

Lemma add_prints_app m1 m2 w : add_prints m2 (add_prints m1 w) = add_prints (m1 ++ m2) w.
Proof. unfold add_prints. simpl. rewrite map_app, app_assoc. reflexivity. Qed.

Lemma when_print b text w :
  when b (print text) w = (Ok tt, add_prints (if b then [text] else []) w).
Proof. destruct b; simpl; [reflexivity |]. rewrite add_prints_nil. reflexivity. Qed.

Lemma for_each_prints {A} (body : A -> M unit) (messages : A -> list string) l w :
  (forall x w0, body x w0 = (Ok tt, add_prints (messages x) w0)) ->
  for_each l body w = (Ok tt, add_prints (concat (map messages l)) w).
Proof.
  intros Hbody. revert w. induction l as [| x l IH]; intros w; simpl.
  - rewrite add_prints_nil. reflexivity.
  - rewrite (mbind_step _ _ _ _ _ (Hbody x w)), IH, add_prints_app. reflexivity.
Qed.

Lemma workflows_of_typed config workflows :
  config_workflows config = Some workflows -> workflows_of config = mret workflows.
Proof.
  intros E. unfold workflows_of.
  destruct (dict_get "workflows" config) as [v |] eqn:Hd;
    [destruct v; try (unfold config_workflows in E; rewrite Hd in E; discriminate) |];
    rewrite E; reflexivity.
Qed.

Section SemanticChecks.
Context `{Runtime}.

Lemma set_order_nil l : set_order l = [] <-> remove_dups l = [].
Proof.
  pose proof (set_order_distinct l) as HP. split; intros E; rewrite E in HP.
  - exact (Permutation_nil HP).
  - symmetry in HP. exact (Permutation_nil HP).
Qed.

Lemma validate_project_commands_prints config commands workflows w :
  config_commands config = Some commands ->
  config_workflows config = Some workflows ->
  validate_project_commands config w
  = (Ok tt, add_prints (semantic_reports commands workflows) w).
Proof.
  intros Hc Hw. unfold validate_project_commands.
  rewrite Hc, (workflows_of_typed _ _ Hw).
  rewrite (mbind_step _ _ w commands w) by reflexivity.
  rewrite (mbind_step _ _ w workflows w) by reflexivity.
  unfold semantic_reports.
  set (names := map name commands).
  set (duplicates := set_order (List.filter (fun cmd => (1 <? count_str cmd names)%nat) names)).
  rewrite (mbind_step _ _ _ _ _ (when_print _ _ w)).
  rewrite (for_each_prints _ (workflow_reports names)).
  - rewrite add_prints_app. destruct duplicates; reflexivity.
  - intros wf w0. unfold workflow_reports.
    rewrite (mbind_step _ _ _ _ _ (when_print _ _ w0)).
    rewrite (for_each_prints _
               (fun step =>
                  if negb (str_in step names)
                  then ["Unknown command specified in workflow '" +:+ wf.1 +:+ "': "
                        +:+ step +:+ " Workflows can only refer to commands defined in the "
                        +:+ "'commands' section of the " +:+ PROJECT_FILE +:+ "."]
                  else [])).
    + rewrite add_prints_app. reflexivity.
    + intros step w1. apply when_print.
Qed.

Lemma str_in_In x l : str_in x l = true <-> In x l.
Proof.
  unfold str_in. rewrite existsb_exists. split.
  - intros (y & Hy & E). apply String.eqb_eq in E. subst. exact Hy.
  - intros Hx. exists x. split; [exact Hx | apply String.eqb_refl].
Qed.

Lemma count_str_absent x l : ~ In x l -> count_str x l = 0%nat.
Proof.
  unfold count_str. induction l as [| y l IH]; simpl; intros Hx; [reflexivity |].
  destruct (String.eqb_spec x y) as [-> | _]; [tauto |]. apply IH. tauto.
Qed.

Lemma count_str_present x l : In x l -> (1 <= count_str x l)%nat.
Proof.
  unfold count_str. induction l as [| y l IH]; simpl; intros Hx; [tauto |].
  destruct (String.eqb_spec x y) as [-> | Hne]; simpl; [lia |].
  apply IH. destruct Hx; [congruence | assumption].
Qed.

Lemma NoDup_count l : NoDup l <-> forall x, In x l -> (count_str x l <= 1)%nat.
Proof.
  induction l as [| y l IH].
  - split; [intros _ x [] | intros _; constructor].
  - rewrite NoDup_cons, IH, list_elem_of_In. split.
    + intros [Hy Hl] x Hx. unfold count_str in *. simpl.
      destruct (String.eqb_spec x y) as [-> | Hne]; simpl.
      * pose proof (count_str_absent y l Hy) as E. unfold count_str in E. lia.
      * apply Hl. destruct Hx; [congruence | assumption].
    + intros Hall. split.
      * intros Hy. specialize (Hall y (or_introl eq_refl)).
        pose proof (count_str_present y l Hy) as Hp. unfold count_str in *. simpl in Hall.
        rewrite String.eqb_refl in Hall. simpl in Hall. lia.
      * intros x Hx. specialize (Hall x (or_intror Hx)). unfold count_str in *.
        simpl in Hall. destruct (String.eqb x y); simpl in Hall; lia.
Qed.

Lemma duplicates_nil l :
  remove_dups (List.filter (fun cmd => (1 <? count_str cmd l)%nat) l) = [] <-> NoDup l.
Proof.
  rewrite NoDup_count. split.
  - intros E x Hx. destruct (1 <? count_str x l)%nat eqn:Hc.
    + assert (Hin : x ∈ remove_dups (List.filter (fun cmd => (1 <? count_str cmd l)%nat) l)).
      { apply elem_of_remove_dups, list_elem_of_In, filter_In. split; assumption. }
      rewrite E in Hin. inversion Hin.
    + apply Nat.ltb_ge in Hc. exact Hc.
  - intros Hall.
    destruct (remove_dups _) as [| x rest] eqn:E; [reflexivity |].
    assert (Hin : x ∈ remove_dups (List.filter (fun cmd => (1 <? count_str cmd l)%nat) l))
      by (rewrite E; left).
    apply elem_of_remove_dups, list_elem_of_In, filter_In in Hin as [Hx Hc].
    apply Nat.ltb_lt in Hc. specialize (Hall x Hx). lia.
Qed.

Lemma concat_nil {A} (ls : list (list A)) :
  concat ls = [] <-> forall l, In l ls -> l = [].
Proof.
  induction ls as [| l ls IH]; simpl.
  - split; [intros _ l [] | reflexivity].
  - split.
    + intros E. apply app_eq_nil in E as [-> E]. intros l' [<- | Hl]; [reflexivity |].
      apply IH; assumption.
    + intros Hall. rewrite (Hall l (or_introl eq_refl)). apply IH.
      intros l' Hl. apply Hall. right. exact Hl.
Qed.

Lemma workflow_reports_nil names wf :
  workflow_reports names wf = [] <->
  ~ In wf.1 names /\ forall step, In step wf.2 -> In step names.
Proof.
  unfold workflow_reports. split.
  - intros E. apply app_eq_nil in E as [E1 E2]. split.
    + intros Hin. apply str_in_In in Hin. rewrite Hin in E1. discriminate.
    + intros step Hstep. rewrite concat_nil in E2.
      specialize (E2 _ (in_map _ _ step Hstep)). simpl in E2.
      destruct (str_in step names) eqn:Hs; [apply str_in_In; exact Hs | discriminate].
  - intros [Hname Hsteps].
    destruct (str_in wf.1 names) eqn:Hs; [apply str_in_In in Hs; tauto |]. simpl.
    apply concat_nil. intros l Hl. apply in_map_iff in Hl as (step & <- & Hstep).
    apply Hsteps, str_in_In in Hstep. rewrite Hstep. reflexivity.
Qed.

Lemma semantic_reports_nil commands workflows :
  semantic_reports commands workflows = [] <-> ~ semantic_error commands workflows.
Proof.
  unfold semantic_reports, semantic_error.
  set (names := map name commands).
  pose proof (duplicates_nil names) as Hdup. rewrite <- set_order_nil in Hdup.
  destruct (set_order (List.filter (fun cmd => (1 <? count_str cmd names)%nat) names))
    as [| d ds].
  - assert (ND : NoDup names) by (apply Hdup; reflexivity).
    simpl. rewrite concat_nil. split.
    + intros Hall [Hnd | (wf & Hwf & Hbad)]; [tauto |].
      specialize (Hall _ (in_map _ _ wf Hwf)). apply workflow_reports_nil in Hall as [H1 H2].
      destruct Hbad as [Hb | (step & Hs & Hb)]; [tauto | exact (Hb (H2 step Hs))].
    + intros Hno l Hl. apply in_map_iff in Hl as (wf & <- & Hwf).
      apply workflow_reports_nil. split.
      * intros Hin. apply Hno. right. exists wf. tauto.
      * intros step Hstep. destruct (str_in step names) eqn:Hs; [apply str_in_In; exact Hs |].
        exfalso. apply Hno. right. exists wf. split; [exact Hwf |]. right. exists step.
        split; [exact Hstep |]. intros Hin. apply str_in_In in Hin. congruence.
  - split; [discriminate |]. intros Hno. exfalso. apply Hno. left. intros ND.
    apply Hdup in ND. discriminate.
Qed.

End SemanticChecks.

(** *** A manifest that passes the schema is at its validated types *)

Lemma validate_nil schema obj : validate schema obj = [] -> schema [] (VDict obj) = [].
Proof.
  intros E. destruct (schema [] (VDict obj)) as [| e errors] eqn:Hs; [reflexivity |].
  exfalso. apply (validate_rejects schema obj e); [rewrite Hs; left; reflexivity | exact E].
Qed.

Section LoadFacts.
Context `{Parsers} `{Runtime}.

(** X27.  The semantic checks only print.  For a manifest that is read,
    passes the schema and holds its commands and workflows at their
    validated types, [validate_project_commands] prints one line for the
    duplicated command names, in the order Python iterates their set,
    one line for each workflow named like a command and one for each
    step that names no command, and returns normally; it prints nothing
    exactly when the manifest has no such error.  The load then goes on
    with the declared directories and the variables as for any other
    manifest. *)
Theorem semantic_checks_only_print path interpolate overrides w config commands workflows :
  read_yaml w (joinpath path PROJECT_FILE) = Ok (VDict config) ->
  validate ProjectConfigSchema config = [] ->
  config_commands config = Some commands ->
  config_workflows config = Some workflows ->
  validate_project_commands config w
  = (Ok tt, add_prints (semantic_reports commands workflows) w)
  /\ load_project_config path interpolate overrides w
     = load_after_checks path interpolate overrides config
         (add_prints (semantic_reports commands workflows) w)
  /\ (semantic_reports commands workflows = [] <-> ~ semantic_error commands workflows).
Proof.
  intros Hread Hval Hc Hw.
  split; [exact (validate_project_commands_prints config _ _ w Hc Hw) |].
  split; [| apply semantic_reports_nil].
  unfold load_project_config.
  rewrite (mbind_step _ _ w true w)
    by (unfold lift; rewrite (read_yaml_exists _ _ _ Hread); reflexivity).
  rewrite (mbind_step _ _ w tt w) by reflexivity.
  rewrite (mbind_step _ _ w (Ok (VDict config)) w) by (unfold lift; rewrite Hread; reflexivity).
  rewrite (mbind_step _ _ w (VDict config) w) by reflexivity.
  rewrite (mbind_step _ _ w config w) by reflexivity.
  rewrite Hval.
  rewrite (mbind_step _ _ _ _ _ (validate_project_commands_prints config _ _ w Hc Hw)).
  reflexivity.
Qed.
End LoadFacts.

(** [faulty_manifest] names two commands [build] and a step [deploy]
    that is no command; both are reported, and it is loaded all the
    same. *)
Lemma semantic_checks_only_print_witness :
  (validate_project_commands faulty_manifest (project_world faulty_manifest)).2
  = add_prints
      ["Duplicate commands defined in project.yml: build";
       "Unknown command specified in workflow 'all': deploy Workflows can only refer to "
       +:+ "commands defined in the 'commands' section of the project.yml."]
      (project_world faulty_manifest)
  /\ (load_project_config proj true [] (project_world faulty_manifest)).1
     = Ok (faulty_manifest ++ [("vars", VDict []); ("env", VDict [])]).
Proof.
  destruct (semantic_checks_only_print (H := Demo.parsers) (H0 := Demo.runtime)
              proj true [] (project_world faulty_manifest) faulty_manifest
              [Command "build" None (Some ["false"]) None None None None;
               Command "build" None (Some ["touch out.txt"]) None None None None]
              [("all", ["build"; "deploy"])]
              eq_refl eq_refl eq_refl eq_refl)
    as (Hprint & Hload & _).
  split.
  - rewrite Hprint. vm_compute. reflexivity.
  - rewrite Hload. vm_compute. reflexivity.
Defined.

(** C9.  The code does not abort on a semantic error.  [faulty_manifest]
    has a duplicate command name and a workflow step that names no
    command: loading reports both and returns the manifest, and running
    the workflow starts the script of [build] before the step that names
    no command ends the run. *)
Lemma semantic_errors_do_not_abort :
  load_project_config proj true [] (project_world faulty_manifest)
  = (Ok (faulty_manifest ++ [("vars", VDict []); ("env", VDict [])]),
     add_prints
       ["Duplicate commands defined in project.yml: build";
        "Unknown command specified in workflow 'all': deploy Workflows can only refer to "
        +:+ "commands defined in the 'commands' section of the project.yml."]
       (project_world faulty_manifest))
  /\ (project_run 3 proj "all" [] false false false (project_world faulty_manifest)).1
     = Exit 1
  /\ spawned (project_run 3 proj "all" [] false false false (project_world faulty_manifest)).2
     = [["touch"; "out.txt"]].
Proof. vm_compute. repeat split; reflexivity. Qed.

(** ** Workflows *)

Lemma for_each_app {A} (l1 l2 : list A) (body : A -> M unit) w :
  for_each (l1 ++ l2) body w = mbind (for_each l1 body) (fun _ => for_each l2 body) w.
Proof.
  revert w. induction l1 as [| x l1 IH]; intros w; simpl; [reflexivity |].
  unfold mbind. destruct (body x w) as [[[] | c | e] w1]; [| reflexivity | reflexivity].
  rewrite IH. reflexivity.
Qed.

Lemma for_each_fail_fast {A} (done rest : list A) failing (body : A -> M unit) w w1 r w2 :
  for_each done body w = (Ok tt, w1) ->
  body failing w1 = (r, w2) ->
  r <> Ok tt ->
  for_each (done ++ failing :: rest) body w = (r, w2).
Proof.
  intros Hdone Hfail Hr. rewrite for_each_app, (mbind_step _ _ _ _ _ Hdone). simpl.
  unfold mbind. rewrite Hfail. destruct r as [[] | c | e]; [congruence | reflexivity | reflexivity].
Qed.

Section WorkflowFacts.
Context `{Digest} `{Parsers} `{Runtime}.

(** A child that exits with a status other than 0 ends the run: with
    that status, or with a [SubprocessError] when the output is
    captured. *)
Lemma run_command_failure argv capture w returncode stdout disk :
  subprocess_run argv (environ w) (cwd w) capture (fs w) = Completed returncode stdout disk ->
  returncode <> 0 ->
  run_command (CmdList argv) capture w
  = (if capture then Raise "SubprocessError" else Exit returncode,
     World disk (cwd w) (environ w) (trace w ++ [Spawn argv])).
Proof.
  intros Hrun Hrc. unfold run_command.
  rewrite (mbind_step _ _ w argv w) by reflexivity.
  rewrite (mbind_step _ _ w tt (World (fs w) (cwd w) (environ w) (trace w ++ [Spawn argv])))
    by reflexivity.
  unfold mbind, lift, set_fs. simpl. rewrite Hrun.
  destruct (Z.eqb_spec returncode 0) as [| _]; [congruence |]. simpl.
  destruct capture; reflexivity.
Qed.

(** C4.  A workflow runs its steps one after the other in the declared
    order, each as a run of its own; the first step that does not end
    normally ends the workflow with its own outcome, in the state it
    left: no later step is started.  So for [W = [A, B]], when [A]
    fails, [B] is never run. *)
Theorem workflow_stops_at_first_failure depth dir W overrides force dry capture
    w commands workflows w0 steps :
  project_run_setup dir W overrides w = (Ok (commands, workflows), w0) ->
  dict_get W workflows = Some steps ->
  let step := fun cmd => project_run depth dir cmd overrides force dry capture in
  let start := add_prints ["Running workflow '" +:+ W +:+ "'"] w0 in
  project_run (S depth) dir W overrides force dry capture w = for_each steps step start
  /\ (forall done failing rest w1 r w2,
        steps = done ++ failing :: rest ->
        for_each done step start = (Ok tt, w1) ->
        step failing w1 = (r, w2) ->
        r <> Ok tt ->
        project_run (S depth) dir W overrides force dry capture w = (r, w2))
  /\ (forall A B r wa,
        steps = [A; B] ->
        step A start = (r, wa) ->
        r <> Ok tt ->
        project_run (S depth) dir W overrides force dry capture w = (r, wa)).
Proof.
  intros Hsetup Hsteps step start.
  assert (Hrun : project_run (S depth) dir W overrides force dry capture w
                 = for_each steps step start).
  { simpl. rewrite (mbind_step _ _ _ _ _ Hsetup). simpl. rewrite Hsteps.
    rewrite (mbind_step _ _ w0 tt start) by reflexivity. reflexivity. }
  split; [exact Hrun |]. split.
  - intros done failing rest w1 r w2 -> Hdone Hfail Hr. rewrite Hrun.
    exact (for_each_fail_fast done rest failing step start w1 r w2 Hdone Hfail Hr).
  - intros A B r wa -> Hfail Hr. rewrite Hrun.
    exact (for_each_fail_fast [] [B] A step start start r wa eq_refl Hfail Hr).
Qed.
End WorkflowFacts.

(** In [ab_manifest] the script of [A] is [false]: the workflow [W] ends
    with status 1, and the only child ever started is that of [A]. *)
Lemma workflow_stops_at_first_failure_witness :
  exists w',
    project_run 2 proj "W" [] false false false (project_world ab_manifest) = (Exit 1, w')
    /\ spawned w' = [["false"]].
Proof.
  assert (Hsetup : exists commands workflows w0,
             project_run_setup proj "W" [] (project_world ab_manifest)
             = (Ok (commands, workflows), w0)
             /\ dict_get "W" workflows = Some ["A"; "B"]).
  { do 3 eexists. vm_compute. split; reflexivity. }
  destruct Hsetup as (commands & workflows & w0 & Hsetup & Hsteps).
  destruct (workflow_stops_at_first_failure (H := reference_digest) (H0 := Demo.parsers)
              (H1 := Demo.runtime) 1 proj "W" [] false false false
              (project_world ab_manifest) commands workflows w0 ["A"; "B"] Hsetup Hsteps)
    as (_ & _ & HAB).
  vm_compute in Hsetup. injection Hsetup as _ _ <-.
  eexists. split.
  - eapply (HAB "A" "B" (Exit 1)); [reflexivity | vm_compute; reflexivity | discriminate].
  - vm_compute. reflexivity.
Defined.

(** ** The working directory across a run *)

Lemma keeps_mret {A} (a : A) : keeps_cwd (mret a).
Proof. intros w r w' [= _ <-]. reflexivity. Qed.

Lemma keeps_lift {A} (f : world -> result A) : keeps_cwd (lift f).
Proof. intros w r w' [= _ <-]. reflexivity. Qed.

Lemma keeps_raise {A} exc : keeps_cwd (raise (A := A) exc).
Proof. intros w r w' [= _ <-]. reflexivity. Qed.

Lemma keeps_sys_exit {A} code : keeps_cwd (sys_exit (A := A) code).
Proof. intros w r w' [= _ <-]. reflexivity. Qed.

Lemma keeps_emit e : keeps_cwd (emit e).
Proof. intros w r w' [= _ <-]. reflexivity. Qed.

Lemma keeps_set_fs disk : keeps_cwd (set_fs disk).
Proof. intros w r w' [= _ <-]. reflexivity. Qed.

Lemma keeps_mbind {A B} (m : M A) (f : A -> M B) :
  keeps_cwd m -> (forall a, keeps_cwd (f a)) -> keeps_cwd (mbind m f).
Proof.
  intros Hm Hf w r w'. unfold mbind. destruct (m w) as [[a | c | e] w1] eqn:E.
  - intros E'. rewrite (Hf a _ _ _ E'). exact (Hm _ _ _ E).
  - intros [= _ <-]. exact (Hm _ _ _ E).
  - intros [= _ <-]. exact (Hm _ _ _ E).
Qed.

Lemma keeps_for_each {A} (l : list A) (body : A -> M unit) :
  (forall x, keeps_cwd (body x)) -> keeps_cwd (for_each l body).
Proof.
  intros Hbody. induction l as [| x l IH]; simpl.
  - apply keeps_mret.
  - apply keeps_mbind; [apply Hbody | intros _; exact IH].
Qed.

Lemma keeps_restores {A} (m : M A) : keeps_cwd m -> restores_cwd m.
Proof. intros Hm w r w' _ E _. exact (Hm _ _ _ E). Qed.

Lemma restores_mbind {A B} (m : M A) (f : A -> M B) :
  restores_cwd m -> (forall a, restores_cwd (f a)) -> restores_cwd (mbind m f).
Proof.
  intros Hm Hf w r w' Hn. unfold mbind. destruct (m w) as [[a | c | e] w1] eqn:E.
  - intros E' Hr.
    assert (Hc : cwd w1 = cwd w) by (apply (Hm _ _ _ Hn E); left; discriminate).
    rewrite <- Hc. apply (Hf a w1 r w'); [rewrite Hc; exact Hn | exact E' |].
    rewrite Hc. exact Hr.
  - intros [= <- <-] Hr. apply (Hm _ _ _ Hn E). left. discriminate.
  - intros [= <- <-] Hr. apply (Hm _ _ _ Hn E).
    destruct Hr as [Hr | Hr]; [exfalso; exact (Hr e eq_refl) | right; exact Hr].
Qed.

Lemma restores_for_each {A} (l : list A) (body : A -> M unit) :
  (forall x, restores_cwd (body x)) -> restores_cwd (for_each l body).
Proof.
  intros Hbody. induction l as [| x l IH]; simpl.
  - apply keeps_restores, keeps_mret.
  - apply restores_mbind; [apply Hbody | intros _; exact IH].
Qed.

(** [working_dir] has put the working directory back whenever it does
    not end in an exception, and whenever the directory is still there,
    whatever its block does. *)
Lemma restores_working_dir {A} path (body : Path -> M A) :
  restores_cwd (working_dir path body).
Proof.
  intros w r w' Hn E Hr. unfold working_dir in E.
  unfold mbind at 1 in E. unfold getcwd in E.
  destruct (is_dir w (cwd w)); [| injection E as _ <-; reflexivity].
  unfold mbind at 1 in E. unfold lift at 1 in E. unfold mbind at 1 in E.
  destruct (chdir (resolve (cwd w) path) w) as [[[] | c | e] w0] eqn:Hch.
  - apply finally_chdir in E as (rb & w1 & _ & [(_ & _ & ->) | (Hnd & -> & e & ->)]);
      [reflexivity | | exact Hn].
    destruct Hr as [Hr | Hr]; [exfalso; exact (Hr e eq_refl) | congruence].
  - unfold chdir in Hch. destruct (stat w (resolve (cwd w) path)) as [[| |] |]; discriminate.
  - injection E as _ <-. unfold chdir in Hch.
    destruct (stat w (resolve (cwd w) path)) as [[| |] |];
      try discriminate Hch; injection Hch as _ <-; reflexivity.
Qed.

Lemma keeps_print text : keeps_cwd (print text).
Proof. apply keeps_emit. Qed.

Lemma keeps_when b (m : M unit) : keeps_cwd m -> keeps_cwd (when b m).
Proof. intros Hm. destruct b; [exact Hm | apply keeps_mret]. Qed.

Lemma keeps_typed {A} (o : option A) : keeps_cwd (typed o).
Proof. destruct o; [apply keeps_mret | apply keeps_raise]. Qed.

Lemma keeps_workflows_of config : keeps_cwd (workflows_of config).
Proof.
  unfold workflows_of. destruct (dict_get "workflows" config) as [[] |];
    first [apply keeps_typed | apply keeps_raise].
Qed.

Lemma keeps_fail_exit {A} text : keeps_cwd (fail_exit (A := A) text).
Proof.
  unfold fail_exit. apply keeps_mbind; [apply keeps_print | intros _; apply keeps_sys_exit].
Qed.

(** [os.mkdir] either fails and changes nothing, or adds one directory
    where nothing was. *)
Lemma os_mkdir_inv p w r w' :
  os_mkdir p w = (r, w') ->
  (w' = w /\ r <> Ok tt)
  \/ (r = Ok tt
      /\ exists target, fs_find target (fs w) = None
                        /\ w' = with_fs w (fs w ++ [(target, Dir)])).
Proof.
  unfold os_mkdir.
  destruct (last (if is_absolute p then p else cwd w ++ p)) as [part |];
    [| intros [= <- <-]; left; split; [reflexivity | discriminate]].
  destruct (String.eqb part ".." || String.eqb part "/").
  - destruct (walk _ _ _); intros [= <- <-]; left; (split; [reflexivity | discriminate]).
  - destruct (walk _ _ _) as [above | |]; simpl;
      [| intros [= <- <-]; left; split; [reflexivity | discriminate] ..].
    destruct (searchable (fs w) above) as [[] | |]; simpl;
      [| intros [= <- <-]; left; split; [reflexivity | discriminate] ..].
    destruct (fs_find (above ++ [part]) (fs w)) eqn:Hf.
    + intros [= <- <-]. left. split; [reflexivity | discriminate].
    + intros [= <- <-]. right. split; [reflexivity |].
      exists (above ++ [part]). split; [exact Hf | reflexivity].
Qed.

Lemma keeps_os_mkdir p : keeps_cwd (os_mkdir p).
Proof.
  intros w r w' E.
  destruct (os_mkdir_inv _ _ _ _ E) as [[-> _] | (_ & target & _ & ->)]; reflexivity.
Qed.

Lemma keeps_mkdir room p parents exist_ok : keeps_cwd (mkdir room p parents exist_ok).
Proof.
  revert p parents exist_ok. induction room as [| room IH]; intros p parents exist_ok w r w';
    cbn [mkdir]; destruct (os_mkdir p w) as [[[] | c | e] w1] eqn:E;
    try (intros [= <- <-]; exact (keeps_os_mkdir _ _ _ _ E)).
  - destruct (String.eqb e "FileNotFoundError"); [intros [= _ <-]; reflexivity |].
    destruct (negb exist_ok || negb (is_dir w p)); intros [= _ <-]; reflexivity.
  - destruct (String.eqb e "FileNotFoundError").
    + destruct (negb parents || bool_decide (parent p = p)); [intros [= _ <-]; reflexivity |].
      apply keeps_mbind; [apply IH | intros _; apply IH].
    + destruct (negb exist_ok || negb (is_dir w p)); intros [= _ <-]; reflexivity.
Qed.

Lemma keeps_mkdir_parents p : keeps_cwd (mkdir_parents p).
Proof. apply keeps_mkdir. Qed.

Lemma keeps_validate_project_commands `{Runtime} config :
  keeps_cwd (validate_project_commands config).
Proof.
  unfold validate_project_commands.
  apply keeps_mbind; [apply keeps_typed | intros commands].
  apply keeps_mbind; [apply keeps_workflows_of | intros workflows].
  apply keeps_mbind; [apply keeps_when, keeps_print | intros _].
  apply keeps_for_each. intros wf.
  apply keeps_mbind; [apply keeps_when, keeps_print | intros _].
  apply keeps_for_each. intros step. apply keeps_when, keeps_print.
Qed.

Section CwdFacts.
Context `{Digest} `{Parsers} `{Runtime}.

Lemma keeps_substitute config overrides :
  keeps_cwd (substitute_project_variables config overrides).
Proof.
  unfold substitute_project_variables.
  apply keeps_mbind; [apply keeps_typed | intros env_section].
  apply keeps_mbind.
  - intros w r w'. destruct (mapM _ env_section); intros [= _ <-]; reflexivity.
  - intros resolved. destruct (interpolate_config _ _).
    + apply keeps_mret.
    + apply keeps_mbind; [apply keeps_print | intros _].
      apply keeps_mbind; [apply keeps_print | intros _]. apply keeps_sys_exit.
    + apply keeps_raise.
    + apply keeps_raise.
Qed.

Lemma keeps_load_project_config path interpolate overrides :
  keeps_cwd (load_project_config path interpolate overrides).
Proof.
  unfold load_project_config.
  apply keeps_mbind; [apply keeps_lift | intros found].
  apply keeps_mbind; [apply keeps_when, keeps_print | intros _].
  apply keeps_mbind; [apply keeps_lift | intros read].
  apply keeps_mbind.
  { destruct read as [v | c | exc]; [apply keeps_mret | apply keeps_sys_exit |].
    destruct (String.eqb exc "ValueError"); [| apply keeps_raise].
    apply keeps_mbind; [apply keeps_print | intros _; apply keeps_raise]. }
  intros config. apply keeps_mbind; [apply keeps_typed | intros obj].
  destruct (validate ProjectConfigSchema obj).
  - apply keeps_mbind; [apply keeps_validate_project_commands | intros _].
    unfold load_after_checks.
    apply keeps_mbind; [apply keeps_typed | intros subdirs].
    apply keeps_mbind.
    + apply keeps_for_each. intros subdir.
      apply keeps_mbind; [apply keeps_typed | intros dir].
      apply keeps_mbind; [apply keeps_lift | intros present].
      apply keeps_when, keeps_mkdir_parents.
    + intros _. destruct interpolate; [apply keeps_substitute | apply keeps_mret].
  - apply keeps_mbind; [apply keeps_print | intros _].
    apply keeps_mbind; [apply keeps_print | intros _]. apply keeps_sys_exit.
Qed.

Lemma keeps_load_out_of_stack path : keeps_cwd (load_out_of_stack path).
Proof.
  unfold load_out_of_stack.
  apply keeps_mbind; [apply keeps_lift | intros found].
  apply keeps_mbind; [apply keeps_when, keeps_print | intros _].
  apply keeps_mbind; [apply keeps_print | intros _]. apply keeps_raise.
Qed.

Lemma keeps_require_all requirements failed conflicting :
  keeps_cwd (require_all requirements failed conflicting).
Proof.
  revert failed conflicting. induction requirements as [| req rest IH]; intros f c; simpl.
  - apply keeps_mret.
  - destruct (pkg_require req); try apply IH. apply keeps_raise.
Qed.

Lemma keeps_project_run_setup dir subcommand overrides :
  keeps_cwd (project_run_setup dir subcommand overrides).
Proof.
  unfold project_run_setup.
  apply keeps_mbind; [apply keeps_load_project_config | intros config].
  apply keeps_mbind; [apply keeps_typed | intros command_list].
  apply keeps_mbind; [apply keeps_workflows_of | intros workflows].
  apply keeps_mbind.
  { unfold validate_subcommand.
    apply keeps_mbind; [apply keeps_when, keeps_fail_exit | intros _].
    apply keeps_when. apply keeps_mbind; [apply keeps_print | intros _].
    apply keeps_fail_exit. }
  intros _. apply keeps_mbind; [apply keeps_lift | intros req_found].
  apply keeps_mbind; [| intros _; apply keeps_mret].
  apply keeps_when. apply keeps_mbind; [apply keeps_lift | intros requirements_file].
  apply keeps_mbind; [| intros _; apply keeps_mret].
  unfold _check_requirements.
  apply keeps_mbind; [apply keeps_require_all | intros msgs].
  apply keeps_mbind; [| intros _; apply keeps_mret].
  apply keeps_when. apply keeps_mbind; [apply keeps_print | intros _].
  apply keeps_for_each. intros text. apply keeps_print.
Qed.

Lemma keeps_run_single_deps dir subcommand (cmd : ProjectConfigCommand) dry :
  keeps_cwd (for_each (default [] (deps cmd)) (fun dep =>
     present <- lift (fun w => Ok (path_exists w (joinpath dir dep))) ;;
     when (negb present)
       (print ("Missing dependency specified by command '" +:+ subcommand +:+ "': "
               +:+ dep) ;;
        print "Maybe you forgot to run the 'project assets' command or a previous step?" ;;
        if negb dry then sys_exit 1 else mret tt))%M).
Proof.
  apply keeps_for_each. intros dep.
  apply keeps_mbind; [apply keeps_lift | intros present].
  apply keeps_when. apply keeps_mbind; [apply keeps_print | intros _].
  apply keeps_mbind; [apply keeps_print | intros _].
  destruct (negb dry); [apply keeps_sys_exit | apply keeps_mret].
Qed.

Lemma restores_project_run depth dir subcommand overrides force dry capture :
  restores_cwd (project_run depth dir subcommand overrides force dry capture).
Proof.
  revert subcommand. induction depth as [| depth IH]; intros subcommand; simpl.
  - apply keeps_restores, keeps_mbind; [apply keeps_load_out_of_stack | intros _].
    apply keeps_mret.
  - apply restores_mbind; [apply keeps_restores, keeps_project_run_setup |].
    intros [commands workflows]. simpl.
    destruct (dict_get subcommand workflows) as [steps |].
    + apply restores_mbind; [apply keeps_restores, keeps_print | intros _].
      apply restores_for_each. intros cmd. apply IH.
    + apply restores_mbind.
      { apply keeps_restores. destruct (dict_get subcommand commands);
          [apply keeps_mret | apply keeps_raise]. }
      intros cmd. unfold run_single.
      apply restores_mbind; [apply keeps_restores, keeps_run_single_deps | intros _].
      apply restores_working_dir.
Qed.
End CwdFacts.

Section WorkingDirectory.
Context `{Digest} `{Parsers} `{Runtime}.

(** C10 (amended).  Whatever the block does and however it ends --
    normally, with [sys.exit], with an exception, or after entering
    [working_dir] again -- the working directory in effect at entry is in
    effect again after [working_dir] whenever it is still a directory
    when the block has ended, and whenever [working_dir] does not end in
    an exception; the outcome of the block is then the outcome of
    [working_dir], which changes nothing else.  The same holds of a run
    of [project_run], however deep its workflows go: a step never hands
    another directory to the next one. *)
Theorem working_dir_restores :
  (forall A (path : Path) (body : Path -> M A) w,
     normal (cwd w) ->
     (forall r w',
        working_dir path body w = (r, w') ->
        (forall e, r <> Raise e) \/ fs_find (cwd w) (fs w') = Some Dir ->
        cwd w' = cwd w)
     /\ (forall r w1,
           is_dir w (cwd w) = true ->
           is_dir w path = true ->
           body (resolve (cwd w) path)
                (World (fs w) (resolve (cwd w) path) (environ w) (trace w)) = (r, w1) ->
           fs_find (cwd w) (fs w1) = Some Dir ->
           working_dir path body w = (r, World (fs w1) (cwd w) (environ w1) (trace w1))))
  /\ (forall depth dir subcommand overrides force dry capture w r w',
        normal (cwd w) ->
        project_run depth dir subcommand overrides force dry capture w = (r, w') ->
        (forall e, r <> Raise e) \/ fs_find (cwd w) (fs w') = Some Dir ->
        cwd w' = cwd w).
Proof.
  split.
  - intros A path body w Hn. split.
    + intros r w' E Hr. exact (restores_working_dir path body w r w' Hn E Hr).
    + exact (proj2 (working_dir_scoped path body w Hn)).
  - intros depth dir subcommand overrides force dry capture.
    exact (restores_project_run depth dir subcommand overrides force dry capture).
Qed.
End WorkingDirectory.

(** From [/proj] into [data], from there into [/], and out of both by
    [sys.exit(3)]: the working directory is [/proj] again. *)
Lemma working_dir_restores_witness :
  working_dir ["data"] (fun _ => working_dir ["/"] (fun _ => sys_exit (A := unit) 3))
              data_world
  = (Exit 3, data_world).
Proof.
  destruct (working_dir_restores (H := reference_digest) (H0 := Demo.parsers)
              (H1 := Demo.runtime)) as [Hscoped _].
  destruct (Hscoped unit ["data"]
              (fun _ => working_dir ["/"] (fun _ => sys_exit (A := unit) 3)) data_world)
    as [_ Heq].
  { apply (bool_decide_unpack _). vm_compute. exact I. }
  rewrite (Heq (Exit 3) (World (fs data_world) ["/"; "proj"; "data"] ∅ []));
    reflexivity.
Defined.

(** C10 as stated fails: entered from [/proj/data], a block that
    removes that directory ends normally, but the change back raises,
    and the working directory stays [/proj], the directory of the
    block. *)
Lemma working_dir_counterexample :
  working_dir proj (fun _ => set_fs disk_without_data) inside_data_world
  = (Raise "FileNotFoundError", World disk_without_data proj ∅ [])
  /\ cwd inside_data_world = ["/"; "proj"; "data"]
  /\ proj <> cwd inside_data_world.
Proof. split; [vm_compute; reflexivity | split; [reflexivity | discriminate]]. Qed.

(** ** The example of the specification *)

(** The first run executes the script, the second one is skipped, and
    after [src.txt] is edited the third one executes it again. *)
Example rerun_scenario :
  spawned (run_build build_world) = [["touch"; "out.txt"]]
  /\ spawned (run_build (run_build build_world)) = [["touch"; "out.txt"]]
  /\ spawned (run_build (edit_src (run_build (run_build build_world))))
     = [["touch"; "out.txt"]; ["touch"; "out.txt"]].
Proof. vm_compute. repeat split; reflexivity. Qed.

(** ** What a computation may change *)

#[global] Instance adds_directories_preorder : PreOrder adds_directories.
Proof.
  split.
  - intros disk. exists []. simpl. rewrite app_nil_r. reflexivity.
  - intros d1 d2 d3 [l1 ->] [l2 ->]. exists (l1 ++ l2).
    rewrite map_app, app_assoc. reflexivity.
Qed.

#[global] Instance any_change_preorder : PreOrder any_change.
Proof. split; [intros ? | intros ? ? ? _ _]; exact I. Qed.

Lemma spawned_print w text :
  spawned (World (fs w) (cwd w) (environ w) (trace w ++ [Print text])) = spawned w.
Proof. unfold spawned. simpl. rewrite omap_app. simpl. apply app_nil_r. Qed.

Lemma spawned_spawn w argv :
  spawned (World (fs w) (cwd w) (environ w) (trace w ++ [Spawn argv])) = spawned w ++ [argv].
Proof. unfold spawned. simpl. rewrite omap_app. reflexivity. Qed.

Section Confined.
Context (D : relation filesystem) `{!PreOrder D} (P : list string -> Prop).

Lemma confined_same {A} (m : M A) :
  (forall w r w', m w = (r, w') ->
     environ w' = environ w /\ fs w' = fs w /\ spawned w' = spawned w) ->
  confined D P m.
Proof.
  intros Hm w r w' E. destruct (Hm w r w' E) as (He & Hf & Hs).
  split; [exact He |]. split; [rewrite Hf; reflexivity |].
  exists []. rewrite app_nil_r. split; [exact Hs | constructor].
Qed.

Lemma confined_mret {A} (a : A) : confined D P (mret a).
Proof. apply confined_same. intros w r w' [= _ <-]. auto. Qed.

Lemma confined_lift {A} (f : world -> result A) : confined D P (lift f).
Proof. apply confined_same. intros w r w' [= _ <-]. auto. Qed.

Lemma confined_raise {A} exc : confined D P (raise (A := A) exc).
Proof. apply confined_same. intros w r w' [= _ <-]. auto. Qed.

Lemma confined_sys_exit {A} code : confined D P (sys_exit (A := A) code).
Proof. apply confined_same. intros w r w' [= _ <-]. auto. Qed.

Lemma confined_print text : confined D P (print text).
Proof.
  apply confined_same. intros w r w' [= _ <-].
  rewrite spawned_print. auto.
Qed.

Lemma confined_spawn argv : P argv -> confined D P (emit (Spawn argv)).
Proof.
  intros HP w r w' [= _ <-]. split; [reflexivity |]. split; [reflexivity |].
  exists [argv]. rewrite spawned_spawn. split; [reflexivity |].
  constructor; [exact HP | constructor].
Qed.

Lemma confined_set_fs (disk : world -> filesystem) :
  (forall w, D (fs w) (disk w)) -> confined D P (fun w => set_fs (disk w) w).
Proof.
  intros HD w r w' [= _ <-]. split; [reflexivity |]. split; [apply HD |].
  exists []. rewrite app_nil_r. split; [reflexivity | constructor].
Qed.

Lemma confined_mbind {A B} (m : M A) (f : A -> M B) :
  confined D P m -> (forall a, confined D P (f a)) -> confined D P (mbind m f).
Proof.
  intros Hm Hf w r w'. unfold mbind. destruct (m w) as [[a | c | e] w1] eqn:E.
  - intros E'. destruct (Hm _ _ _ E) as (He & Hd & n1 & Hs & Hp).
    destruct (Hf a _ _ _ E') as (He' & Hd' & n2 & Hs' & Hp').
    split; [congruence |]. split; [etransitivity; eassumption |].
    exists (n1 ++ n2). rewrite Hs', Hs, app_assoc. split; [reflexivity |].
    apply Forall_app. split; assumption.
  - intros [= <- <-]. exact (Hm _ _ _ E).
  - intros [= <- <-]. exact (Hm _ _ _ E).
Qed.

Lemma confined_for_each {A} (l : list A) (body : A -> M unit) :
  (forall x, confined D P (body x)) -> confined D P (for_each l body).
Proof.
  intros Hbody. induction l as [| x l IH]; simpl.
  - apply confined_mret.
  - apply confined_mbind; [apply Hbody | intros _; exact IH].
Qed.

Lemma confined_when b (m : M unit) : confined D P m -> confined D P (when b m).
Proof. intros Hm. destruct b; [exact Hm | apply confined_mret]. Qed.

Lemma confined_typed {A} (o : option A) : confined D P (typed o).
Proof. destruct o; [apply confined_mret | apply confined_raise]. Qed.

Lemma confined_workflows_of config : confined D P (workflows_of config).
Proof.
  unfold workflows_of. destruct (dict_get "workflows" config) as [[] |];
    first [apply confined_typed | apply confined_raise].
Qed.

Lemma confined_fail_exit {A} text : confined D P (fail_exit (A := A) text).
Proof.
  unfold fail_exit.
  apply confined_mbind; [apply confined_print | intros _; apply confined_sys_exit].
Qed.

Lemma confined_getcwd : confined D P getcwd.
Proof.
  apply confined_same. intros w r w'. unfold getcwd.
  destruct (is_dir w (cwd w)); intros [= _ <-]; auto.
Qed.

Lemma confined_chdir p : confined D P (chdir p).
Proof.
  apply confined_same. intros w r w'. unfold chdir.
  destruct (stat w p) as [[| |] |]; intros [= _ <-]; auto.
Qed.

Lemma confined_try_finally {A} (body : M A) (cleanup : M unit) :
  confined D P body -> confined D P cleanup -> confined D P (try_finally body cleanup).
Proof.
  intros Hb Hc w r w'. unfold try_finally.
  destruct (body w) as [rb w1] eqn:Eb. destruct (cleanup w1) as [rc w2] eqn:Ec.
  destruct (Hb _ _ _ Eb) as (He & Hd & n1 & Hs & Hp).
  destruct (Hc _ _ _ Ec) as (He' & Hd' & n2 & Hs' & Hp').
  assert (Hall : environ w2 = environ w /\ D (fs w) (fs w2)
                 /\ exists started, spawned w2 = spawned w ++ started /\ Forall P started).
  { split; [congruence |]. split; [etransitivity; eassumption |].
    exists (n1 ++ n2). rewrite Hs', Hs, app_assoc. split; [reflexivity |].
    apply Forall_app. split; assumption. }
  destruct rc as [[] | c | e]; intros [= _ <-]; exact Hall.
Qed.

Lemma confined_working_dir {A} path (body : Path -> M A) :
  (forall current, confined D P (body current)) -> confined D P (working_dir path body).
Proof.
  intros Hbody. unfold working_dir.
  apply confined_mbind; [apply confined_getcwd | intros prev].
  apply confined_mbind; [apply confined_lift | intros current].
  apply confined_mbind; [apply confined_chdir | intros _].
  apply confined_try_finally; [apply Hbody | apply confined_chdir].
Qed.

Lemma confined_validate_subcommand commands workflows subcommand :
  confined D P (validate_subcommand commands workflows subcommand).
Proof.
  unfold validate_subcommand.
  apply confined_mbind; [apply confined_when, confined_fail_exit | intros _].
  apply confined_when. apply confined_mbind; [apply confined_print | intros _].
  apply confined_fail_exit.
Qed.
End Confined.

(** Applies a closure lemma of [confined] and settles that the relation
    on disks is a preorder. *)
Tactic Notation "confine" uconstr(lem) :=
  apply lem; try (match goal with |- PreOrder _ => exact _ end).

Section ConfinedEngine.
Context `{Digest} `{Parsers} `{Runtime}.
Context (D : relation filesystem) `{!PreOrder D} (P : list string -> Prop).
Hypothesis D_mkdir : forall disk p, D disk (disk ++ [(p, Dir)]).

Lemma confined_os_mkdir p : confined D P (os_mkdir p).
Proof.
  intros w r w' E.
  destruct (os_mkdir_inv _ _ _ _ E) as [[-> _] | (_ & target & _ & ->)].
  - split; [reflexivity |]. split; [reflexivity |].
    exists []. rewrite app_nil_r. split; [reflexivity | constructor].
  - split; [reflexivity |]. split; [apply D_mkdir |].
    exists []. rewrite app_nil_r. split; [reflexivity | constructor].
Qed.

Lemma confined_mkdir room p parents exist_ok :
  confined D P (mkdir room p parents exist_ok).
Proof.
  assert (Hstay : forall (r0 : result unit) w0 r w', (r0, w0) = (r, w') ->
            environ w' = environ w0 /\ D (fs w0) (fs w')
            /\ exists started, spawned w' = spawned w0 ++ started /\ Forall P started).
  { intros r0 w0 r w' [= _ <-]. split; [reflexivity |]. split; [reflexivity |].
    exists []. rewrite app_nil_r. split; [reflexivity | constructor]. }
  revert p parents exist_ok. induction room as [| room IH]; intros p parents exist_ok w r w';
    cbn [mkdir]; destruct (os_mkdir p w) as [[[] | c | e] w1] eqn:E;
    try (intros [= <- <-]; exact (confined_os_mkdir _ _ _ _ E)).
  - destruct (String.eqb e "FileNotFoundError"); [apply Hstay |].
    destruct (negb exist_ok || negb (is_dir w p)); apply Hstay.
  - destruct (String.eqb e "FileNotFoundError").
    + destruct (negb parents || bool_decide (parent p = p)); [apply Hstay |].
      confine confined_mbind; [apply IH | intros _; apply IH].
    + destruct (negb exist_ok || negb (is_dir w p)); apply Hstay.
Qed.

Lemma confined_mkdir_parents p : confined D P (mkdir_parents p).
Proof. apply confined_mkdir. Qed.

Lemma confined_validate_project_commands config :
  confined D P (validate_project_commands config).
Proof.
  unfold validate_project_commands.
  confine confined_mbind; [confine confined_typed | intros commands].
  confine confined_mbind; [confine confined_workflows_of | intros workflows].
  confine confined_mbind; [confine confined_when; confine confined_print | intros _].
  confine confined_for_each. intros wf.
  confine confined_mbind; [confine confined_when; confine confined_print | intros _].
  confine confined_for_each. intros step. confine confined_when. confine confined_print.
Qed.

Lemma confined_substitute config overrides :
  confined D P (substitute_project_variables config overrides).
Proof.
  unfold substitute_project_variables.
  confine confined_mbind; [confine confined_typed | intros env_section].
  confine confined_mbind; [|].
  - confine confined_same. intros w r w'.
    destruct (mapM _ env_section); intros [= _ <-]; auto.
  - intros resolved. destruct (interpolate_config _ _).
    + confine confined_mret.
    + confine confined_mbind; [confine confined_print | intros _].
      confine confined_mbind; [confine confined_print | intros _].
      confine confined_sys_exit.
    + confine confined_raise.
    + confine confined_raise.
Qed.

Lemma confined_load_project_config path interpolate overrides :
  confined D P (load_project_config path interpolate overrides).
Proof.
  unfold load_project_config.
  confine confined_mbind; [confine confined_lift | intros found].
  confine confined_mbind; [confine confined_when; confine confined_print | intros _].
  confine confined_mbind; [confine confined_lift | intros read].
  confine confined_mbind; [|].
  { destruct read as [v | c | exc];
      [confine confined_mret | confine confined_sys_exit |].
    destruct (String.eqb exc "ValueError"); [| confine confined_raise].
    confine confined_mbind;
      [confine confined_print | intros _; confine confined_raise]. }
  intros config.
  confine confined_mbind; [confine confined_typed | intros obj].
  destruct (validate ProjectConfigSchema obj).
  - confine confined_mbind;
      [confine confined_validate_project_commands | intros _].
    unfold load_after_checks.
    confine confined_mbind; [confine confined_typed | intros subdirs].
    confine confined_mbind; [|].
    + confine confined_for_each. intros subdir.
      confine confined_mbind; [confine confined_typed | intros dir].
      confine confined_mbind; [confine confined_lift | intros present].
      confine confined_when; apply confined_mkdir_parents.
    + intros _. destruct interpolate;
        [apply confined_substitute | confine confined_mret].
  - confine confined_mbind; [confine confined_print | intros _].
    confine confined_mbind; [confine confined_print | intros _].
    confine confined_sys_exit.
Qed.

Lemma confined_require_all requirements failed conflicting :
  confined D P (require_all requirements failed conflicting).
Proof.
  revert failed conflicting. induction requirements as [| req rest IH]; intros f c; simpl.
  - confine confined_mret.
  - destruct (pkg_require req); try apply IH. confine confined_raise.
Qed.

Lemma confined_check_requirements requirements :
  confined D P (_check_requirements requirements).
Proof.
  unfold _check_requirements.
  confine confined_mbind; [apply confined_require_all | intros msgs].
  confine confined_mbind; [| intros _; confine confined_mret].
  confine confined_when.
  confine confined_mbind; [confine confined_print | intros _].
  confine confined_for_each. intros text. confine confined_print.
Qed.

Lemma confined_project_run_setup dir subcommand overrides :
  confined D P (project_run_setup dir subcommand overrides).
Proof.
  unfold project_run_setup.
  confine confined_mbind; [apply confined_load_project_config | intros config].
  confine confined_mbind; [confine confined_typed | intros command_list].
  confine confined_mbind; [confine confined_workflows_of | intros workflows].
  confine confined_mbind; [confine confined_validate_subcommand | intros _].
  confine confined_mbind; [confine confined_lift | intros req_found].
  confine confined_mbind; [| intros _; confine confined_mret].
  confine confined_when.
  confine confined_mbind; [confine confined_lift | intros requirements_file].
  confine confined_mbind;
    [apply confined_check_requirements | intros _; confine confined_mret].
Qed.

Variable dry : bool.
Hypothesis confined_script :
  forall lines silent capture, confined D P (run_commands lines silent dry capture).
Hypothesis confined_lock :
  dry = false -> forall dir c, confined D P (update_lockfile dir c).

Lemma confined_run_single dir subcommand cmd force capture :
  confined D P (run_single dir subcommand cmd force dry capture).
Proof.
  unfold run_single.
  confine confined_mbind; [| intros _].
  { confine confined_for_each. intros dep.
    confine confined_mbind; [confine confined_lift | intros present].
    confine confined_when.
    confine confined_mbind; [confine confined_print | intros _].
    confine confined_mbind; [confine confined_print | intros _].
    destruct (negb dry); [confine confined_sys_exit | confine confined_mret]. }
  confine confined_working_dir. intros current.
  confine confined_mbind; [confine confined_print | intros _].
  confine confined_mbind; [confine confined_lift | intros rerun].
  destruct (negb rerun && negb force); [confine confined_print |].
  confine confined_mbind; [| intros lines].
  { destruct (script cmd); [confine confined_mret | confine confined_raise]. }
  confine confined_mbind; [apply confined_script | intros _].
  destruct dry; simpl; [confine confined_mret | apply confined_lock; reflexivity].
Qed.

Lemma confined_project_run depth dir subcommand overrides force capture :
  confined D P (project_run depth dir subcommand overrides force dry capture).
Proof.
  revert subcommand. induction depth as [| depth IH]; intros subcommand; simpl.
  - confine confined_mbind; [| intros _; confine confined_mret].
    unfold load_out_of_stack.
    confine confined_mbind; [confine confined_lift | intros found].
    confine confined_mbind; [confine confined_when; confine confined_print | intros _].
    confine confined_mbind; [confine confined_print | intros _]. confine confined_raise.
  - confine confined_mbind; [apply confined_project_run_setup |].
    intros [commands workflows]. simpl.
    destruct (dict_get subcommand workflows) as [steps |].
    + confine confined_mbind; [confine confined_print | intros _].
      confine confined_for_each. intros cmd. apply IH.
    + confine confined_mbind; [| intros cmd; apply confined_run_single].
      destruct (dict_get subcommand commands);
        [confine confined_mret | confine confined_raise].
Qed.
End ConfinedEngine.

Lemma adds_directories_mkdir disk p : adds_directories disk (disk ++ [(p, Dir)]).
Proof. exists [p]. reflexivity. Qed.

Lemma fs_find_app p (d1 d2 : filesystem) :
  fs_find p (d1 ++ d2) = match fs_find p d1 with Some n => Some n | None => fs_find p d2 end.
Proof.
  induction d1 as [| [q n] d1 IH]; simpl; [reflexivity |].
  destruct (decide (p = q)); [reflexivity | exact IH].
Qed.

Lemma fs_find_dirs p (dirs : list Path) :
  fs_find p (map (fun q => (q, Dir)) dirs) = None
  \/ fs_find p (map (fun q => (q, Dir)) dirs) = Some Dir.
Proof.
  induction dirs as [| q dirs IH]; simpl; [left; reflexivity |].
  destruct (decide (p = q)); [right; reflexivity | exact IH].
Qed.

(** Adding directories keeps every entry, and adds no regular file. *)
Lemma adds_directories_keeps disk disk' p n :
  adds_directories disk disk' -> fs_find p disk = Some n -> fs_find p disk' = Some n.
Proof. intros [dirs ->] Hf. rewrite fs_find_app, Hf. reflexivity. Qed.

Lemma adds_directories_files disk disk' p data yaml :
  adds_directories disk disk' ->
  fs_find p disk' = Some (File data yaml) <-> fs_find p disk = Some (File data yaml).
Proof.
  intros [dirs ->]. rewrite fs_find_app.
  destruct (fs_find p disk) as [n |]; [tauto |].
  destruct (fs_find_dirs p dirs) as [-> | ->]; split; discriminate.
Qed.

Lemma no_child_started (started : list (list string)) : Forall no_child started -> started = [].
Proof. destruct 1 as [| argv rest []]. reflexivity. Qed.

Section Quiet.
Context `{Digest} `{Parsers} `{Runtime}.

(** X1.  Loading the manifest starts no child process, leaves the
    working directory and the environment as they are, and changes the
    disk only by adding directories: no entry of the disk is changed or
    removed and no file is written, however the load ends. *)
Theorem load_only_adds_directories path interpolate overrides w :
  let w' := (load_project_config path interpolate overrides w).2 in
  cwd w' = cwd w /\ environ w' = environ w /\ spawned w' = spawned w
  /\ adds_directories (fs w) (fs w').
Proof.
  destruct (load_project_config path interpolate overrides w) as [r w'] eqn:E. simpl.
  split; [exact (keeps_load_project_config _ _ _ _ _ _ E) |].
  destruct (confined_load_project_config adds_directories no_child adds_directories_mkdir
              _ _ _ _ _ _ E) as (He & Hd & started & Hs & Hp).
  rewrite (no_child_started _ Hp), app_nil_r in Hs. auto.
Qed.

Lemma confined_run_commands_dry (D : relation filesystem) `{!PreOrder D} P lines silent capture :
  confined D P (run_commands lines silent true capture).
Proof.
  unfold run_commands. confine confined_for_each. intros c.
  confine confined_mbind; [| intros command].
  { unfold split_command. destruct (shlex_split c);
      [confine confined_mret | confine confined_raise]. }
  confine confined_mbind; [confine confined_when; confine confined_print | intros _].
  simpl. confine confined_mret.
Qed.

(** X2.  A dry run starts no child process and writes no file, the
    lockfile included: the only change of the disk is the creation of
    directories the manifest declares, so every regular file of the disk
    after the run is a file of the disk before it, with the same
    content, and the other way round. *)
Theorem dry_run_starts_nothing depth dir subcommand overrides force capture w :
  let w' := (project_run depth dir subcommand overrides force true capture w).2 in
  spawned w' = spawned w
  /\ environ w' = environ w
  /\ adds_directories (fs w) (fs w')
  /\ forall p data yaml,
       fs_find p (fs w') = Some (File data yaml) <-> fs_find p (fs w) = Some (File data yaml).
Proof.
  destruct (project_run depth dir subcommand overrides force true capture w) as [r w'] eqn:E.
  simpl.
  destruct (confined_project_run adds_directories no_child adds_directories_mkdir true
              (confined_run_commands_dry adds_directories no_child)
              ltac:(discriminate) _ _ _ _ _ _ _ _ _ E) as (He & Hd & started & Hs & Hp).
  rewrite (no_child_started _ Hp), app_nil_r in Hs.
  split; [exact Hs |]. split; [exact He |]. split; [exact Hd |].
  intros p data yaml. apply adds_directories_files. exact Hd.
Qed.

Lemma aliased_no_alias (command : list string) :
  ~ In sys_executable interpreter_aliases ->
  no_alias match command with
           | prog :: args =>
               if str_in prog ["python"; "python3"] then sys_executable :: args
               else if str_in prog ["pip"; "pip3"]
                    then sys_executable :: "-m" :: "pip" :: args
                    else command
           | [] => command
           end.
Proof.
  intros Hexe. destruct command as [| prog args]; [intros p [=] |].
  destruct (str_in prog ["python"; "python3"]) eqn:Hpy; [intros p [= <-]; exact Hexe |].
  destruct (str_in prog ["pip"; "pip3"]) eqn:Hpip; [intros p [= <-]; exact Hexe |].
  intros p [= <-] Hin.
  assert (Hn1 : ~ In prog ["python"; "python3"])
    by (rewrite <- str_in_In, Hpy; discriminate).
  assert (Hn2 : ~ In prog ["pip"; "pip3"])
    by (rewrite <- str_in_In, Hpip; discriminate).
  simpl in Hin, Hn1, Hn2. tauto.
Qed.

Lemma confined_mbind_mret {A B} D P (a : A) (f : A -> M B) :
  confined D P (f a) -> confined D P (mbind (mret a) f).
Proof. intros Hf w r w' E. exact (Hf w r w' E). Qed.

Lemma confined_run_command P argv capture :
  P argv -> confined any_change P (run_command (CmdList argv) capture).
Proof.
  intros HP. unfold run_command. apply confined_mbind_mret.
  confine confined_mbind; [confine confined_spawn; exact HP | intros _].
  confine confined_mbind; [confine confined_lift | intros [returncode stdout disk | exc]].
  - confine confined_mbind;
      [confine (confined_set_fs any_change P (fun _ => disk)); intros; exact I | intros _].
    destruct (negb (returncode =? 0) && capture); [confine confined_raise |].
    destruct (negb (returncode =? 0)); [confine confined_sys_exit | confine confined_mret].
  - confine confined_raise.
Qed.

Lemma confined_run_commands lines silent dry capture :
  ~ In sys_executable interpreter_aliases ->
  confined any_change (fun argv => started_for_a_line argv /\ no_alias argv)
           (run_commands lines silent dry capture).
Proof.
  intros Hexe. unfold run_commands. confine confined_for_each. intros c.
  unfold split_command. destruct (shlex_split c) as [parts |] eqn:Hsplit.
  2: { intros w r w' E. exact (confined_raise any_change _ "ValueError" w r w' E). }
  apply confined_mbind_mret.
  confine confined_mbind; [confine confined_when; confine confined_print | intros _].
  destruct (negb dry); [| confine confined_mret].
  confine confined_mbind; [| intros _; confine confined_mret].
  apply confined_run_command. split.
  - exists c, parts. split; [exact Hsplit | reflexivity].
  - apply aliased_no_alias, Hexe.
Qed.

Lemma confined_write_yaml P p v : confined any_change P (write_yaml p v).
Proof.
  intros w r w'. unfold write_yaml.
  destruct (rbind _ _) as [target | c | e];
    [| apply (confined_sys_exit any_change P) | apply (confined_raise any_change P)].
  destruct (fs_find target (fs w)) as [[| |] |];
    first [ apply (confined_raise any_change P)
          | apply (confined_set_fs any_change P
                     (fun w => fs_put target (File (yaml_dump v) (Some v)) (fs w)));
            intros; exact I ].
Qed.

Lemma confined_update_lockfile P dir c : confined any_change P (update_lockfile dir c).
Proof.
  unfold update_lockfile.
  confine confined_mbind; [confine confined_lift | intros present].
  confine confined_mbind; [| intros data].
  { destruct (negb present); [| confine confined_lift].
    confine confined_mbind; [apply confined_write_yaml | intros _; confine confined_mret]. }
  confine confined_mbind; [confine confined_lift | intros entry].
  confine confined_mbind; [confine confined_typed | intros data'].
  apply confined_write_yaml.
Qed.

End Quiet.


(** ** Subcommands *)

Lemma validate_subcommand_known commands workflows subcommand w :
  In subcommand commands \/ In subcommand workflows ->
  validate_subcommand commands workflows subcommand w = (Ok tt, w).
Proof.
  intros Hin. unfold validate_subcommand.
  assert (Hsome : match commands, workflows with [], [] => true | _, _ => false end = false).
  { destruct commands, workflows; try reflexivity. destruct Hin as [[] | []]. }
  assert (Hfound : negb (str_in subcommand commands) && negb (str_in subcommand workflows)
                   = false).
  { destruct Hin as [Hin | Hin]; apply str_in_In in Hin; rewrite Hin;
      [reflexivity | apply andb_false_r]. }
  rewrite Hsome, Hfound. reflexivity.
Qed.

Lemma validate_subcommand_unknown commands workflows subcommand w :
  ~ In subcommand commands -> ~ In subcommand workflows ->
  exists messages,
    messages <> []
    /\ validate_subcommand commands workflows subcommand w = (Exit 1, add_prints messages w).
Proof.
  intros Hc Hw. unfold validate_subcommand.
  assert (Hfound : negb (str_in subcommand commands) && negb (str_in subcommand workflows)
                   = true).
  { rewrite <- str_in_In in Hc, Hw.
    destruct (str_in subcommand commands), (str_in subcommand workflows);
      try reflexivity; exfalso; auto. }
  rewrite Hfound.
  destruct (match commands, workflows with [], [] => true | _, _ => false end).
  - eexists [_]. split; [discriminate | reflexivity].
  - eexists [_; _]. split; [discriminate |].
    cbv beta iota delta [when mbind mret fail_exit print emit sys_exit add_prints].
    cbn [fs cwd environ trace map]. rewrite <- app_assoc. reflexivity.
Qed.

Lemma dict_update_keys {V} (d other : list (string * V)) k :
  In k (dict_keys (dict_update d other)) <-> In k (dict_keys d) \/ In k (map fst other).
Proof.
  unfold dict_update. revert d. induction other as [| [k0 v0] other IH]; intros d; simpl.
  - tauto.
  - rewrite IH, dict_set_keys. intuition congruence.
Qed.

Lemma commands_by_name_keys commands k :
  In k (dict_keys (commands_by_name commands)) <-> In k (map name commands).
Proof.
  unfold commands_by_name. rewrite dict_update_keys, map_map. simpl. tauto.
Qed.

Section Subcommands.
Context `{Digest} `{Parsers} `{Runtime}.

End Subcommands.


(** ** Script lines *)

Section ScriptFacts.
Context `{Digest} `{Parsers} `{Runtime}.

(** X5.  The lines of a script run in order, and the first line whose
    child exits with a status other than 0 ends the run at once: with
    that same status, or with a [SubprocessError] when the output is
    captured.  The lines after it are neither announced nor started, and
    the state is the one the failed child left. *)
Theorem script_stops_at_first_failure done line rest silent capture w w1
    argv returncode stdout disk :
  run_commands done silent false capture w = (Ok tt, w1) ->
  shlex_split line = Some argv ->
  subprocess_run (aliased argv) (environ w1) (cwd w1) capture (fs w1)
  = Completed returncode stdout disk ->
  returncode <> 0 ->
  run_commands (done ++ line :: rest) silent false capture w
  = (if capture then Raise "SubprocessError" else Exit returncode,
     World disk (cwd w1) (environ w1)
       (trace w1
        ++ (if silent then []
            else [Print ("Running command: " +:+ join_command (aliased argv))])
        ++ [Spawn (aliased argv)])).
Proof.
  intros Hdone Hsplit Hrun Hrc. unfold run_commands.
  apply (for_each_fail_fast done rest line _ w w1); [exact Hdone | |].
  - unfold split_command. rewrite Hsplit.
    rewrite (mbind_step _ _ w1 argv w1) by reflexivity.
    fold (aliased argv).
    set (w2 := add_prints (if negb silent
                           then ["Running command: " +:+ join_command (aliased argv)]
                           else []) w1).
    rewrite (mbind_step _ _ w1 tt w2) by apply when_print.
    change (negb false) with true. cbv iota.
    unfold mbind at 1.
    rewrite (run_command_failure (aliased argv) capture w2 returncode stdout disk);
      [| exact Hrun | exact Hrc].
    destruct capture, silent; simpl; rewrite <- ?app_assoc, ?app_nil_r; reflexivity.
  - destruct capture; discriminate.
Qed.

Lemma check_rerun_false_entry w dir c :
  check_rerun w dir c = Ok false -> exists fresh, get_lock_entry w dir c = Ok fresh.
Proof.
  unfold check_rerun.
  destruct (default false (no_skip c)); [discriminate |].
  destruct (negb (path_exists w (joinpath dir PROJECT_LOCK))); [discriminate |].
  destruct (read_yaml w (joinpath dir PROJECT_LOCK)) as [data | |]; simpl; try discriminate.
  destruct (lock_lookup data (name c)) as [[entry |] | |]; simpl; try discriminate.
  destruct (entry_outs entry) as [outs | |]; simpl; try discriminate.
  destruct (negb (truthy outs)); [discriminate |].
  destruct (get_lock_entry w dir c) as [fresh | |]; simpl; try discriminate.
  intros _. exists fresh. reflexivity.
Qed.

Lemma get_lock_entry_script w dir c fresh :
  get_lock_entry w dir c = Ok fresh -> script c <> None.
Proof.
  unfold get_lock_entry.
  destruct (get_fileinfo w dir (default [] (deps c))); simpl; try discriminate.
  destruct (get_fileinfo w dir (default [] (outputs c))); simpl; try discriminate.
  destruct (get_fileinfo w dir (default [] (outputs_no_cache c))); simpl; try discriminate.
  destruct (script c); simpl; [discriminate | discriminate].
Qed.

Lemma try_finally_ok {A} (body : M A) (cleanup : M unit) w a w' :
  try_finally body cleanup w = (Ok a, w') -> exists w1, body w = (Ok a, w1).
Proof.
  unfold try_finally. destruct (body w) as [rb w1].
  destruct (cleanup w1) as [[[] | c | e] w2]; intros [= -> _]; try discriminate.
  exists w1. reflexivity.
Qed.

(** X6.  A command that declares no [script] can never be run to a
    normal end, forced, dry or neither, although the schema accepts it:
    the run ends in an exit or an exception (a [KeyError] where nothing
    else fails first), and it is never skipped either. *)
Theorem command_without_script_fails dir subcommand cmd force dry capture w :
  script cmd = None ->
  (run_single dir subcommand cmd force dry capture w).1 <> Ok tt.
Proof.
  intros Hscript.
  destruct (run_single dir subcommand cmd force dry capture w) as [r w'] eqn:E.
  simpl. intros ->. unfold run_single in E.
  apply mbind_ok in E as ([] & w1 & _ & E).
  unfold working_dir in E.
  apply mbind_ok in E as (prev & w2 & _ & E).
  apply mbind_ok in E as (current & w3 & _ & E).
  apply mbind_ok in E as ([] & w4 & _ & E).
  apply try_finally_ok in E as (w5 & E).
  apply mbind_ok in E as ([] & w6 & _ & E).
  apply mbind_ok in E as (rerun & w7 & Hrerun & E).
  unfold lift in Hrerun. injection Hrerun as Hrerun <-.
  destruct rerun.
  - simpl in E. rewrite Hscript in E. discriminate E.
  - apply check_rerun_false_entry in Hrerun as (fresh & Hfresh).
    exact (get_lock_entry_script _ _ _ _ Hfresh Hscript).
Qed.

Lemma path_exists_add_prints messages w p :
  path_exists (add_prints messages w) p = path_exists w p.
Proof.
  unfold path_exists.
  rewrite (stat_ext w (add_prints messages w) p eq_refl (fun _ => eq_refl)). reflexivity.
Qed.

Lemma load_out_of_stack_prints {A} dir (rest : dict -> M A) w :
  mbind (load_out_of_stack dir) rest w
  = (Raise "UnboundLocalError",
     add_prints ((if path_exists w (joinpath dir PROJECT_FILE) then []
                  else ["Can't find " +:+ PROJECT_FILE])
                 ++ ["Invalid " +:+ PROJECT_FILE +:+ ". Double-check that the YAML is correct."])
                w).
Proof.
  unfold load_out_of_stack.
  cbv beta iota delta [when mbind mret lift raise print emit add_prints].
  destruct (path_exists w (joinpath dir PROJECT_FILE)); cbn [negb fs cwd environ trace map app];
    rewrite <- ?app_assoc; reflexivity.
Qed.

(** X7.  A workflow that names itself as its first step is not
    guarded against: each run of it loads the manifest again, announces
    the workflow and starts itself again, until Python's stack is used
    up.  That happens while the manifest is read once more, which the
    load reports as an invalid manifest before it fails with an
    [UnboundLocalError]: however much room the stack has, the run ends
    this way. *)
Theorem self_referring_workflow_overflows depth dir W overrides force dry capture
    commands workflows rest messages w :
  (forall w0, fs w0 = fs w -> cwd w0 = cwd w -> environ w0 = environ w ->
     project_run_setup dir W overrides w0
     = (Ok (commands, workflows), add_prints messages w0)) ->
  dict_get W workflows = Some (W :: rest) ->
  project_run depth dir W overrides force dry capture w
  = (Raise "UnboundLocalError",
     add_prints
       (concat (repeat (messages ++ ["Running workflow '" +:+ W +:+ "'"]) depth)
        ++ (if path_exists w (joinpath dir PROJECT_FILE) then []
            else ["Can't find " +:+ PROJECT_FILE])
        ++ ["Invalid " +:+ PROJECT_FILE +:+ ". Double-check that the YAML is correct."])
       w).
Proof.
  intros Hsetup Hself. revert w Hsetup.
  induction depth as [| depth IH]; intros w Hsetup.
  - cbn [project_run repeat concat app]. apply load_out_of_stack_prints.
  - cbn [project_run]. rewrite (mbind_step _ _ _ _ _ (Hsetup w eq_refl eq_refl eq_refl)).
    cbn [fst snd]. rewrite Hself.
    set (w1 := add_prints messages w).
    set (w2 := add_prints ["Running workflow '" +:+ W +:+ "'"] w1).
    rewrite (mbind_step _ _ w1 tt w2) by reflexivity.
    cbn [for_each]. unfold mbind at 1. rewrite (IH w2).
    + unfold w2, w1. rewrite !path_exists_add_prints, !add_prints_app.
      cbn [repeat concat]. rewrite <- !app_assoc. reflexivity.
    + intros w0 Hf Hc He. apply Hsetup; [rewrite Hf | rewrite Hc | rewrite He]; reflexivity.
Qed.

Lemma concat_singletons {A} (l : list A) : concat (map (fun x => [x]) l) = l.
Proof. induction l as [| x l IH]; simpl; congruence. Qed.

Lemma require_all_reports requirements failed conflicting w :
  Forall (fun req => forall exc, pkg_require req <> RequireRaises exc) requirements ->
  require_all requirements failed conflicting w
  = (Ok (failed ++ missing_reports requirements,
         conflicting ++ conflict_reports requirements), w).
Proof.
  intros Hall. revert failed conflicting.
  induction Hall as [| req rest Hreq _ IH]; intros failed conflicting; simpl.
  - rewrite !app_nil_r. reflexivity.
  - unfold missing_reports, conflict_reports in *. simpl.
    destruct (pkg_require req) as [| report | report | exc]; simpl.
    + apply IH.
    + rewrite IH, <- app_assoc. reflexivity.
    + rewrite IH, <- app_assoc. reflexivity.
    + destruct (Hreq exc). reflexivity.
Qed.

(** X8.  A requirement that is not installed, or is installed in a
    conflicting version, never stops [_check_requirements]: it gives one
    warning, whose title asks to set the environment up, followed by
    every report, the missing packages first, and returns whether there
    was a missing package and whether there was a conflict.  With every
    requirement satisfied it prints nothing. *)
Theorem check_requirements_only_warns requirements w :
  Forall (fun req => forall exc, pkg_require req <> RequireRaises exc) requirements ->
  let reports := missing_reports requirements ++ conflict_reports requirements in
  _check_requirements requirements w
  = (Ok (negb (bool_decide (missing_reports requirements = [])),
         negb (bool_decide (conflict_reports requirements = []))),
     add_prints (match reports with
                 | [] => []
                 | _ => requirements_warning :: reports
                 end) w).
Proof.
  intros Hall reports. unfold _check_requirements.
  rewrite (mbind_step _ _ _ _ _ (require_all_reports requirements [] [] w Hall)).
  cbn [fst snd app]. fold reports.
  assert (Hflags : forall l : list string,
            match l with [] => false | _ => true end = negb (bool_decide (l = [])))
    by (intros [| x l]; reflexivity).
  rewrite <- !Hflags.
  destruct reports as [| report reports'] eqn:Hreports.
  - cbn [when]. rewrite (mbind_step _ _ w tt w) by reflexivity.
    rewrite add_prints_nil. reflexivity.
  - cbn [when].
    fold requirements_warning. set (title := requirements_warning).
    rewrite (mbind_step _ _ w tt (add_prints (title :: report :: reports') w)).
    + reflexivity.
    + rewrite (mbind_step _ _ w tt (add_prints [title] w)) by reflexivity.
      rewrite (for_each_prints print (fun text => [text]))
        by (intros; reflexivity).
      rewrite add_prints_app, concat_singletons. reflexivity.
Qed.
End ScriptFacts.

Lemma script_stops_at_first_failure_witness :
  run_commands (["true"] ++ "false" :: ["touch x.txt"]) false false false data_world
  = (Exit 1,
     World (fs data_world) (cwd data_world) (environ data_world)
       ([Print "Running command: true"; Spawn ["true"]]
        ++ [Print "Running command: false"] ++ [Spawn ["false"]])).
Proof.
  apply (script_stops_at_first_failure (H1 := Demo.runtime) ["true"] "false" ["touch x.txt"]
           false false data_world
           (World (fs data_world) (cwd data_world) (environ data_world)
              [Print "Running command: true"; Spawn ["true"]])
           ["false"] 1 None (fs data_world)).
  - vm_compute. reflexivity.
  - reflexivity.
  - reflexivity.
  - discriminate.
Defined.

Lemma command_without_script_fails_witness :
  (run_single proj "bare" bare_cmd false false false data_world).1 <> Ok tt.
Proof.
  apply (command_without_script_fails (H := reference_digest) (H1 := Demo.runtime)).
  reflexivity.
Defined.

(** The workflow [W] of [loop_manifest] with room for two runs inside
    the first: three loads report the step that is no command, three
    times the workflow is announced, and the fourth load fails. *)
Lemma self_referring_workflow_overflows_witness :
  project_run 3 proj "W" [] false false false (project_world loop_manifest)
  = (Raise "UnboundLocalError",
     add_prints
       ["Unknown command specified in workflow 'W': W Workflows can only refer to "
        +:+ "commands defined in the 'commands' section of the project.yml.";
        "Running workflow 'W'";
        "Unknown command specified in workflow 'W': W Workflows can only refer to "
        +:+ "commands defined in the 'commands' section of the project.yml.";
        "Running workflow 'W'";
        "Unknown command specified in workflow 'W': W Workflows can only refer to "
        +:+ "commands defined in the 'commands' section of the project.yml.";
        "Running workflow 'W'";
        "Invalid project.yml. Double-check that the YAML is correct."]
       (project_world loop_manifest)).
Proof.
  rewrite (self_referring_workflow_overflows (H := reference_digest) (H0 := Demo.parsers)
             (H1 := Demo.runtime) 3 proj "W" [] false false false
             [("A", Command "A" None (Some ["true"]) None None None None)]
             [("W", ["W"])] []
             ["Unknown command specified in workflow 'W': W Workflows can only refer to "
              +:+ "commands defined in the 'commands' section of the project.yml."]).
  - vm_compute. reflexivity.
  - intros [disk dir env events] Hdisk Hdir Henv. simpl in Hdisk, Hdir, Henv. subst.
    vm_compute. reflexivity.
  - reflexivity.
Defined.

Lemma check_requirements_only_warns_witness :
  _check_requirements (H1 := partial_runtime) ["numpy<2"; "click"; "spacy"] data_world
  = (Ok (true, true),
     add_prints ["Missing requirements or requirement conflicts detected. Make sure your "
                 +:+ "Python environment is set up correctly and you installed all "
                 +:+ "requirements specified in your project's requirements.txt: ";
                 "spacy is not installed"; "numpy 2.1 is installed"] data_world).
Proof.
  apply (check_requirements_only_warns (H1 := partial_runtime)
           ["numpy<2"; "click"; "spacy"] data_world).
  repeat constructor; intros exc; vm_compute; discriminate.
Defined.

(** ** File information and hashes *)

Section FileinfoFacts.
Context `{Digest}.

(** X9.  A declared path that is a special file -- it exists and is
    neither a regular file nor a directory -- has no checksum:
    [get_checksum] gives up with exit status 1, and so does the file
    information of a list of paths that starts with it, and the lock
    entry of a command whose first dependency it is. *)
Theorem special_file_stops_fileinfo w dir path after c :
  stat w (joinpath dir path) = Some Special ->
  get_checksum w (joinpath dir path) = Exit 1
  /\ get_fileinfo w dir (path :: after) = Exit 1
  /\ (default [] (deps c) = path :: after -> get_lock_entry w dir c = Exit 1).
Proof.
  intros Hs.
  assert (Hinfo : get_fileinfo w dir (path :: after) = Exit 1).
  { unfold get_fileinfo. simpl. unfold path_exists. rewrite Hs.
    rewrite (get_checksum_special _ _ Hs). reflexivity. }
  split; [exact (get_checksum_special _ _ Hs) |]. split; [exact Hinfo |].
  intros Hdeps. unfold get_lock_entry. rewrite Hdeps, Hinfo. reflexivity.
Qed.

Lemma filter_dict_set {V} (keep : string -> bool) k (v : V) d :
  keep k = false ->
  List.filter (fun kv => keep kv.1) (dict_set k v d) = List.filter (fun kv => keep kv.1) d.
Proof.
  intros Hk. induction d as [| [k0 v0] d IH]; simpl.
  - rewrite Hk. reflexivity.
  - destruct (String.eqb_spec k k0) as [<- | Hne]; simpl.
    + rewrite Hk. reflexivity.
    + rewrite IH. reflexivity.
Qed.

(** X10.  A top-level key named in [exclude] has no influence on the
    hash of a mapping: setting it to any value, or adding it, leaves the
    hash as it is. *)
Theorem get_hash_ignores_excluded d exclude k v :
  In k exclude ->
  get_hash (VDict (dict_set k v d)) exclude = get_hash (VDict d) exclude.
Proof.
  intros Hin. unfold get_hash.
  pose proof (filter_dict_set (fun k => negb (bool_decide (k ∈ exclude))) k v d) as Hf.
  cbv beta in Hf. rewrite Hf; [reflexivity |].
  rewrite bool_decide_eq_true_2; [reflexivity | apply list_elem_of_In; exact Hin].
Qed.
End FileinfoFacts.

(** The socket of [socket_world] is no file to digest. *)
Lemma special_file_stops_fileinfo_witness :
  get_checksum socket_world (joinpath proj "run.sock") = Exit 1
  /\ get_fileinfo socket_world proj ["run.sock"; "data"] = Exit 1.
Proof.
  destruct (special_file_stops_fileinfo (H := reference_digest) socket_world proj
              "run.sock" ["data"] build_cmd eq_refl) as (Hsum & Hinfo & _).
  split; [exact Hsum | exact Hinfo].
Defined.

Lemma get_hash_ignores_excluded_witness :
  get_hash (VDict (dict_set "cmd" (VStr "other") [("cmd", VStr "run"); ("outs", VList [])]))
           ["cmd"]
  = get_hash (VDict [("cmd", VStr "run"); ("outs", VList [])]) ["cmd"].
Proof.
  apply (get_hash_ignores_excluded (H := reference_digest)). left. reflexivity.
Defined.

(** ** The lockfile *)

Lemma fs_put_keys_new q n (disk : filesystem) :
  ~ In q (map fst disk) -> map fst (fs_put q n disk) = map fst disk ++ [q].
Proof.
  induction disk as [| [q0 m] disk IH]; simpl; intros Hq; [reflexivity |].
  destruct (decide (q = q0)) as [-> | Hne]; [tauto |].
  simpl. rewrite IH by tauto. reflexivity.
Qed.

Lemma key_in_or_not q (disk : filesystem) :
  In q (map fst disk) \/ ~ In q (map fst disk).
Proof.
  destruct (decide (q ∈ map fst disk)) as [Hin | Hin]; [left | right];
    rewrite <- list_elem_of_In; exact Hin.
Qed.

Lemma wf_fs_put q n disk : wf_fs disk -> normal q -> wf_fs (fs_put q n disk).
Proof.
  intros [ND Hall] Hq.
  assert (Hnormal : Forall normal (map fst disk))
    by (apply (Forall_fmap (B := Path) fst normal); exact Hall).
  assert (Hkeys : Forall normal (map fst (fs_put q n disk))
                  /\ NoDup (map fst (fs_put q n disk))).
  { destruct (key_in_or_not q disk) as [Hin | Hin].
    - rewrite (fs_put_keys _ _ _ Hin). split; assumption.
    - rewrite (fs_put_keys_new _ _ _ Hin). split.
      + apply Forall_app. split; [exact Hnormal | constructor; [exact Hq | constructor]].
      + apply NoDup_app. split; [exact ND |]. split.
        * intros x Hx Hx'. apply list_elem_of_singleton in Hx'. subst.
          apply Hin. apply list_elem_of_In. exact Hx.
        * apply NoDup_singleton. }
  destruct Hkeys as [Hn Hd]. split; [exact Hd |].
  apply (Forall_fmap (B := Path) fst normal). exact Hn.
Qed.

Section PutElsewhere.
Context `{Digest}.
Variables (w : world) (q : Path) (data : list byte) (yaml : option value).
Hypothesis q_no_dir : fs_find q (fs w) <> Some Dir.
Let w' : world := with_fs w (fs_put q (File data yaml) (fs w)).

Lemma stat_put_other p : resolve (cwd w) p <> q -> stat w' p = stat w p.
Proof.
  intros Hne. unfold w'.
  rewrite (stat_same_dirs w)
    by (reflexivity || (intros r; apply (put_file_dirs _ _ _ _ _ q_no_dir))).
  unfold stat. destruct (locate w p) as [t | |] eqn:Ht; [| reflexivity | reflexivity].
  simpl. rewrite fs_find_put. rewrite (locate_resolve _ _ _ Ht).
  destruct (decide (resolve (cwd w) p = q)); [contradiction | reflexivity].
Qed.

Lemma rglob_put_other p : below (resolve (cwd w) p) q = false -> rglob w' p = rglob w p.
Proof.
  intros Hb. unfold rglob, w'. simpl.
  destruct (key_in_or_not q (fs w)) as [Hin | Hin].
  - rewrite (fs_put_keys _ _ _ Hin). reflexivity.
  - rewrite (fs_put_keys_new _ _ _ Hin), List.filter_app. simpl. rewrite Hb.
    apply app_nil_r.
Qed.

Lemma below_key_other p r :
  wf_fs (fs w) -> below (resolve (cwd w) p) q = false -> In r (rglob w p) ->
  resolve (cwd w) r <> q.
Proof.
  intros Hwf Hb Hr.
  rewrite (resolve_normal _ _ (wf_fs_key _ _ Hwf (rglob_keys _ _ _ Hr))).
  intros ->. unfold rglob in Hr. apply filter_In in Hr as [_ Hr]. congruence.
Qed.

Lemma get_checksum_put_other p :
  wf_fs (fs w) -> resolve (cwd w) p <> q -> below (resolve (cwd w) p) q = false ->
  get_checksum w' p = get_checksum w p.
Proof.
  intros Hwf Hne Hb.
  assert (Hfile : forall r, resolve (cwd w) r <> q -> is_file w' r = is_file w r)
    by (intros r Hr; unfold is_file; rewrite (stat_put_other r Hr); reflexivity).
  assert (Hread : forall r, resolve (cwd w) r <> q -> read_bytes w' r = read_bytes w r)
    by (intros r Hr; unfold read_bytes; rewrite (stat_put_other r Hr); reflexivity).
  unfold get_checksum, is_dir. rewrite (Hfile p Hne), (Hread p Hne), (stat_put_other p Hne).
  rewrite (rglob_put_other p Hb).
  rewrite (filter_ext_in (is_file w') (is_file w) (rglob w p))
    by (intros r Hr; apply Hfile; exact (below_key_other p r Hwf Hb Hr)).
  rewrite (rmap_ext (read_bytes w') (read_bytes w)); [reflexivity |].
  intros r Hr. apply Hread.
  apply (Permutation_in _ (merge_sort_Permutation path_le _)) in Hr.
  apply filter_In in Hr as [Hr _]. exact (below_key_other p r Hwf Hb Hr).
Qed.

Lemma get_fileinfo_put_other dir paths :
  wf_fs (fs w) ->
  Forall (fun path => resolve (cwd w) (joinpath dir path) <> q
                      /\ below (resolve (cwd w) (joinpath dir path)) q = false) paths ->
  get_fileinfo w' dir paths = get_fileinfo w dir paths.
Proof.
  intros Hwf Hall. unfold get_fileinfo. apply rmap_ext. intros path Hin.
  rewrite Forall_forall in Hall.
  destruct (Hall path (proj2 (list_elem_of_In _ _) Hin)) as [Hne Hb].
  unfold path_exists. rewrite (stat_put_other _ Hne), (get_checksum_put_other _ Hwf Hne Hb).
  reflexivity.
Qed.

Lemma get_lock_entry_put_other dir c :
  wf_fs (fs w) ->
  Forall (fun path => resolve (cwd w) (joinpath dir path) <> q
                      /\ below (resolve (cwd w) (joinpath dir path)) q = false)
         (declared_paths c) ->
  get_lock_entry w' dir c = get_lock_entry w dir c.
Proof.
  intros Hwf Hall. unfold declared_paths in Hall.
  apply Forall_app in Hall as [Hdeps Hall]. apply Forall_app in Hall as [Houts Hnc].
  unfold get_lock_entry.
  rewrite !get_fileinfo_put_other by assumption. reflexivity.
Qed.
End PutElsewhere.

Lemma rmap_length {A B} (f : A -> result B) l ys : rmap f l = Ok ys -> length ys = length l.
Proof.
  revert ys. induction l as [| x l IH]; simpl; intros ys.
  - intros [= <-]. reflexivity.
  - destruct (f x); simpl; try discriminate.
    destruct (rmap f l) as [ys' | |]; simpl; try discriminate.
    intros [= <-]. simpl. rewrite (IH ys' eq_refl). reflexivity.
Qed.

Section LockfileFacts.
Context `{Digest} `{Runtime}.

(** How [update_lockfile] ends normally: the entry is built with the
    lockfile in place, and written under the command's name. *)
Lemma update_lockfile_ok dir c w w' :
  update_lockfile dir c w = (Ok tt, w') ->
  let lock := joinpath dir PROJECT_LOCK in
  exists w0 old entry,
    (path_exists w lock = true /\ w0 = w /\ read_yaml w lock = Ok (VDict old)
     \/ path_exists w lock = false /\ old = []
        /\ w0 = with_fs w (fs_put (resolve (cwd w) lock)
                             (File (yaml_dump (VDict [])) (Some (VDict []))) (fs w)))
    /\ get_lock_entry w0 dir c = Ok entry
    /\ fs_find (resolve (cwd w) lock) (fs w) <> Some Dir
    /\ fs_find (resolve (cwd w) lock) (fs w0) <> Some Dir
    /\ read_yaml w' lock = Ok (VDict (dict_set (name c) entry old))
    /\ w' = with_fs w (fs_put (resolve (cwd w) lock)
                         (File (yaml_dump (VDict (dict_set (name c) entry old)))
                               (Some (VDict (dict_set (name c) entry old))))
                         (fs w0)).
Proof.
  intros E lock. unfold update_lockfile in E.
  apply mbind_ok in E as (present & w1 & Hpresent & E).
  injection Hpresent as <- <-.
  apply mbind_ok in E as (data & w2 & Hdata & E).
  apply mbind_ok in E as (entry & w3 & Hentry & E).
  apply mbind_ok in E as (data' & w4 & Htyped & E).
  unfold lift in Hentry.
  destruct (get_lock_entry w2 dir c) as [e | |] eqn:He; try discriminate.
  injection Hentry as <- <-.
  destruct data as [| | | | | | old]; try discriminate.
  injection Htyped as <- <-.
  pose proof (proj2 (write_yaml_ok _ _ _ _ E)) as Hstored.
  apply write_yaml_inv in E as (_ & Hnd & E). exists w2, old, e.
  fold lock in Hdata, E, Hnd, Hstored.
  destruct (path_exists w lock) eqn:Hex; simpl in Hdata.
  - unfold lift in Hdata.
    destruct (read_yaml w lock) as [v | |] eqn:Hread; try discriminate.
    injection Hdata as -> <-.
    split; [left; repeat split; reflexivity |]. split; [exact He |].
    split; [exact Hnd |]. split; [exact Hnd |]. split; [exact Hstored | exact E].
  - apply mbind_ok in Hdata as ([] & wa & Hwrite & Hret).
    injection Hret as <- <-. apply write_yaml_inv in Hwrite as (_ & Hnd0 & Hwa).
    fold lock in Hnd0, Hwa. subst wa.
    split; [right; repeat split; reflexivity |]. split; [exact He |].
    split; [exact Hnd0 |]. split; [exact Hnd |]. split; [exact Hstored | exact E].
Qed.


(** X12.  Right after [update_lockfile] has stored the entry of a
    command, the rerun decision for that command is false -- a second
    run is skipped -- provided the command declares at least one output,
    does not set [no_skip], and no path it declares is the lockfile or a
    directory that contains it.  (The disk lists every path once, in
    resolved form, and the project directory exists.) *)
Theorem second_run_is_skipped dir c w w' :
  wf_fs (fs w) -> normal (cwd w) -> is_dir w dir = true ->
  default false (no_skip c) = false ->
  default [] (outputs c) ++ default [] (outputs_no_cache c) <> [] ->
  Forall (fun path => apart_from w (joinpath dir PROJECT_LOCK) (joinpath dir path))
         (declared_paths c) ->
  update_lockfile dir c w = (Ok tt, w') ->
  check_rerun w' dir c = Ok false.
Proof.
  intros Hwf Hcwd _ Hns Houts Hapart E.
  destruct (update_lockfile_ok dir c w w' E)
    as (w0 & old & entry & Hw0 & He & _ & Hnd & Hstored & ->).
  set (lock := joinpath dir PROJECT_LOCK) in *.
  set (L := resolve (cwd w) lock) in *.
  assert (Hw0' : cwd w0 = cwd w /\ wf_fs (fs w0)).
  { destruct Hw0 as [(_ & -> & _) | (_ & _ & ->)]; [split; [reflexivity | exact Hwf] |].
    split; [reflexivity |]. simpl. apply wf_fs_put; [exact Hwf |].
    apply resolve_is_normal. exact Hcwd. }
  destruct Hw0' as [Hc0 Hwf0].
  set (new := VDict (dict_set (name c) entry old)).
  assert (Hsame : with_fs w (fs_put L (File (yaml_dump new) (Some new)) (fs w0))
                  = with_fs w0 (fs_put L (File (yaml_dump new) (Some new)) (fs w0))).
  { unfold with_fs. rewrite Hc0.
    destruct Hw0 as [(_ & -> & _) | (_ & _ & ->)]; reflexivity. }
  change (read_yaml (with_fs w (fs_put L (File (yaml_dump new) (Some new)) (fs w0))) lock
          = Ok new) in Hstored.
  rewrite Hsame in Hstored |- *.
  set (w1 := with_fs w0 (fs_put L (File (yaml_dump new) (Some new)) (fs w0))) in *.
  assert (Hfresh : get_lock_entry w1 dir c = Ok entry).
  { unfold w1. rewrite get_lock_entry_put_other; [exact He | exact Hnd | exact Hwf0 |].
    rewrite Hc0. exact Hapart. }
  assert (Hread : read_yaml w1 lock = Ok new) by exact Hstored.
  rewrite (check_rerun_stored w1 dir c new Hns Hread).
  unfold new at 1. simpl. rewrite dict_get_set_eq. simpl.
  assert (Hentry : exists infos, infos <> [] /\ entry_outs entry = Ok (VList infos)).
  { revert He. unfold get_lock_entry.
    destruct (get_fileinfo w0 dir (default [] (deps c))); simpl; try discriminate.
    destruct (get_fileinfo w0 dir (default [] (outputs c))) as [o | |] eqn:Ho;
      simpl; try discriminate.
    destruct (get_fileinfo w0 dir (default [] (outputs_no_cache c))) as [o' | |] eqn:Ho';
      simpl; try discriminate.
    destruct (script c); simpl; try discriminate.
    intros [= <-]. exists (o ++ o'). split; [| reflexivity].
    apply rmap_length in Ho, Ho'. intros Hnil. apply Houts.
    apply app_eq_nil in Hnil as [-> ->]. simpl in Ho, Ho'.
    destruct (default [] (outputs c)), (default [] (outputs_no_cache c));
      try discriminate. reflexivity. }
  destruct Hentry as (infos & Hne & ->). simpl.
  destruct infos; [congruence |]. simpl.
  rewrite Hfresh. simpl. rewrite String.eqb_refl. reflexivity.
Qed.
End LockfileFacts.


Lemma second_run_is_skipped_witness :
  check_rerun (update_lockfile proj build_cmd data_world).2 proj build_cmd = Ok false.
Proof.
  apply (second_run_is_skipped (H := reference_digest) (H0 := Demo.runtime)
           proj build_cmd data_world).
  - apply (bool_decide_unpack _). vm_compute. exact I.
  - apply (bool_decide_unpack _). vm_compute. exact I.
  - reflexivity.
  - reflexivity.
  - discriminate.
  - apply (bool_decide_unpack _). vm_compute. exact I.
  - vm_compute. reflexivity.
Defined.

(** The last condition is needed: a command that depends on the
    project directory itself digests the lockfile too, which
    [update_lockfile] has just rewritten, so it is run again every
    time. *)
Example lockfile_among_the_dependencies :
  (update_lockfile proj whole_cmd data_world).1 = Ok tt
  /\ check_rerun (update_lockfile proj whole_cmd data_world).2 proj whole_cmd = Ok true.
Proof. vm_compute. split; reflexivity. Qed.

(** ** Validation messages *)

Lemma group_errors_NoDup errors data :
  NoDup (dict_keys data) -> NoDup (dict_keys (group_errors errors data)).
Proof.
  revert data. induction errors as [| [loc msg] errors IH]; intros data ND; simpl.
  - exact ND.
  - apply IH, dict_set_NoDup, ND.
Qed.

(** X13.  [validate] returns one line per location at which pydantic
    reports an error, and never two lines for one location: the line of
    a location holds, after the location in brackets, the messages of
    all errors reported there, in pydantic's order, joined by commas.
    It returns no line exactly when pydantic reports no error. *)
Theorem validate_groups_by_location schema obj :
  exists groups,
    validate schema obj
    = map (fun g => "[" +:+ g.1 +:+ "] " +:+ String.concat ", " g.2) groups
    /\ NoDup (map fst groups)
    /\ (forall location,
          dict_get location groups
          = match messages_at location (schema [] (VDict obj)) with
            | [] => None
            | messages => Some messages
            end)
    /\ (validate schema obj = [] <-> schema [] (VDict obj) = []).
Proof.
  exists (group_errors (schema [] (VDict obj)) []).
  split; [reflexivity |]. split; [apply group_errors_NoDup; constructor |]. split.
  - intros location. rewrite group_errors_get. simpl.
    destruct (messages_at location (schema [] (VDict obj))); reflexivity.
  - split; [apply validate_nil |]. intros E. unfold validate. rewrite E. reflexivity.
Qed.

Lemma command_name_error loc cmd :
  dict_get "name" cmd ≫= as_str = None ->
  In ((loc ++ ["name"])%list, name_error cmd) (ProjectConfigCommand_schema loc (VDict cmd)).
Proof.
  intros Hname. unfold ProjectConfigCommand_schema, Pydantic.model, Pydantic.model_errors.
  apply in_app_iff. left. simpl. apply in_app_iff. left. unfold name_error.
  destruct (dict_get "name" cmd) as [[| | | | s | |] |]; simpl in Hname;
    try discriminate Hname; left; reflexivity.
Qed.

Lemma accepted_text_nonempty loc text :
  Pydantic.bool loc (VStr text) = [] -> truthy (VStr text) = true.
Proof. destruct text; [discriminate | reflexivity]. Qed.

Lemma command_of_no_skip d c :
  command_of (VDict d) = Some c -> no_skip c = truthy <$> dict_get "no_skip" d.
Proof.
  unfold command_of.
  destruct (dict_get "name" d ≫= as_str); cbn; [| discriminate].
  destruct (opt_key _ "help" d); cbn; [| discriminate].
  destruct (opt_key as_str_list "script" d); cbn; [| discriminate].
  destruct (opt_key as_str_list "deps" d); cbn; [| discriminate].
  destruct (opt_key as_str_list "outputs" d); cbn; [| discriminate].
  destruct (opt_key as_str_list "outputs_no_cache" d); cbn; [| discriminate].
  intros [= <-]. reflexivity.
Qed.

Section SchemaEdges.
Context `{Digest} `{Parsers} `{Runtime}.

(** X14.  A command without a [name], or whose name is not text, makes
    the manifest invalid: the line validation returns for the location
    of the name holds pydantic's message -- that the field is required,
    that it must not be null, or that text is expected -- and loading
    hands the line that the manifest is invalid and the lines of
    validation to the printer and exits with status 1, with the disk
    untouched.  So the lookups of a command's name further on cannot
    fail. *)
Theorem command_without_name_rejected config cmds i cmd :
  dict_get "commands" config = Some (VList cmds) ->
  cmds !! i = Some (VDict cmd) ->
  dict_get "name" cmd ≫= as_str = None ->
  (exists reported,
     In ("[" +:+ String.concat " -> " ["commands"; pretty i; "name"] +:+ "] "
         +:+ String.concat ", " reported)
        (validate ProjectConfigSchema config)
     /\ In (name_error cmd) reported)
  /\ forall path interpolate overrides w,
       read_yaml w (joinpath path PROJECT_FILE) = Ok (VDict config) ->
       load_project_config path interpolate overrides w
       = (Exit 1,
          add_prints
            ["Invalid " +:+ PROJECT_FILE +:+ ". Double-check that the YAML is correct.";
             String.concat nl (validate ProjectConfigSchema config)] w).
Proof.
  intros Hc Hi Hname.
  assert (Herr : In (["commands"; pretty i; "name"], name_error cmd)
                    (ProjectConfigSchema [] (VDict config))).
  { eapply schema_command_error; [exact Hc | exact Hi |].
    exact (command_name_error ["commands"; pretty i] cmd Hname). }
  split; [exact (validate_reports _ _ _ _ Herr) |].
  intros path interpolate overrides w Hread.
  apply (load_schema_error path interpolate overrides w config Hread).
  exact (validate_rejects _ _ _ Herr).
Qed.

(** X15.  [no_skip] is tested for truth on the value the manifest
    gives, not on the boolean the schema reads from it: every text the
    schema accepts for the field -- [no], [off], [false], [n], [f] and
    [0] among them -- counts as set, and the rerun decision of such a
    command is always true. *)
Theorem no_skip_text_counts_as_set loc d text c :
  dict_get "no_skip" d = Some (VStr text) ->
  Pydantic.bool loc (VStr text) = [] ->
  command_of (VDict d) = Some c ->
  no_skip c = Some true /\ forall w dir, check_rerun w dir c = Ok true.
Proof.
  intros Hd Hvalid Hc.
  assert (Hns : no_skip c = Some true).
  { rewrite (command_of_no_skip d c Hc), Hd. simpl fmap.
    change (Some (truthy (VStr text)) = Some true).
    rewrite (accepted_text_nonempty loc text Hvalid). reflexivity. }
  split; [exact Hns |]. intros w dir. apply check_rerun_no_skip. exact Hns.
Qed.
End SchemaEdges.

(** The second command of [nameless_manifest] has no name: the load
    says so and exits. *)
Lemma command_without_name_rejected_witness :
  load_project_config proj true [] (project_world nameless_manifest)
  = (Exit 1,
     add_prints ["Invalid project.yml. Double-check that the YAML is correct.";
                 "[commands -> 1 -> name] field required"]
                (project_world nameless_manifest)).
Proof.
  destruct (command_without_name_rejected (H0 := Demo.parsers) (H1 := Demo.runtime)
              nameless_manifest
              [VDict [("name", VStr "build"); ("script", VList [VStr "true"])];
               VDict [("script", VList [VStr "true"])]]
              1%nat [("script", VList [VStr "true"])] eq_refl eq_refl eq_refl)
    as [_ Hload].
  rewrite (Hload proj true [] (project_world nameless_manifest) eq_refl).
  vm_compute. reflexivity.
Defined.

Lemma no_skip_text_counts_as_set_witness :
  no_skip (Command "build" None (Some ["true"]) None (Some ["out.txt"]) None (Some true))
  = Some true
  /\ forall w dir,
       check_rerun w dir
         (Command "build" None (Some ["true"]) None (Some ["out.txt"]) None (Some true))
       = Ok true.
Proof.
  apply (no_skip_text_counts_as_set (H := reference_digest) ["commands"; "0"; "no_skip"]
           no_skip_no "no"); reflexivity.
Defined.

(** ** Declared directories *)

Lemma last_removelast {A} (l : list A) x : last l = Some x -> l = removelast l ++ [x].
Proof.
  intros Hl. apply last_Some in Hl as [l' ->]. rewrite removelast_last. reflexivity.
Qed.

(** What [os.mkdir] has made is a directory at the path. *)
Lemma os_mkdir_made p w w' : os_mkdir p w = (Ok tt, w') -> is_dir w' p = true.
Proof.
  unfold os_mkdir, is_dir, stat, locate.
  set (full := if is_absolute p then p else cwd w ++ p).
  destruct (last full) as [part |] eqn:Hlast; [| discriminate].
  destruct (String.eqb part ".." || String.eqb part "/") eqn:Hpart.
  { destruct (walk (fs w) [] full); discriminate. }
  destruct (walk (fs w) [] (removelast full)) as [above | |] eqn:Hwalk; simpl;
    try discriminate.
  destruct (searchable (fs w) above) as [[] | |]; simpl; try discriminate.
  destruct (fs_find (above ++ [part]) (fs w)) eqn:Hf; [discriminate |].
  intros [= <-]. simpl. fold full.
  rewrite (last_removelast _ _ Hlast), walk_app.
  rewrite (walk_mono (fs w) _ _ _ above) by
    (exact Hwalk || (intros r Hr; rewrite fs_find_app, Hr; reflexivity)).
  simpl. apply orb_false_elim in Hpart as [Hdd _]. rewrite Hdd.
  rewrite fs_find_app, Hf. simpl.
  destruct (decide (above ++ [part] = above ++ [part])); [reflexivity | congruence].
Qed.

Lemma mkdir_made room p parents w w' :
  mkdir room p parents false w = (Ok tt, w') -> is_dir w' p = true.
Proof.
  revert p parents w. induction room as [| room IH]; intros p parents w; cbn [mkdir];
    destruct (os_mkdir p w) as [[[] | c | e] w1] eqn:E; try discriminate;
    try (intros [= <-]; exact (os_mkdir_made _ _ _ E)).
  - destruct (String.eqb e "FileNotFoundError"); discriminate.
  - destruct (String.eqb e "FileNotFoundError"); [| discriminate].
    destruct (negb parents || bool_decide (parent p = p)); [discriminate |].
    intros E'. apply mbind_ok in E' as ([] & w2 & _ & E'). exact (IH _ _ _ E').
Qed.

Lemma mkdir_parents_exists p w w' :
  mkdir_parents p w = (Ok tt, w') -> is_dir w' p = true.
Proof. apply mkdir_made. Qed.

Lemma path_exists_kept w w' p :
  cwd w' = cwd w -> adds_directories (fs w) (fs w') ->
  path_exists w p = true -> path_exists w' p = true.
Proof.
  intros Hc Hd. unfold path_exists.
  destruct (stat w p) as [n |] eqn:Hs; [| discriminate]. intros _.
  apply stat_found in Hs as [Hq Hf].
  rewrite (stat_located w' p _
             (locate_mono w w' p _ Hc (fun r => adds_directories_keeps _ _ r Dir Hd) Hq)).
  rewrite (adds_directories_keeps _ _ _ _ Hd Hf). reflexivity.
Qed.

(** What is found at a path after directories were added is what was
    at the place it leads to, or a new directory. *)
Lemma added_or_kept w w' p :
  cwd w' = cwd w -> adds_directories (fs w) (fs w') ->
  path_exists w' p = true ->
  stat w' p = Some (default Dir (fs_find (resolve (cwd w) p) (fs w))).
Proof.
  intros Hc [dirs Hd]. unfold path_exists.
  destruct (stat w' p) as [n |] eqn:Hs; [| discriminate]. intros _.
  apply stat_found in Hs as [_ Hf]. rewrite Hc, Hd, fs_find_app in Hf.
  destruct (fs_find (resolve (cwd w) p) (fs w)) as [m |]; [symmetry; exact Hf |].
  destruct (fs_find_dirs (resolve (cwd w) p) dirs) as [E | E]; rewrite E in Hf;
    [discriminate | symmetry; exact Hf].
Qed.

Section Directories.
Context `{Digest} `{Parsers} `{Runtime}.

Lemma make_directories_frame path subdirs w r w' :
  make_directories path subdirs w = (r, w') ->
  cwd w' = cwd w /\ adds_directories (fs w) (fs w').
Proof.
  intros E. split.
  - revert E. apply keeps_for_each. intros subdir.
    apply keeps_mbind; [apply keeps_typed | intros dir].
    apply keeps_mbind; [apply keeps_lift | intros present].
    apply keeps_when, keeps_mkdir_parents.
  - assert (Hc : confined adds_directories no_child (make_directories path subdirs)).
    { unfold make_directories. confine confined_for_each. intros subdir.
      confine confined_mbind; [confine confined_typed | intros dir].
      confine confined_mbind; [confine confined_lift | intros present].
      confine confined_when. apply confined_mkdir_parents; [exact _ |].
      apply adds_directories_mkdir. }
    exact (proj1 (proj2 (Hc _ _ _ E))).
Qed.

Lemma make_directories_exist path subdirs w w' subdir :
  make_directories path subdirs w = (Ok tt, w') ->
  In (VStr subdir) subdirs ->
  path_exists w' (joinpath path subdir) = true.
Proof.
  revert w. induction subdirs as [| first subdirs IH]; intros w E Hin; [destruct Hin |].
  unfold make_directories in E. simpl in E.
  apply mbind_ok in E as ([] & w1 & Hbody & E). fold (make_directories path subdirs) in E.
  assert (Hstep : cwd w1 = cwd w)
    by exact (proj1 (make_directories_frame path [first] w (Ok tt) w1
                       ltac:(unfold make_directories; simpl;
                             rewrite (mbind_step _ _ _ _ _ Hbody); reflexivity))).
  destruct Hin as [-> | Hin].
  - destruct (make_directories_frame path subdirs w1 _ w' E) as [Hc Hd].
    apply (path_exists_kept w1 w' _ Hc Hd).
    simpl in Hbody. rewrite (mbind_step _ _ w subdir w) in Hbody by reflexivity.
    rewrite (mbind_step _ _ w (path_exists w (joinpath path subdir)) w) in Hbody
      by reflexivity.
    destruct (path_exists w (joinpath path subdir)) eqn:Hex; simpl in Hbody.
    + injection Hbody as <-. exact Hex.
    + apply mkdir_parents_exists in Hbody.
      unfold path_exists. unfold is_dir in Hbody.
      destruct (stat w1 (joinpath path subdir)) as [[| |] |]; congruence.
  - apply (IH w1); [exact E | exact Hin].
Qed.

(** X16.  After a load that ends normally, every path the manifest
    declares under [directories] exists, and what is found there is what
    the disk had at the place the path leads to before the load, or a
    directory where the disk had nothing there. *)
Theorem declared_directories_exist path interpolate overrides w config loaded w'
    subdirs subdir :
  read_yaml w (joinpath path PROJECT_FILE) = Ok (VDict config) ->
  dict_get "directories" config = Some (VList subdirs) ->
  In (VStr subdir) subdirs ->
  load_project_config path interpolate overrides w = (Ok loaded, w') ->
  path_exists w' (joinpath path subdir) = true
  /\ stat w' (joinpath path subdir)
     = Some (default Dir (fs_find (resolve (cwd w) (joinpath path subdir)) (fs w))).
Proof.
  intros Hread Hdirs Hin E.
  pose proof (keeps_load_project_config _ _ _ _ _ _ E) as Hc.
  pose proof (confined_load_project_config adds_directories no_child adds_directories_mkdir
                _ _ _ _ _ _ E) as (_ & Hd & _).
  assert (Hex : path_exists w' (joinpath path subdir) = true).
  { unfold load_project_config in E.
    rewrite (mbind_step _ _ w true w) in E
      by (unfold lift; rewrite (read_yaml_exists _ _ _ Hread); reflexivity).
    rewrite (mbind_step _ _ w tt w) in E by reflexivity.
    rewrite (mbind_step _ _ w (Ok (VDict config)) w) in E
      by (unfold lift; rewrite Hread; reflexivity).
    rewrite (mbind_step _ _ w (VDict config) w) in E by reflexivity.
    rewrite (mbind_step _ _ w config w) in E by reflexivity.
    destruct (validate ProjectConfigSchema config); [| discriminate E].
    apply mbind_ok in E as ([] & w1 & Hchecks & E).
    unfold load_after_checks in E. rewrite Hdirs in E.
    rewrite (mbind_step _ _ w1 subdirs w1) in E by reflexivity.
    apply mbind_ok in E as ([] & w2 & Hloop & E).
    fold (make_directories path subdirs) in Hloop.
    assert (Hc1 : cwd w1 = cwd w)
      by exact (keeps_validate_project_commands _ _ _ _ Hchecks).
    assert (Hex2 : path_exists w2 (joinpath path subdir) = true).
    { apply (make_directories_exist path subdirs w1 w2 subdir);
        [exact Hloop | exact Hin]. }
    assert (Hlast : cwd w' = cwd w2 /\ adds_directories (fs w2) (fs w')).
    { destruct interpolate.
      - split; [exact (keeps_substitute _ _ _ _ _ E) |].
        exact (proj1 (proj2 (confined_substitute adds_directories no_child _ _ _ _ _ E))).
      - injection E as _ <-. split; reflexivity. }
    destruct Hlast as [Hc2 Hd2]. exact (path_exists_kept w2 w' _ Hc2 Hd2 Hex2). }
  split; [exact Hex | exact (added_or_kept w w' _ Hc Hd Hex)].
Qed.

(** X17.  Without a manifest the load does not end in a clean exit:
    it prints that the file cannot be found and that it is invalid, and
    then fails with an [UnboundLocalError]; a manifest that is not valid
    YAML ends the same way, and one that is valid YAML but no mapping --
    an empty file, a list -- ends in a [TypeError].  Nothing is created
    in either case. *)
Theorem load_without_manifest path interpolate overrides w :
  let manifest := joinpath path PROJECT_FILE in
  let invalid := "Invalid " +:+ PROJECT_FILE +:+ ". Double-check that the YAML is correct." in
  (path_exists w manifest = false ->
   load_project_config path interpolate overrides w
   = (Raise "UnboundLocalError", add_prints ["Can't find " +:+ PROJECT_FILE; invalid] w))
  /\ (forall data, stat w manifest = Some (File data None) ->
      load_project_config path interpolate overrides w
      = (Raise "UnboundLocalError", add_prints [invalid] w))
  /\ (forall document, read_yaml w manifest = Ok document ->
      (forall config, document <> VDict config) ->
      load_project_config path interpolate overrides w = (Raise "TypeError", w)).
Proof.
  intros manifest invalid. split; [| split].
  - intros Hex. unfold load_project_config. fold manifest.
    rewrite (mbind_step _ _ w false w) by (unfold lift; rewrite Hex; reflexivity).
    rewrite (mbind_step _ _ w tt (add_prints ["Can't find " +:+ PROJECT_FILE] w))
      by reflexivity.
    assert (Hread : read_yaml (add_prints ["Can't find " +:+ PROJECT_FILE] w) manifest
                    = Raise "ValueError").
    { unfold path_exists in Hex. unfold read_yaml.
      rewrite (stat_ext w (add_prints ["Can't find " +:+ PROJECT_FILE] w) manifest
                 eq_refl (fun _ => eq_refl)).
      destruct (stat w manifest); [discriminate | reflexivity]. }
    rewrite (mbind_step _ _ _ (Raise "ValueError") (add_prints ["Can't find " +:+ PROJECT_FILE] w))
      by (unfold lift; rewrite Hread; reflexivity).
    unfold mbind. simpl. unfold add_prints. simpl. rewrite <- app_assoc. reflexivity.
  - intros data Hstat. unfold load_project_config. fold manifest.
    rewrite (mbind_step _ _ w true w)
      by (unfold lift, path_exists; rewrite Hstat; reflexivity).
    rewrite (mbind_step _ _ w tt w) by reflexivity.
    rewrite (mbind_step _ _ w (Raise "ValueError") w)
      by (unfold lift, read_yaml; rewrite Hstat; reflexivity).
    reflexivity.
  - intros document Hread Hnot. unfold load_project_config. fold manifest.
    rewrite (mbind_step _ _ w true w)
      by (unfold lift; rewrite (read_yaml_exists _ _ _ Hread); reflexivity).
    rewrite (mbind_step _ _ w tt w) by reflexivity.
    rewrite (mbind_step _ _ w (Ok document) w) by (unfold lift; rewrite Hread; reflexivity).
    rewrite (mbind_step _ _ w document w) by reflexivity.
    destruct document as [| | | | | | config]; try reflexivity.
    destruct (Hnot config). reflexivity.
Qed.
End Directories.

Lemma declared_directories_exist_witness :
  path_exists (load_project_config proj true [] (project_world dirs_manifest)).2
              (joinpath proj "out/logs") = true
  /\ stat (load_project_config proj true [] (project_world dirs_manifest)).2
          (joinpath proj "out/logs") = Some Dir.
Proof.
  eapply (declared_directories_exist (H0 := Demo.parsers) (H1 := Demo.runtime)
            proj true [] (project_world dirs_manifest) dirs_manifest _ _
            [VStr "assets"; VStr "out/logs"] "out/logs").
  - vm_compute. reflexivity.
  - reflexivity.
  - right. left. reflexivity.
  - vm_compute. reflexivity.
Defined.

(** A declared path can lead through a directory that is only created
    by the load to something that was there all along: the path did not
    exist before the load and exists after it, as the file it leads to. *)
Example declared_path_through_a_new_directory :
  path_exists (project_world through_manifest) (joinpath proj "made/../project.yml") = false
  /\ (load_project_config proj true [] (project_world through_manifest)).1
     = Ok (through_manifest ++ [("vars", VDict []); ("env", VDict [])])
  /\ is_file (load_project_config proj true [] (project_world through_manifest)).2
             (joinpath proj "made/../project.yml") = true.
Proof. vm_compute. repeat split; reflexivity. Qed.

(** ** Commands of one name *)

Lemma dict_get_update_last {V} k (d other : list (string * V)) :
  dict_get k (dict_update d other) =
  match last (List.filter (fun kv => String.eqb kv.1 k) other) with
  | Some kv => Some kv.2
  | None => dict_get k d
  end.
Proof.
  unfold dict_update. revert d. induction other as [| [k0 v0] other IH]; intros d; simpl.
  - reflexivity.
  - rewrite IH. destruct (String.eqb_spec k0 k) as [-> | Hne].
    + rewrite last_cons, dict_get_set_eq.
      destruct (last (List.filter (fun kv => String.eqb kv.1 k) other)); reflexivity.
    + rewrite dict_get_set_ne by congruence. reflexivity.
Qed.

(** X18.  When several commands of the manifest share a name -- which
    the load only reports -- the one defined last is the one a run of
    that name executes: [project_run] looks a name up in a mapping in
    which each later command has replaced the earlier ones of its
    name. *)
Theorem later_command_of_a_name_wins commands subcommand :
  dict_get subcommand (commands_by_name commands)
  = last (List.filter (fun cmd => String.eqb (name cmd) subcommand) commands).
Proof.
  unfold commands_by_name. rewrite dict_get_update_last. simpl.
  induction commands as [| cmd commands IH]; simpl; [reflexivity |].
  destruct (String.eqb (name cmd) subcommand); [| exact IH].
  rewrite !last_cons.
  destruct (last (List.filter (fun cmd => String.eqb (name cmd) subcommand) commands));
    destruct (last (List.filter (fun kv : string * ProjectConfigCommand =>
                                   String.eqb kv.1 subcommand)
                                (map (fun cmd => (name cmd, cmd)) commands)));
    simpl in IH |- *; congruence.
Qed.

(** ** Malformed overrides *)

Section OverrideEdges.
Context `{Parsers}.

(** X19.  Parsing override tokens prints nothing when it succeeds.
    A token that does not start with [--], or a token without a dot in
    an environment variable, ends it with one message and exit status 1;
    on the command line a token without a dot raises [NoSuchOption]
    instead, with nothing printed.  It fails in no other way. *)
Theorem parse_overrides_failures args is_cli result w :
  match _parse_overrides args is_cli result w with
  | (Ok parsed, w') => w' = w
  | (Exit code, w') => code = 1 /\ exists message, w' = add_prints [message] w
  | (Raise exc, w') => is_cli = true /\ exc = "NoSuchOption" /\ w' = w
  end.
Proof.
  assert (Hlen : forall n args, (length args <= n)%nat -> forall result,
            match _parse_overrides args is_cli result w with
            | (Ok parsed, w') => w' = w
            | (Exit code, w') => code = 1 /\ exists message, w' = add_prints [message] w
            | (Raise exc, w') => is_cli = true /\ exc = "NoSuchOption" /\ w' = w
            end).
  { induction n as [| n IH]; intros [| opt rest] Hn result0; simpl in *;
      try reflexivity; try lia.
    destruct (String.prefix "--" opt).
    2: { split; [reflexivity | eexists; reflexivity]. }
    destruct (contains "." (replace "--" "" opt)); simpl.
    2: { destruct is_cli; [repeat split; reflexivity |].
         split; [reflexivity | eexists; reflexivity]. }
    destruct (contains "=" (replace "--" "" opt)).
    - destruct (split_first "=" (replace "--" "" opt)) as [k v]. apply IH. lia.
    - destruct rest as [| next rest'].
      + apply IH. simpl. lia.
      + destruct (String.prefix "--" next); apply IH; simpl in *; lia. }
  exact (Hlen (length args) args (Nat.le_refl _) result).
Qed.
End OverrideEdges.

(** ** A new project *)

Section InitFacts.
Context `{Parsers} `{Runtime}.

(** X20.  [init] replaces whatever file is at the path by the starter
    manifest, and the starter manifest is one the load accepts: reading
    the path back gives it, validation finds no error in it, and the
    checks of its commands and workflows report nothing.  For the path
    [-] the manifest is printed instead, and the disk is left as it
    is. *)
Theorem init_project_writes_a_valid_manifest path w w' :
  init_project path w = (Ok tt, w') ->
  (if String.eqb path "-" then fs w' = fs w
   else read_yaml w' (Path_of path) = Ok (VDict BASE_CONTENT))
  /\ validate ProjectConfigSchema BASE_CONTENT = []
  /\ forall w0, validate_project_commands BASE_CONTENT w0 = (Ok tt, w0).
Proof.
  intros E. split; [| split; [vm_compute; reflexivity |]].
  - unfold init_project in E. destruct (String.eqb path "-").
    + injection E as <-. reflexivity.
    + apply write_yaml_ok in E as [_ Hread]. exact Hread.
  - intros w0.
    rewrite (validate_project_commands_prints BASE_CONTENT
               [Command "command1" (Some "command1 help") (Some ["python **"])
                        None None None None;
                Command "command2" (Some "command2 help") (Some ["python **"])
                        None None None None]
               [("all", ["command1"; "command2"])] w0) by reflexivity.
    unfold semantic_reports. change (List.filter _ _) with (@nil string).
    rewrite (proj2 (set_order_nil [])) by reflexivity.
    change (_ ++ concat _) with (@nil string). rewrite add_prints_nil. reflexivity.
Qed.
End InitFacts.

Lemma init_project_writes_a_valid_manifest_witness :
  (if String.eqb "project.yml" "-"
   then fs (init_project "project.yml" data_world).2 = fs data_world
   else read_yaml (init_project "project.yml" data_world).2 (Path_of "project.yml")
        = Ok (VDict BASE_CONTENT))
  /\ validate ProjectConfigSchema BASE_CONTENT = []
  /\ forall w0, validate_project_commands BASE_CONTENT w0 = (Ok tt, w0).
Proof.
  apply (init_project_writes_a_valid_manifest (H0 := Demo.runtime) "project.yml" data_world).
  vm_compute. reflexivity.
Defined.

(** ** Dependencies and skipped commands *)

Section SkipFacts.
Context `{Digest} `{Parsers} `{Runtime}.

Lemma check_rerun_ext w1 w2 dir c :
  fs w1 = fs w2 -> cwd w1 = cwd w2 -> check_rerun w1 dir c = check_rerun w2 dir c.
Proof. destruct w1, w2. simpl. intros -> ->. reflexivity. Qed.

(** The block of [working_dir] only matters on the disk at entry, from
    the directory it changes to. *)
Lemma working_dir_ext {A} path (b1 b2 : Path -> M A) w :
  (forall w0, fs w0 = fs w -> cwd w0 = resolve (cwd w) (resolve (cwd w) path) ->
              b1 (resolve (cwd w) path) w0 = b2 (resolve (cwd w) path) w0) ->
  working_dir path b1 w = working_dir path b2 w.
Proof.
  intros Hb. unfold working_dir, mbind, getcwd, lift, chdir, try_finally.
  destruct (is_dir w (cwd w)); [| reflexivity].
  destruct (stat w (resolve (cwd w) path)) as [[| |] |]; try reflexivity.
  rewrite Hb by reflexivity. reflexivity.
Qed.

Lemma deps_present dir subcommand dry (l : list string) w :
  Forall (fun dep => path_exists w (joinpath dir dep) = true) l ->
  for_each l (fun dep =>
     present <- lift (fun w => Ok (path_exists w (joinpath dir dep))) ;;
     when (negb present)
       (print ("Missing dependency specified by command '" +:+ subcommand +:+ "': "
               +:+ dep) ;;
        print "Maybe you forgot to run the 'project assets' command or a previous step?" ;;
        if negb dry then sys_exit 1 else mret tt))%M w
  = (Ok tt, w).
Proof.
  induction 1 as [| dep l Hdep _ IH]; simpl; [reflexivity |].
  rewrite (mbind_step _ _ w tt w); [exact IH |].
  rewrite (mbind_step _ _ w true w) by (unfold lift; rewrite Hdep; reflexivity).
  reflexivity.
Qed.

(** X21.  A dependency that does not exist stops the run of a command
    before anything else happens: two lines name the missing path, and
    the run exits with status 1, with no child started and the disk and
    the lockfile as they were.  (This is the run that is not dry.) *)
Theorem missing_dependency_stops_the_run dir subcommand cmd force capture w
    before dep after :
  default [] (deps cmd) = before ++ dep :: after ->
  Forall (fun d => path_exists w (joinpath dir d) = true) before ->
  path_exists w (joinpath dir dep) = false ->
  run_single dir subcommand cmd force false capture w
  = (Exit 1,
     add_prints
       ["Missing dependency specified by command '" +:+ subcommand +:+ "': " +:+ dep;
        "Maybe you forgot to run the 'project assets' command or a previous step?"] w).
Proof.
  intros Hdeps Hbefore Hmissing. unfold run_single. rewrite Hdeps.
  unfold mbind at 1.
  rewrite (for_each_fail_fast before after dep _ w w (Exit 1)
             (add_prints
                ["Missing dependency specified by command '" +:+ subcommand +:+ "': " +:+ dep;
                 "Maybe you forgot to run the 'project assets' command or a previous step?"]
                w)).
  - reflexivity.
  - apply deps_present. exact Hbefore.
  - rewrite (mbind_step _ _ w false w) by (unfold lift; rewrite Hmissing; reflexivity).
    cbv beta iota delta [when negb mbind print emit sys_exit add_prints].
    cbn [fs cwd environ trace map]. rewrite <- app_assoc. reflexivity.
  - discriminate.
Qed.

(** X22.  A command that is skipped -- the rerun decision in the
    project directory is false and the run is not forced -- starts no
    child process and leaves the disk, the lockfile included, and the
    environment exactly as they were. *)
Theorem skipped_command_changes_nothing dir subcommand cmd dry capture w :
  normal (cwd w) ->
  check_rerun (World (fs w) (resolve (cwd w) dir) (environ w) (trace w))
              (resolve (cwd w) dir) cmd = Ok false ->
  fs (run_single dir subcommand cmd false dry capture w).2 = fs w
  /\ spawned (run_single dir subcommand cmd false dry capture w).2 = spawned w
  /\ environ (run_single dir subcommand cmd false dry capture w).2 = environ w.
Proof.
  intros Hcwd Hskip.
  assert (Hsame : forall {A} (m : M A) w0 r w1,
            confined eq no_child m -> m w0 = (r, w1) ->
            fs w1 = fs w0 /\ spawned w1 = spawned w0 /\ environ w1 = environ w0).
  { intros A m w0 r w1 Hm E. destruct (Hm _ _ _ E) as (He & Hd & started & Hs & Hp).
    rewrite (no_child_started _ Hp), app_nil_r in Hs. auto. }
  destruct (run_single dir subcommand cmd false dry capture w) as [r w'] eqn:E. simpl.
  unfold run_single in E. unfold mbind at 1 in E.
  match type of E with
  | context [for_each ?l ?body w] =>
      destruct (for_each l body w) as [r1 w1] eqn:Edeps;
      assert (Hdeps : confined eq no_child (for_each l body))
  end.
  { confine confined_for_each. intros dep.
    confine confined_mbind; [confine confined_lift | intros present].
    confine confined_when. confine confined_mbind; [confine confined_print | intros _].
    confine confined_mbind; [confine confined_print | intros _].
    destruct (negb dry); [confine confined_sys_exit | confine confined_mret]. }
  destruct (Hsame _ _ _ _ _ Hdeps Edeps) as (Hf1 & Hs1 & He1).
  pose proof (keeps_run_single_deps dir subcommand cmd dry _ _ _ Edeps) as Hc1.
  destruct r1 as [[] | code | exc]; [| injection E as _ <-; auto | injection E as _ <-; auto].
  assert (Hbody : confined eq no_child
            (working_dir dir (fun current_dir =>
               (print subcommand ;;
                rerun <- lift (fun w => check_rerun w current_dir cmd) ;;
                if negb rerun && negb false
                then print ("Skipping '" +:+ name cmd +:+ "': nothing changed")
                else mret tt)%M))).
  { confine confined_working_dir. intros current.
    confine confined_mbind; [confine confined_print | intros _].
    confine confined_mbind; [confine confined_lift | intros rerun].
    destruct (negb rerun && negb false); [confine confined_print | confine confined_mret]. }
  assert (Hrun : working_dir dir (fun current_dir =>
               (print subcommand ;;
                rerun <- lift (fun w => check_rerun w current_dir cmd) ;;
                if negb rerun && negb false
                then print ("Skipping '" +:+ name cmd +:+ "': nothing changed")
                else mret tt)%M) w1 = (r, w')).
  { rewrite <- E. apply working_dir_ext. intros w3 Hf3 Hc3.
    set (w4 := World (fs w3) (cwd w3) (environ w3) (trace w3 ++ [Print subcommand])).
    assert (Hdecide : check_rerun w4 (resolve (cwd w1) dir) cmd = Ok false).
    { rewrite <- Hskip, Hc1. apply check_rerun_ext; simpl.
      - rewrite Hf3. exact Hf1.
      - rewrite Hc3, Hc1. apply resolve_normal, resolve_is_normal, Hcwd. }
    rewrite (mbind_step _ _ w3 tt w4) by reflexivity.
    rewrite (mbind_step _ _ w3 tt w4) by reflexivity.
    rewrite (mbind_step _ _ w4 false w4) by (unfold lift; rewrite Hdecide; reflexivity).
    rewrite (mbind_step _ _ w4 false w4) by (unfold lift; rewrite Hdecide; reflexivity).
    reflexivity. }
  destruct (Hsame _ _ _ _ _ Hbody Hrun) as (Hf & Hs & He).
  repeat split; congruence.
Qed.
End SkipFacts.

(** ** The help listing *)

Lemma confined_collect {A B} D `{!PreOrder D} P (f : A -> M B) l :
  (forall x, confined D P (f x)) -> confined D P (collect f l).
Proof.
  intros Hf. induction l as [| x l IH]; simpl.
  - confine confined_mret.
  - confine confined_mbind; [apply Hf | intros y].
    confine confined_mbind; [exact IH | intros ys]. confine confined_mret.
Qed.

Lemma confined_item D `{!PreOrder D} P k d : confined D P (item k d).
Proof. unfold item. destruct (dict_get k d); [confine confined_mret | confine confined_raise]. Qed.

Lemma confined_cell D `{!PreOrder D} P v : confined D P (cell v).
Proof. destruct v; first [confine confined_mret | confine confined_raise]. Qed.

Lemma collect_pure {A B} (f : A -> M B) (g : A -> B) l w :
  (forall x, In x l -> f x w = (Ok (g x), w)) -> collect f l w = (Ok (map g l), w).
Proof.
  induction l as [| x l IH]; simpl; intros Hf; [reflexivity |].
  rewrite (mbind_step _ _ _ _ _ (Hf x (or_introl eq_refl))).
  rewrite (mbind_step _ _ w (map g l) w); [reflexivity |].
  apply IH. intros y Hy. apply Hf. right. exact Hy.
Qed.

Lemma collect_fails {A B} (f : A -> M B) (g : A -> B) before x after exc w :
  (forall y, In y before -> f y w = (Ok (g y), w)) ->
  f x w = (Raise exc, w) ->
  collect f (before ++ x :: after) w = (Raise exc, w).
Proof.
  induction before as [| y before IH]; simpl; intros Hf Hx.
  - unfold mbind. rewrite Hx. reflexivity.
  - rewrite (mbind_step _ _ _ _ _ (Hf y (or_introl eq_refl))).
    unfold mbind at 1. rewrite IH; [reflexivity | | exact Hx].
    intros z Hz. apply Hf. right. exact Hz.
Qed.

Lemma match_nonempty {A B} (l : list A) (x y : B) :
  l <> [] -> match l with [] => x | _ => y end = y.
Proof. destruct l; [congruence | reflexivity]. Qed.

Section HelpFacts.
Context `{Digest} `{Parsers} `{Runtime} `{Console}.

Lemma confined_print_run_help dir subcommand :
  confined adds_directories no_child (print_run_help dir subcommand).
Proof.
  unfold print_run_help.
  confine confined_mbind;
    [apply confined_load_project_config; [exact _ | apply adds_directories_mkdir] |].
  intros config.
  confine confined_mbind; [confine confined_typed | intros config_commands].
  confine confined_mbind; [| intros names].
  { apply confined_collect; [exact _ |]. intros cmd. unfold command_name.
    confine confined_mbind; [apply confined_item; exact _ | intros v].
    confine confined_typed. }
  confine confined_mbind; [confine confined_typed | intros workflows].
  assert (Hlisting : confined adds_directories no_child
                       (help_listing config_commands workflows)).
  { unfold help_listing.
    confine confined_mbind; [confine confined_print | intros _].
    confine confined_mbind; [| intros _].
    - destruct config_commands; [confine confined_mret |].
      confine confined_mbind; [| intros rows; confine confined_print].
      apply confined_collect; [exact _ |]. intros cmd.
      confine confined_mbind; [| intros name].
      { unfold command_name.
        confine confined_mbind; [apply confined_item; exact _ | intros v].
        confine confined_typed. }
      confine confined_mbind; [apply confined_item; exact _ | intros h].
      confine confined_mbind; [apply confined_cell; exact _ | intros c].
      confine confined_mret.
    - destruct workflows; [confine confined_mret | confine confined_print]. }
  destruct subcommand as [name |]; [| exact Hlisting].
  destruct (String.eqb name ""); [exact Hlisting |].
  unfold help_on.
  confine confined_mbind; [confine confined_validate_subcommand | intros _].
  destruct (dict_get name _) as [cmd |].
  - confine confined_mbind; [apply confined_cell; exact _ | intros c].
    confine confined_print.
  - destruct (dict_get name workflows) as [steps |]; [| confine confined_mret].
    confine confined_mbind; [confine confined_print | intros _].
    confine confined_mbind; [| intros rows; confine confined_print].
    apply confined_collect; [exact _ |]. intros step.
    destruct (dict_get step _) as [cmd |]; [| confine confined_raise].
    confine confined_mbind; [apply confined_cell; exact _ | intros c].
    confine confined_mret.
Qed.

(** X23.  With [--help], and without a subcommand, [run] runs nothing:
    whatever else the command line holds -- a command name, [--force],
    overrides -- no child process is started and no file is written, the
    lockfile included; the disk changes at most by the directories the
    manifest declares. *)
Theorem help_runs_nothing depth args subcommand dir dry show_help force w :
  show_help = true \/ subcommand = None \/ subcommand = Some "" ->
  spawned (run depth args subcommand dir dry show_help force w).2 = spawned w
  /\ environ (run depth args subcommand dir dry show_help force w).2 = environ w
  /\ adds_directories (fs w) (fs (run depth args subcommand dir dry show_help force w).2).
Proof.
  intros Hhelp.
  assert (Hrun : run depth args subcommand dir dry show_help force w
                 = print_run_help dir subcommand w).
  { unfold run. destruct subcommand as [name |]; [| reflexivity].
    destruct Hhelp as [-> | [Hnone | [= ->]]]; [reflexivity | discriminate |].
    rewrite orb_true_r. reflexivity. }
  rewrite Hrun.
  destruct (print_run_help dir subcommand w) as [r w'] eqn:E. simpl.
  destruct (confined_print_run_help dir subcommand _ _ _ E) as (He & Hd & started & Hs & Hp).
  rewrite (no_child_started _ Hp), app_nil_r in Hs. auto.
Qed.

(** X24.  The listing of all commands reads the [help] of every
    command, which the schema lets a command leave out: when a command
    of the loaded manifest has no [help] key, the listing prints only
    its first, empty line and fails with a [KeyError], and no table is
    shown. *)
Theorem listing_fails_without_help_text dir w config w1 before cmd after workflows :
  load_project_config dir true [] w = (Ok config, w1) ->
  raw_commands config = Some (before ++ cmd :: after) ->
  config_workflows config = Some workflows ->
  Forall (fun c => is_Some (dict_get "name" c ≫= as_str)) (before ++ cmd :: after) ->
  Forall (fun c => dict_get "help" c = Some VNull
                   \/ exists text, dict_get "help" c = Some (VStr text)) before ->
  dict_get "help" cmd = None ->
  print_run_help dir None w = (Raise "KeyError", add_prints [""] w1).
Proof.
  intros Hload Hraw Hwf Hnames Hhelp Hmissing. unfold print_run_help.
  rewrite (mbind_step _ _ _ _ _ Hload), Hraw.
  rewrite (mbind_step _ _ w1 (before ++ cmd :: after) w1) by reflexivity.
  assert (Hname : forall c w0, In c (before ++ cmd :: after) ->
            command_name c w0 = (Ok (default "" (dict_get "name" c ≫= as_str)), w0)).
  { intros c w0 Hc. rewrite Forall_forall in Hnames.
    destruct (Hnames c (proj2 (list_elem_of_In _ _) Hc)) as [n Hn].
    unfold command_name, item.
    destruct (dict_get "name" c) as [v |]; [| discriminate Hn].
    rewrite (mbind_step _ _ w0 v w0) by reflexivity.
    simpl in Hn |- *. rewrite Hn. reflexivity. }
  rewrite (mbind_step _ _ w1
             (map (fun c => default "" (dict_get "name" c ≫= as_str)) (before ++ cmd :: after))
             w1)
    by (apply collect_pure; intros c Hc; apply Hname; exact Hc).
  rewrite Hwf. rewrite (mbind_step _ _ w1 workflows w1) by reflexivity.
  unfold help_listing.
  rewrite (mbind_step _ _ w1 tt (add_prints [""] w1)) by reflexivity.
  unfold mbind at 1.
  assert (Hmember : forall c, In c before -> In c (before ++ cmd :: after))
    by (intros c Hc; apply in_or_app; left; exact Hc).
  assert (Hcmd : In cmd (before ++ cmd :: after))
    by (apply in_or_app; right; left; reflexivity).
  rewrite (match_nonempty (before ++ cmd :: after)) by (destruct before; discriminate).
  unfold mbind at 1. unfold mbind at 1.
  rewrite (collect_fails _
             (fun c => [Some (default "" (dict_get "name" c ≫= as_str));
                        Some ("project run " +:+ default "" (dict_get "name" c ≫= as_str));
                        match dict_get "help" c with Some (VStr s) => Some s | _ => None end])
             before cmd after "KeyError"); [reflexivity | |].
  - intros c Hc. cbv beta. rewrite (Hname c _ (Hmember c Hc)).
    rewrite Forall_forall in Hhelp.
    destruct (Hhelp c (proj2 (list_elem_of_In _ _) Hc)) as [Hh | [text Hh]];
      unfold item; rewrite Hh; reflexivity.
  - cbv beta. rewrite (Hname cmd _ Hcmd).
    unfold item. rewrite Hmissing. reflexivity.
Qed.
End HelpFacts.

Lemma help_runs_nothing_witness :
  spawned (run 2 ["--vars.x=1"] (Some "build") proj false true true build_world).2
  = spawned build_world
  /\ environ (run 2 ["--vars.x=1"] (Some "build") proj false true true build_world).2
     = environ build_world
  /\ adds_directories (fs build_world)
       (fs (run 2 ["--vars.x=1"] (Some "build") proj false true true build_world).2).
Proof.
  apply (help_runs_nothing (H := reference_digest) (H0 := Demo.parsers) (H1 := Demo.runtime)
           (H2 := plain_console)).
  left. reflexivity.
Defined.

Lemma listing_fails_without_help_text_witness :
  print_run_help proj None (project_world helpless_manifest)
  = (Raise "KeyError", add_prints [""] (project_world helpless_manifest)).
Proof.
  eapply (listing_fails_without_help_text (H0 := Demo.parsers) (H1 := Demo.runtime)
            (H2 := plain_console) proj (project_world helpless_manifest) _
            (project_world helpless_manifest)
            [[("name", VStr "build"); ("help", VStr "build it");
              ("script", VList [VStr "true"])]]
            [("name", VStr "test"); ("script", VList [VStr "true"])] [] []).
  - vm_compute. reflexivity.
  - vm_compute. reflexivity.
  - vm_compute. reflexivity.
  - constructor; [eexists; reflexivity |]. constructor; [eexists; reflexivity |].
    constructor.
  - constructor; [right; eexists; reflexivity | constructor].
  - reflexivity.
Defined.

Lemma missing_dependency_stops_the_run_witness :
  run_single proj "build" build_cmd false false false data_world
  = (Exit 1,
     add_prints
       ["Missing dependency specified by command '" +:+ "build" +:+ "': " +:+ "missing.txt";
        "Maybe you forgot to run the 'project assets' command or a previous step?"]
       data_world).
Proof.
  apply (missing_dependency_stops_the_run (H := reference_digest) (H1 := Demo.runtime)
           proj "build" build_cmd false false data_world ["data"] "missing.txt" []).
  - reflexivity.
  - repeat constructor.
  - reflexivity.
Defined.

Lemma skipped_command_changes_nothing_witness :
  fs (run_single proj "build"
        (Command "build" None (Some ["touch out.txt"]) (Some ["src.txt"])
                 (Some ["out.txt"]) None None)
        false false false (run_build build_world)).2
  = fs (run_build build_world)
  /\ spawned (run_single proj "build"
                (Command "build" None (Some ["touch out.txt"]) (Some ["src.txt"])
                         (Some ["out.txt"]) None None)
                false false false (run_build build_world)).2
     = spawned (run_build build_world)
  /\ environ (run_single proj "build"
                (Command "build" None (Some ["touch out.txt"]) (Some ["src.txt"])
                         (Some ["out.txt"]) None None)
                false false false (run_build build_world)).2
     = environ (run_build build_world).
Proof.
  apply (skipped_command_changes_nothing (H := reference_digest) (H1 := Demo.runtime)).
  - apply (bool_decide_unpack _). vm_compute. exact I.
  - vm_compute. reflexivity.
Defined.

(** ** After a run *)

Lemma collapse_app acc p q : collapse acc (p ++ q) = collapse (collapse acc p) q.
Proof.
  revert acc. induction p as [| part p IH]; intros acc; simpl; [reflexivity |].
  destruct (String.eqb part ".."); apply IH.
Qed.

Lemma lock_path_normal dir : normal dir -> normal (joinpath dir PROJECT_LOCK).
Proof.
  intros [Ha Hc]. change (joinpath dir PROJECT_LOCK) with (dir ++ [PROJECT_LOCK]).
  split.
  - destruct dir; [discriminate | exact Ha].
  - rewrite collapse_app, Hc. reflexivity.
Qed.

Lemma read_yaml_same_disk w1 w2 p :
  normal p -> fs w1 = fs w2 -> read_yaml w1 p = read_yaml w2 p.
Proof.
  intros Hp Hf. unfold read_yaml. rewrite !(stat_normal _ _ Hp), Hf. reflexivity.
Qed.

Section AfterRun.
Context `{Digest} `{Parsers} `{Runtime}.

Lemma check_rerun_false_stored w dir c :
  check_rerun w dir c = Ok false ->
  exists data entry,
    read_yaml w (joinpath dir PROJECT_LOCK) = Ok (VDict data)
    /\ dict_get (name c) data = Some entry.
Proof.
  unfold check_rerun.
  destruct (default false (no_skip c)); [discriminate |].
  destruct (negb (path_exists w (joinpath dir PROJECT_LOCK))); [discriminate |].
  destruct (read_yaml w (joinpath dir PROJECT_LOCK)) as [data | |]; simpl; try discriminate.
  destruct (lock_lookup data (name c)) as [[entry |] | |] eqn:Hlook; simpl; try discriminate.
  intros _. destruct data as [| | | | s | l | d]; simpl in Hlook; try discriminate.
  - destruct (contains (name c) s); discriminate.
  - destruct (existsb _ l); discriminate.
  - exists d, entry. split; [reflexivity | congruence].
Qed.

(** X25.  After a run of a command that is not dry and ends normally,
    the lockfile of the project directory is a mapping with an entry
    under the command's name: the run has either stored one, or found
    one that made it skip the command. *)
Theorem normal_run_leaves_an_entry dir subcommand cmd force capture w w' :
  normal (cwd w) ->
  run_single dir subcommand cmd force false capture w = (Ok tt, w') ->
  exists data entry,
    read_yaml w' (joinpath (resolve (cwd w) dir) PROJECT_LOCK) = Ok (VDict data)
    /\ dict_get (name cmd) data = Some entry.
Proof.
  intros Hcwd E. unfold run_single in E.
  apply mbind_ok in E as ([] & w1 & Hdeps & E).
  pose proof (keeps_run_single_deps dir subcommand cmd false _ _ _ Hdeps) as Hc1.
  unfold working_dir in E.
  apply mbind_ok in E as (prev & w2 & Hprev & E).
  assert (prev = cwd w1 /\ w2 = w1) as [-> ->]
    by (unfold getcwd in Hprev; destruct (is_dir w1 (cwd w1)); split; congruence).
  apply mbind_ok in E as (current & w3 & Hcur & E). injection Hcur as <- <-.
  apply mbind_ok in E as ([] & w3 & _ & E).
  rewrite Hc1 in E.
  set (current := resolve (cwd w) dir) in *.
  assert (Hlock : normal (joinpath current PROJECT_LOCK))
    by (apply lock_path_normal, resolve_is_normal, Hcwd).
  apply (finally_chdir _ _ _ _ _ Hcwd) in E as (rb & w4 & Hbody & Hend).
  destruct Hend as [(_ & <- & ->) | (_ & _ & e & He)]; [| discriminate He].
  assert (Hentry : exists data entry,
            read_yaml w4 (joinpath current PROJECT_LOCK) = Ok (VDict data)
            /\ dict_get (name cmd) data = Some entry).
  { apply mbind_ok in Hbody as ([] & w5 & _ & Hbody).
    apply mbind_ok in Hbody as (rerun & w6 & Hrerun & Hbody).
    unfold lift in Hrerun.
    destruct (check_rerun w5 current cmd) as [decision | |] eqn:Hdecision;
      try discriminate Hrerun.
    injection Hrerun as <- <-.
    destruct (negb decision && negb force) eqn:Hbranch.
    - destruct decision; [discriminate Hbranch |].
      destruct (check_rerun_false_stored _ _ _ Hdecision) as (data & entry & Hread & Hget).
      exists data, entry. split; [| exact Hget].
      rewrite <- Hread. apply (read_yaml_same_disk _ _ _ Hlock).
      injection Hbody as <-. reflexivity.
    - apply mbind_ok in Hbody as (lines & w7 & _ & Hbody).
      apply mbind_ok in Hbody as ([] & w8 & _ & Hbody). simpl in Hbody.
      apply update_lockfile_stores in Hbody as (w0 & d & entry & _ & Hread).
      exists (dict_set (name cmd) entry d), entry.
      split; [exact Hread | apply dict_get_set_eq]. }
  destruct Hentry as (data & entry & Hread & Hget). exists data, entry.
  split; [| exact Hget]. rewrite <- Hread. apply (read_yaml_same_disk _ _ _ Hlock). reflexivity.
Qed.
End AfterRun.

Lemma normal_run_leaves_an_entry_witness :
  exists data entry,
    read_yaml (run_single proj "build"
                 (Command "build" None (Some ["touch out.txt"]) (Some ["src.txt"])
                          (Some ["out.txt"]) None None)
                 false false false build_world).2
              (joinpath (resolve (cwd build_world) proj) PROJECT_LOCK) = Ok (VDict data)
    /\ dict_get (name (Command "build" None (Some ["touch out.txt"]) (Some ["src.txt"])
                               (Some ["out.txt"]) None None)) data = Some entry.
Proof.
  apply (normal_run_leaves_an_entry (H := reference_digest) (H1 := Demo.runtime)
           proj "build"
           (Command "build" None (Some ["touch out.txt"]) (Some ["src.txt"])
                    (Some ["out.txt"]) None None)
           false false build_world).
  - apply (bool_decide_unpack _). vm_compute. exact I.
  - vm_compute. reflexivity.
Defined.

(** ** Help on a workflow *)

Lemma collect_first_failure {A B} (f : A -> M B) (l : list A) exc w :
  (forall x, In x l -> (exists y, f x w = (Ok y, w)) \/ f x w = (Raise exc, w)) ->
  (exists x, In x l /\ f x w = (Raise exc, w)) ->
  collect f l w = (Raise exc, w).
Proof.
  induction l as [| x l IH]; intros Hall (bad & Hin & Hbad); [destruct Hin |].
  simpl. unfold mbind at 1.
  destruct (Hall x (or_introl eq_refl)) as [[y Hy] | Hx]; [| rewrite Hx; reflexivity].
  rewrite Hy. unfold mbind at 1. rewrite IH; [reflexivity | |].
  - intros z Hz. apply Hall. right. exact Hz.
  - destruct Hin as [-> | Hin]; [congruence |]. exists bad. split; assumption.
Qed.

Section HelpOnWorkflows.
Context `{Digest} `{Parsers} `{Runtime} `{Console}.

(** X26.  Help on a workflow looks every step up among the commands:
    when a step names no command -- which the load only reports -- the
    help prints the table of the workflow and then fails with a
    [KeyError], in whatever order the set of steps is gone through, and
    the table of the steps is not shown. *)
Theorem help_on_workflow_with_unknown_step commands workflows subcommand steps step w :
  dict_get subcommand commands = None ->
  dict_get subcommand workflows = Some steps ->
  In step steps ->
  dict_get step commands = None ->
  Forall (fun kv => dict_get "help" kv.2 = None \/ dict_get "help" kv.2 = Some VNull
                    \/ exists text, dict_get "help" kv.2 = Some (VStr text)) commands ->
  help_on commands workflows subcommand w
  = (Raise "KeyError",
     add_prints [render_table None ["workflow"; "Usage"; "steps"]
                   [[Some subcommand; Some ("project run " +:+ subcommand);
                     Some (String.concat " -> " steps)]]] w).
Proof.
  intros Hnc Hwf Hin Hstep Hhelp. unfold help_on.
  rewrite (mbind_step _ _ w tt w).
  2: { apply validate_subcommand_known. right.
       clear -Hwf. induction workflows as [| [k v] workflows IH]; [discriminate |].
       simpl in Hwf |- *. destruct (String.eqb_spec subcommand k) as [-> | Hne];
         [left; reflexivity | right; exact (IH Hwf)]. }
  rewrite Hnc, Hwf.
  set (table := render_table None ["workflow"; "Usage"; "steps"] _).
  rewrite (mbind_step _ _ w tt (add_prints [table] w)) by reflexivity.
  unfold mbind at 1. rewrite (collect_first_failure _ (set_order steps) "KeyError");
    [reflexivity | |].
  - intros x _. destruct (dict_get x commands) as [c |] eqn:Hx; [left | right; reflexivity].
    assert (Hc : dict_get "help" c = None \/ dict_get "help" c = Some VNull
                 \/ exists text, dict_get "help" c = Some (VStr text)).
    { clear -Hx Hhelp. induction Hhelp as [| [k v] rest Hkv _ IH]; [discriminate |].
      simpl in Hx. destruct (String.eqb x k); [injection Hx as <-; exact Hkv | exact (IH Hx)]. }
    destruct Hc as [Hc | [Hc | [text Hc]]]; rewrite Hc; eexists; reflexivity.
  - exists step. split; [| rewrite Hstep; reflexivity].
    apply (Permutation_in _ (Permutation_sym (set_order_distinct steps))).
    apply list_elem_of_In, elem_of_remove_dups, list_elem_of_In. exact Hin.
Qed.
End HelpOnWorkflows.

Lemma help_on_workflow_with_unknown_step_witness :
  help_on [("build", [("name", VStr "build"); ("help", VStr "build it");
                      ("script", VList [VStr "true"])])]
          [("all", ["build"; "deploy"])] "all" (project_world dangling_manifest)
  = (Raise "KeyError",
     add_prints [render_table None ["workflow"; "Usage"; "steps"]
                   [[Some "all"; Some ("project run " +:+ "all");
                     Some (String.concat " -> " ["build"; "deploy"])]]]
                (project_world dangling_manifest)).
Proof.
  apply (help_on_workflow_with_unknown_step (H2 := plain_console)
           [("build", [("name", VStr "build"); ("help", VStr "build it");
                       ("script", VList [VStr "true"])])]
           [("all", ["build"; "deploy"])] "all" ["build"; "deploy"] "deploy").
  - reflexivity.
  - reflexivity.
  - right. left. reflexivity.
  - reflexivity.
  - constructor; [right; right; eexists; reflexivity | constructor].
Defined.
